(** * A shallow embedding of the PDF ingestion and search pipeline

    The development follows the two Python modules of the repository:
    [src/pdf_processor.py] (class [PDFProcessor]) and
    [src/search_engine.py] (class [SearchEngine]).

    - Python [str] values are lists of characters ([list ascii], read as the
      code points 0..255); [len] is [length].
    - Python exceptions are explicit: a computation returns [Ok v] or
      [Raise e], and [e] records whether the exception is caught by an
      [except Exception] clause or is a [KeyboardInterrupt].
    - The vector database, the PDF reader, the clock and the file system are
      external: every call to them is answered by an oracle that sees the
      history of calls made so far, and is recorded in that history. *)

From Stdlib Require Import List Ascii String ZArith Lia Bool Arith.
From Stdlib Require Import Floats.SpecFloat.
Import ListNotations.

Set Implicit Arguments.
Set Warnings "-register-all,-automation".

(** ** Python strings *)

Module PyStr.

Definition str := list ascii.

Definition of_string (s : string) : str := list_ascii_of_string s.

(** [str.isspace] on one character: the code points of the range 0..255 that
    Python treats as whitespace (TAB, LF, VT, FF, CR, FS, GS, RS, US, SPACE,
    NEL, NBSP). *)
Definition isspace (c : ascii) : bool :=
  let n := N_of_ascii c in
  ((9 <=? n) && (n <=? 13) || (28 <=? n) && (n <=? 32)
   || (n =? 133) || (n =? 160))%N.

Definition space : ascii := " "%char.

(** [text.split()] with no argument: the maximal runs of non-whitespace
    characters, in order.  [cur] is the run being read, most recent character
    first. *)
Fixpoint split_go (cur : str) (s : str) : list str :=
  match s with
  | [] => match cur with [] => [] | _ => [rev cur] end
  | c :: s' =>
      if isspace c
      then match cur with
           | [] => split_go [] s'
           | _ => rev cur :: split_go [] s'
           end
      else split_go (c :: cur) s'
  end.

Definition split (s : str) : list str := split_go [] s.

(** [' '.join(words)]. *)
Fixpoint join (words : list str) : str :=
  match words with
  | [] => []
  | [w] => w
  | w :: ws => w ++ space :: join ws
  end.

(** [text.strip()]: whitespace removed at both ends. *)
Fixpoint lstrip (s : str) : str :=
  match s with
  | [] => []
  | c :: s' => if isspace c then lstrip s' else s
  end.

Definition rstrip (s : str) : str := rev (lstrip (rev s)).

Definition strip (s : str) : str := rstrip (lstrip s).

(** Truth value of a string: [not s] is [true] exactly for the empty one. *)
Definition is_empty (s : str) : bool :=
  match s with [] => true | _ => false end.

Definition len (s : str) : Z := Z.of_nat (List.length s).

End PyStr.

(** ** The chunker: [PDFProcessor._chunk_text] *)

Module Chunker.
Import PyStr.

(** Loop state: [chunks], [current_chunk], [current_size]. *)
Record state := mk_state {
  chunks : list str;
  current_chunk : list str;
  current_size : Z
}.

Definition init : state := mk_state [] [] 0.

(** The [if current_chunk: chunks.append(' '.join(current_chunk))] idiom. *)
Definition flush (chunks : list str) (current_chunk : list str) : list str :=
  match current_chunk with
  | [] => chunks
  | _ => chunks ++ [join current_chunk]
  end.

(** One iteration of [for word in words]. *)
Definition step (chunk_size : Z) (st : state) (word : str) : state :=
  let current_size := (current_size st + (len word + 1))%Z in
  if (current_size >? chunk_size)%Z
  then mk_state (flush (chunks st) (current_chunk st)) [word] (len word)
  else mk_state (chunks st) (current_chunk st ++ [word]) current_size.

Definition loop (chunk_size : Z) (words : list str) (st : state) : state :=
  fold_left (step chunk_size) words st.

Definition _chunk_text (text : str) (chunk_size : Z) : list str :=
  let st := loop chunk_size (split text) init in
  flush (chunks st) (current_chunk st).

End Chunker.

(** ** Exceptions and results *)

Module Py.

(** The two classes of exception the code distinguishes.  [Exception kind] is
    any instance of [Exception] (with the name of its class); it is what an
    [except Exception] clause catches.  [KeyboardInterrupt] derives from
    [BaseException] only and passes through such a clause. *)
Inductive exn :=
| Exception (kind : string)
| KeyboardInterrupt.

Inductive res (A : Type) :=
| Ok (a : A)
| Raise (e : exn).
Arguments Ok {A} a.
Arguments Raise {A} e.

Definition rbind {A B} (m : res A) (k : A -> res B) : res B :=
  match m with
  | Ok a => k a
  | Raise e => Raise e
  end.

(** [try: m  except Exception as e: h e]. *)
Definition rcatch {A} (m : res A) (h : string -> res A) : res A :=
  match m with
  | Raise (Exception kind) => h kind
  | _ => m
  end.

Definition exn_of {A} (r : res A) : option exn :=
  match r with
  | Ok _ => None
  | Raise e => Some e
  end.

Definition res_of_exn (o : option exn) : res unit :=
  match o with
  | None => Ok tt
  | Some e => Raise e
  end.

Definition is_interrupt (o : option exn) : bool :=
  match o with
  | Some KeyboardInterrupt => true
  | _ => false
  end.

End Py.

Declare Scope res_scope.
Delimit Scope res_scope with res.
Notation "x <- m ;; k" := (Py.rbind m (fun x => k))
  (at level 61, m at next level, right associativity) : res_scope.

(** ** JSON values as Python objects *)

Module Json.
Import PyStr Py.
Local Open Scope res_scope.

(** What [json.loads] builds, and what the Weaviate client hands back:
    [None], [bool], [int], [float], [str], [list] and [dict] with string
    keys (an association list in insertion order, keys pairwise distinct). *)
Inductive json :=
| JNull
| JBool (b : bool)
| JInt (n : Z)
| JFloat (f : spec_float)
| JStr (s : str)
| JArr (l : list json)
| JObj (kvs : list (str * json)).

Fixpoint str_eqb (a b : str) : bool :=
  match a, b with
  | [], [] => true
  | x :: a', y :: b' => Ascii.eqb x y && str_eqb a' b'
  | _, _ => false
  end.

Fixpoint lookup (k : str) (kvs : list (str * json)) : option json :=
  match kvs with
  | [] => None
  | (k', v) :: rest => if str_eqb k k' then Some v else lookup k rest
  end.

(** [v[key]] with a string key. *)
Definition getitem (v : json) (key : string) : res json :=
  match v with
  | JObj kvs =>
      match lookup (of_string key) kvs with
      | Some x => Ok x
      | None => Raise (Exception "KeyError")
      end
  | _ => Raise (Exception "TypeError")
  end.

(** [v[i]] with an integer index (negative indices count from the end). *)
Definition norm_index (i : Z) (n : nat) : option nat :=
  let j := if (i <? 0)%Z then (i + Z.of_nat n)%Z else i in
  if ((0 <=? j) && (j <? Z.of_nat n))%Z then Some (Z.to_nat j) else None.

Definition getindex (v : json) (i : Z) : res json :=
  match v with
  | JArr l =>
      match norm_index i (List.length l) with
      | Some j => match nth_error l j with
                  | Some x => Ok x
                  | None => Raise (Exception "IndexError")
                  end
      | None => Raise (Exception "IndexError")
      end
  | JStr s =>
      match norm_index i (List.length s) with
      | Some j => match nth_error s j with
                  | Some c => Ok (JStr [c])
                  | None => Raise (Exception "IndexError")
                  end
      | None => Raise (Exception "IndexError")
      end
  | JObj _ => Raise (Exception "KeyError")
  | _ => Raise (Exception "TypeError")
  end.

(** [bool(v)]. *)
Definition truthy (v : json) : bool :=
  match v with
  | JNull => false
  | JBool b => b
  | JInt n => negb (n =? 0)%Z
  | JFloat (S754_zero _) => false
  | JFloat _ => true
  | JStr s => negb (is_empty s)
  | JArr l => match l with [] => false | _ => true end
  | JObj kvs => match kvs with [] => false | _ => true end
  end.

Fixpoint is_prefix (p s : str) : bool :=
  match p, s with
  | [], _ => true
  | x :: p', y :: s' => Ascii.eqb x y && is_prefix p' s'
  | _ :: _, [] => false
  end.

Fixpoint is_substring (p s : str) : bool :=
  is_prefix p s ||
  match s with
  | [] => false
  | _ :: s' => is_substring p s'
  end.

Definition is_the_str (k : str) (v : json) : bool :=
  match v with
  | JStr s => str_eqb k s
  | _ => false
  end.

(** [key in v] with a string key. *)
Definition contains (key : string) (v : json) : res bool :=
  match v with
  | JObj kvs => Ok (match lookup (of_string key) kvs with Some _ => true | None => false end)
  | JStr s => Ok (is_substring (of_string key) s)
  | JArr l => Ok (existsb (is_the_str (of_string key)) l)
  | _ => Raise (Exception "TypeError")
  end.

(** [len(v)]. *)
Definition py_len (v : json) : res nat :=
  match v with
  | JArr l => Ok (List.length l)
  | JObj kvs => Ok (List.length kvs)
  | JStr s => Ok (List.length s)
  | _ => Raise (Exception "TypeError")
  end.

(** The items a [for r in v] loop visits. *)
Definition iter (v : json) : res (list json) :=
  match v with
  | JArr l => Ok l
  | JObj kvs => Ok (map (fun kv => JStr (fst kv)) kvs)
  | JStr s => Ok (map (fun c => JStr [c]) s)
  | _ => Raise (Exception "TypeError")
  end.

End Json.

(** ** Python floats (IEEE 754 binary64) *)

Module Float64.
Import Py Json.

Definition prec : Z := 53.
Definition emax : Z := 1024.

Definition valid (x : spec_float) : bool := valid_binary prec emax x.
Definition mul : spec_float -> spec_float -> spec_float := SFmul prec emax.
Definition div : spec_float -> spec_float -> spec_float := SFdiv prec emax.
Definition leb : spec_float -> spec_float -> bool := SFleb.

(** The literals of the code: [0.7] (the default [min_score]), the [100] that
    multiplies a float, and the bounds used in the statements. *)
Definition f0_7 : spec_float := S754_finite false 6305039478318694 (-53).
Definition f100 : spec_float := S754_finite false 7036874417766400 (-46).
Definition f70 : spec_float := S754_finite false 4925812092436480 (-46).
Definition f1 : spec_float := S754_finite false 4503599627370496 (-52).
Definition f0 : spec_float := S754_zero false.

(** The integer nearest to [a / b], ties to the even one ([0 <= a], [0 < b]). *)
Definition div_half_even (a b : Z) : Z :=
  let q := (a / b)%Z in
  match (2 * (a mod b) ?= b)%Z with
  | Lt => q
  | Gt => (q + 1)%Z
  | Eq => if Z.even q then q else (q + 1)%Z
  end.

(** The magnitude of [x * 100] rounded to an integer, for [x = m * 2^e]. *)
Definition hundredths (m : positive) (e : Z) : Z :=
  if (0 <=? e)%Z
  then (Zpos m * 2 ^ e * 100)%Z
  else div_half_even (Zpos m * 100) (2 ^ (- e)).

(** [round(x, 2)] on a float.  CPython prints [x] to two decimals, correctly
    rounded (ties to even on the exact binary value), and reads the decimal
    back as the nearest double; infinities and NaN round to themselves. *)
Definition round2 (x : spec_float) : spec_float :=
  match x with
  | S754_finite s m e =>
      match hundredths m e with
      | Zpos k => div (S754_finite s k 0) (S754_finite false 100 0)
      | _ => S754_zero s
      end
  | _ => x
  end.

(** Exact comparison of a Python [int] with a float. *)
Definition Zcompare_float (n : Z) (f : spec_float) : option comparison :=
  match f with
  | S754_nan => None
  | S754_infinity s => Some (if s then Gt else Lt)
  | S754_zero _ => Some (n ?= 0)%Z
  | S754_finite s m e =>
      let v := cond_Zopp s (Zpos m) in
      Some (if (0 <=? e)%Z then (n ?= v * 2 ^ e)%Z else (n * 2 ^ (- e) ?= v)%Z)
  end.

Definition Z_ge_float (n : Z) (f : spec_float) : bool :=
  match Zcompare_float n f with
  | Some (Gt | Eq) => true
  | _ => false
  end.

(** [v >= min_score] where [min_score] is a float. *)
Definition py_ge (v : json) (min_score : spec_float) : res bool :=
  match v with
  | JFloat f => Ok (leb min_score f)
  | JInt n => Ok (Z_ge_float n min_score)
  | JBool b => Ok (Z_ge_float (Z.b2z b) min_score)
  | _ => Raise (Exception "TypeError")
  end.

(** [v * 100]. *)
Definition py_mul100 (v : json) : res json :=
  match v with
  | JFloat f => Ok (JFloat (mul f f100))
  | JInt n => Ok (JInt (n * 100))
  | JBool b => Ok (JInt (Z.b2z b * 100))
  | JStr s => Ok (JStr (List.concat (repeat s 100)))
  | JArr l => Ok (JArr (List.concat (repeat l 100)))
  | _ => Raise (Exception "TypeError")
  end.

(** [round(v, 2)]. *)
Definition py_round2 (v : json) : res json :=
  match v with
  | JFloat f => Ok (JFloat (round2 f))
  | JInt n => Ok (JInt n)
  | JBool b => Ok (JInt (Z.b2z b))
  | _ => Raise (Exception "TypeError")
  end.

End Float64.

(** ** The search service: [SearchEngine] *)

Module Search.
Import PyStr Py Json Float64.
Local Open Scope res_scope.

(** One formatted result of [search]. *)
Record result := mk_result {
  content : json;
  page_number : json;
  file_name : json;
  chunk_number : json;
  relevance_score : json
}.

(** The backend as [SearchEngine] sees it: the outcome of the near-text
    query built from [query] and [limit], and of the aggregate count. *)
Record backend := mk_backend {
  near_text : str -> Z -> res json;
  aggregate_count : res json
}.

(** [response['data']['Get']['Document']]. *)
Definition documents_of (response : json) : res json :=
  data <- getitem response "data" ;;
  get <- getitem data "Get" ;;
  getitem get "Document".

(** [r['_additional']['certainty']]. *)
Definition certainty_of (r : json) : res json :=
  additional <- getitem r "_additional" ;;
  getitem additional "certainty".

(** The dictionary appended for a result that passes the filter. *)
Definition format (r certainty : json) : res result :=
  c <- getitem r "content" ;;
  p <- getitem r "page_number" ;;
  f <- getitem r "file_name" ;;
  n <- getitem r "chunk_number" ;;
  x <- py_mul100 certainty ;;
  s <- py_round2 x ;;
  Ok (mk_result c p f n s).

(** The [for r in results] loop, [formatted_results] being the accumulator. *)
Fixpoint format_loop (results : list json) (min_score : spec_float)
    (formatted_results : list result) : res (list result) :=
  match results with
  | [] => Ok formatted_results
  | r :: rest =>
      certainty <- certainty_of r ;;
      keep <- py_ge certainty min_score ;;
      if keep
      then (x <- format r certainty ;;
            format_loop rest min_score (formatted_results ++ [x]))
      else format_loop rest min_score formatted_results
  end.

(** The body of the [try] block of [search]. *)
Definition search_body (b : backend) (query : str) (limit : Z)
    (min_score : spec_float) : res (list result) :=
  response <- near_text b query limit ;;
  results <- documents_of response ;;
  items <- iter results ;;
  format_loop items min_score [].

Definition search (b : backend) (query : str) (limit : Z)
    (min_score : spec_float) : res (list result) :=
  rcatch (search_body b query limit min_score) (fun _ => Ok []).

Definition default_limit : Z := 5.
Definition default_min_score : spec_float := f0_7.

(** The body of the [try] block of [get_document_count]. *)
Definition get_document_count_body (b : backend) : res json :=
  response <- aggregate_count b ;;
  data <- getitem response "data" ;;
  agg <- getitem data "Aggregate" ;;
  docs <- getitem agg "Document" ;;
  first <- getindex docs 0 ;;
  meta <- getitem first "meta" ;;
  getitem meta "count".

Definition get_document_count (b : backend) : res json :=
  rcatch (get_document_count_body b) (fun _ => Ok (JInt 0)).

End Search.

(** ** The document processor: [PDFProcessor] *)

Module Processor.
Import PyStr Py Json Chunker.

(** A [pathlib.Path]: the directory part and the final component ([.name]). *)
Record Path := mk_path {
  parent : str;
  name : str
}.

(** The [properties] dictionary built for one chunk. *)
Record properties := mk_properties {
  content : str;
  page_number : nat;
  file_name : str;
  chunk_number : nat
}.

(** The [backup_data] dictionary written by [_create_backup]. *)
Record snapshot := mk_snapshot {
  filename : str;
  backup_time : str;
  total_chunks : nat;
  chunks : json
}.

(** The calls that leave the process. *)
Inductive call :=
| CGlob (directory : str)
| COpen (pdf_path : Path)
| CExtract (pdf_path : Path) (page_num : nat)
| CInsert (batch : list properties)
| CSleep
| CQuery (file_name : str)
| CWrite (backup_file : str) (backup_data : snapshot).

(** One call and the exception it raised, if any. *)
Record event := mk_event {
  ev_call : call;
  ev_exn : option exn
}.

Definition history := list event.

(** The environment.  Every answer may depend on all that happened before. *)
Record env := mk_env {
  (** [list(directory.glob("*.pdf"))] *)
  glob_pdf : history -> str -> res (list Path);
  (** [open(pdf_path, 'rb')], [PyPDF2.PdfReader(file)], [len(pdf_reader.pages)] *)
  open_pdf : history -> Path -> res nat;
  (** [pdf_reader.pages[page_num].extract_text()] *)
  extract_text : history -> Path -> nat -> res str;
  (** the [with self.client.batch] block of [_process_batch] *)
  add_batch : history -> list properties -> option exn;
  (** [time.sleep(0.1)] *)
  sleep : history -> option exn;
  (** the [Get Document where file_name == filename] query of [_create_backup] *)
  query_file : history -> str -> res json;
  (** [datetime.now().strftime('%Y%m%d_%H%M%S')] *)
  now : history -> str;
  (** [open(backup_file, 'w')] followed by [json.dump] *)
  write_backup : history -> str -> snapshot -> option exn
}.

(** Computations that call the environment: the history is threaded. *)
Definition M (A : Type) : Type := history -> res A * history.

Definition ret {A} (a : A) : M A := fun h => (Ok a, h).

Definition raise {A} (e : exn) : M A := fun h => (Raise e, h).

Definition bind {A B} (m : M A) (k : A -> M B) : M B :=
  fun h =>
    match m h with
    | (Ok a, h') => k a h'
    | (Raise e, h') => (Raise e, h')
    end.

(** [try: m  except Exception as e: handler]. *)
Definition catch {A} (m : M A) (handler : string -> M A) : M A :=
  fun h =>
    match m h with
    | (Raise (Exception kind), h') => handler kind h'
    | r => r
    end.

Definition lift {A} (r : res A) : M A := fun h => (r, h).

(** An external call: ask the oracle, record the call and its outcome. *)
Definition ext {A} (c : call) (answer : history -> res A) : M A :=
  fun h => let r := answer h in (r, h ++ [mk_event c (exn_of r)]).

(** A reading of the environment that cannot fail and leaves no trace. *)
Definition ask {A} (f : history -> A) : M A := fun h => (Ok (f h), h).

Declare Scope proc_scope.
Delimit Scope proc_scope with proc.
Notation "x <- m ;; k" := (bind m (fun x => k))
  (at level 61, m at next level, right associativity) : proc_scope.
Notation "m ;; k" := (bind m (fun _ => k))
  (at level 61, right associativity) : proc_scope.
Local Open Scope proc_scope.

Section WithEnv.
Variable E : env.
Variable batch_size : Z.

(** [_process_batch]: the handler logs and re-raises. *)
Definition _process_batch (batch : list properties) : M unit :=
  catch
    (ext (CInsert batch) (fun h => res_of_exn (add_batch E h batch)) ;;
     ext CSleep (fun h => res_of_exn (sleep E h)))
    (fun kind => raise (Exception kind)).

(** The condition of the [if] in [_create_backup]:
    [result and 'data' in result and 'Get' in result['data']
     and 'Document' in result['data']['Get']]. *)
Definition has_documents (result : json) : res bool :=
  if negb (truthy result) then Ok false else
  (has_data <- contains "data" result ;;
   if negb has_data then Ok false else
   (data <- getitem result "data" ;;
    has_get <- contains "Get" data ;;
    if negb has_get then Ok false else
    (data' <- getitem result "data" ;;
     get <- getitem data' "Get" ;;
     contains "Document" get)))%res.

(** [result['data']['Get']['Document']]. *)
Definition stored_documents (result : json) : res json :=
  (data <- getitem result "data" ;;
   get <- getitem data "Get" ;;
   getitem get "Document")%res.

Definition backup_dir : str := of_string "weaviate_backups".

(** [self.backup_dir / f"backup_{filename}_{timestamp}.json"]. *)
Definition backup_path (filename timestamp : str) : str :=
  backup_dir ++ of_string "/backup_" ++ filename ++ of_string "_"
    ++ timestamp ++ of_string ".json".

(** [_create_backup].  The value is Python's: [Some true] for [True],
    [Some false] for [False], [None] when the function falls off its end. *)
Definition _create_backup (filename : str) : M (option bool) :=
  catch
    (result <- ext (CQuery filename) (fun h => query_file E h filename) ;;
     ok <- lift (has_documents result) ;;
     if (ok : bool) then
       timestamp <- ask (now E) ;;
       let backup_file := backup_path filename timestamp in
       docs <- lift (stored_documents result) ;;
       n <- lift (py_len docs) ;;
       docs' <- lift (stored_documents result) ;;
       let backup_data := mk_snapshot filename timestamp n docs' in
       ext (CWrite backup_file backup_data)
           (fun h => res_of_exn (write_backup E h backup_file backup_data)) ;;
       ret (Some true)
     else ret None)
    (fun _ => ret (Some false)).

Definition default_chunk_size : Z := 5000.

(** [enumerate(chunks)]. *)
Definition enumerate {A} (l : list A) : list (nat * A) :=
  combine (seq 0 (List.length l)) l.

(** The loop [for chunk_num, chunk in enumerate(chunks)] of one page.  It
    returns the outcome together with the [batch] variable, which outlives
    an exception raised inside the loop. *)
Fixpoint chunk_loop (pdf_path : Path) (page_num : nat)
    (todo : list (nat * str)) (batch : list properties) (h : history)
    : res unit * list properties * history :=
  match todo with
  | [] => (Ok tt, batch, h)
  | (chunk_num, chunk) :: rest =>
      if is_empty (strip chunk) then chunk_loop pdf_path page_num rest batch h
      else
        let properties :=
          mk_properties chunk (page_num + 1) (name pdf_path) (chunk_num + 1) in
        let batch := batch ++ [properties] in
        if (batch_size <=? Z.of_nat (List.length batch))%Z then
          match _process_batch batch h with
          | (Ok _, h') => chunk_loop pdf_path page_num rest [] h'
          | (Raise e, h') => (Raise e, batch, h')
          end
        else chunk_loop pdf_path page_num rest batch h
  end.

(** The body of the [try] block of one page. *)
Definition page_body (pdf_path : Path) (page_num : nat)
    (batch : list properties) (h : history)
    : res unit * list properties * history :=
  match ext (CExtract pdf_path page_num)
            (fun h => extract_text E h pdf_path page_num) h with
  | (Raise e, h') => (Raise e, batch, h')
  | (Ok text, h') =>
      if is_empty text || is_empty (strip text) then (Ok tt, batch, h')
      else chunk_loop pdf_path page_num
             (enumerate (_chunk_text text default_chunk_size)) batch h'
  end.

(** [for page_num in range(len(pdf_reader.pages))], with the handler
    [except Exception: continue] around the body; [page_nums] is what is
    left of the range. *)
Fixpoint page_loop (pdf_path : Path) (page_nums : list nat)
    (batch : list properties) (h : history)
    : res unit * list properties * history :=
  match page_nums with
  | [] => (Ok tt, batch, h)
  | page_num :: rest =>
      match page_body pdf_path page_num batch h with
      | (Raise KeyboardInterrupt, batch', h') =>
          (Raise KeyboardInterrupt, batch', h')
      | (_, batch', h') => page_loop pdf_path rest batch' h'
      end
  end.

(** The pages of a file as a computation whose value is the final [batch]. *)
Definition pages (pdf_path : Path) (n : nat) : M (list properties) :=
  fun h =>
    match page_loop pdf_path (seq 0 n) [] h with
    | (Ok _, batch, h') => (Ok batch, h')
    | (Raise e, _, h') => (Raise e, h')
    end.

(** The body of the [try] block of [process_pdf]. *)
Definition process_pdf_body (pdf_path : Path) : M unit :=
  n <- ext (COpen pdf_path) (fun h => open_pdf E h pdf_path) ;;
  batch <- pages pdf_path n ;;
  (match batch with
   | [] => ret tt
   | _ => _process_batch batch
   end) ;;
  _create_backup (name pdf_path) ;;
  ret tt.

Definition process_pdf (pdf_path : Path) : M unit :=
  catch (process_pdf_body pdf_path) (fun _ => ret tt).

(** [for pdf_file in pbar] with its handlers: [KeyboardInterrupt] is
    re-raised, any other exception skips to the next file. *)
Fixpoint file_loop (pdf_files : list Path) : M unit :=
  match pdf_files with
  | [] => ret tt
  | pdf_file :: rest =>
      catch (process_pdf pdf_file) (fun _ => ret tt) ;;
      file_loop rest
  end.

(** [process_directory]: both handlers of the outer [try] re-raise. *)
Definition process_directory (directory : str) : M unit :=
  catch
    (pdf_files <- ext (CGlob directory) (fun h => glob_pdf E h directory) ;;
     match pdf_files with
     | [] => ret tt
     | _ => file_loop pdf_files
     end)
    (fun kind => raise (Exception kind)).

End WithEnv.

(** *** Reading a history *)

(** The batches sent to the backend, in order, with the outcome of each. *)
Fixpoint inserts (h : history) : list (list properties * option exn) :=
  match h with
  | [] => []
  | mk_event (CInsert b) o :: h' => (b, o) :: inserts h'
  | _ :: h' => inserts h'
  end.

(** The batches the backend accepted. *)
Fixpoint committed (h : history) : list (list properties) :=
  match h with
  | [] => []
  | mk_event (CInsert b) None :: h' => b :: committed h'
  | _ :: h' => committed h'
  end.

(** The records handed to the backend, in order. *)
Definition sent (h : history) : list properties :=
  List.concat (map fst (inserts h)).

(** The snapshots handed to the file system. *)
Fixpoint snapshots (h : history) : list (str * snapshot) :=
  match h with
  | [] => []
  | mk_event (CWrite f d) _ :: h' => (f, d) :: snapshots h'
  | _ :: h' => snapshots h'
  end.

(** The files that were opened, in order. *)
Fixpoint opened (h : history) : list Path :=
  match h with
  | [] => []
  | mk_event (COpen p) _ :: h' => p :: opened h'
  | _ :: h' => opened h'
  end.

(** The pages whose text was requested, in order. *)
Fixpoint extracted (h : history) : list (Path * nat) :=
  match h with
  | [] => []
  | mk_event (CExtract p i) _ :: h' => (p, i) :: extracted h'
  | _ :: h' => extracted h'
  end.

(** Did some call of the history raise [KeyboardInterrupt]? *)
Definition interrupted (h : history) : bool :=
  existsb (fun ev => is_interrupt (ev_exn ev)) h.

End Processor.

(** ** Vocabulary of the statements *)

Module Spec.
Import PyStr Py Json Chunker.
Local Open Scope string_scope.

(** A word: non-empty and free of whitespace. *)
Definition nospace (w : str) : bool := forallb (fun c => negb (isspace c)) w.

Definition wordb (w : str) : bool := negb (is_empty w) && nospace w.

(** A text without any word: empty, or whitespace only. *)
Definition blank (text : str) : bool := forallb isspace text.

(** How a state of the chunker's loop relates to the groups of words it has
    closed so far: [gs] are the closed groups, in order. *)
Record chunker_inv (chunk_size : Z) (st : state) (gs : list (list str)) : Prop :=
  mk_chunker_inv {
    inv_chunks : chunks st = map join gs;
    inv_nonempty : Forall (fun g => g <> []) gs;
    inv_bounded :
      Forall (fun g => 2 <= List.length g -> (len (join g) <= chunk_size)%Z) gs;
    inv_size_nonneg : (0 <= current_size st)%Z;
    inv_size_covers :
      current_chunk st <> [] -> (len (join (current_chunk st)) <= current_size st)%Z;
    inv_size_bounded :
      2 <= List.length (current_chunk st) -> (current_size st <= chunk_size)%Z
  }.

(** [all_in_block P n lo]: [P] holds of the [2^n] integers from [lo] on. *)
Fixpoint all_in_block (P : Z -> bool) (n : nat) (lo : Z) : bool :=
  match n with
  | O => P lo
  | S n' => all_in_block P n' lo && all_in_block P n' (lo + 2 ^ Z.of_nat n')%Z
  end.

(** [subseq l1 l2]: [l1] is [l2] with some elements left out, order kept. *)
Inductive subseq {A : Type} : list A -> list A -> Prop :=
| subseq_nil : subseq [] []
| subseq_skip x l1 l2 : subseq l1 l2 -> subseq l1 (x :: l2)
| subseq_keep x l1 l2 : subseq l1 l2 -> subseq (x :: l1) (x :: l2).

(** A well-formed entry of a near-text response: the four stored fields and
    the certainty, a float. *)
Record hit := mk_hit {
  hit_content : json;
  hit_page_number : json;
  hit_file_name : json;
  hit_chunk_number : json;
  hit_certainty : spec_float
}.

(** The JSON object [r] carries the hit [x]. *)
Definition carries (r : json) (x : hit) : Prop :=
  getitem r "content" = Ok (hit_content x) /\
  getitem r "page_number" = Ok (hit_page_number x) /\
  getitem r "file_name" = Ok (hit_file_name x) /\
  getitem r "chunk_number" = Ok (hit_chunk_number x) /\
  Search.certainty_of r = Ok (JFloat (hit_certainty x)).

(** The certainty is a binary64 value of the interval [[0, 1]]. *)
Definition certainty_in_unit (x : hit) : Prop :=
  Float64.valid (hit_certainty x) = true /\
  Float64.leb Float64.f0 (hit_certainty x) = true /\
  Float64.leb (hit_certainty x) Float64.f1 = true.

(** The filter of [search]: [certainty >= min_score]. *)
Definition passes (min_score : spec_float) (x : hit) : bool :=
  Float64.leb min_score (hit_certainty x).

(** The result [search] reports for a hit:
    [relevance_score = round(certainty * 100, 2)]. *)
Definition report (x : hit) : Search.result :=
  Search.mk_result (hit_content x) (hit_page_number x) (hit_file_name x)
    (hit_chunk_number x)
    (JFloat (Float64.round2 (Float64.mul (hit_certainty x) Float64.f100))).

(** [relevance_score >= 70.0]. *)
Definition relevance_at_least_70 (r : Search.result) : Prop :=
  exists f, Search.relevance_score r = JFloat f /\
            Float64.leb Float64.f70 f = true.

End Spec.

(** ** Vocabulary of the statements about the processor *)

Module ProcSpec.
Import PyStr Py Json Chunker Processor.

(** A result that is not an interrupt. *)
Definition calm {A} (r : res A) : Prop := r <> Raise KeyboardInterrupt.

(** What [process_pdf] does once the file is open and has [n] pages. *)
Definition after_open (E : env) (batch_size : Z) (pdf_path : Path) (n : nat)
    : M unit :=
  bind (pages E batch_size pdf_path n) (fun batch =>
  bind (match batch with
        | [] => ret tt
        | _ => _process_batch E batch
        end) (fun _ =>
  bind (_create_backup E (name pdf_path)) (fun _ => ret tt))).

(** The interrupt is the last thing that happened in [d]. *)
Definition ends_in_interrupt (d : history) : Prop :=
  exists d0 ev,
    d = d0 ++ [ev] /\ ev_exn ev = Some KeyboardInterrupt /\
    interrupted d0 = false.

(** The outcome [r] tells the truth about the calls [d] that were made: it is
    [KeyboardInterrupt] exactly when one of them raised it, and then that
    call is the last one. *)
Definition faithful {A} (r : res A) (d : history) : Prop :=
  (r = Raise KeyboardInterrupt /\ ends_in_interrupt d) \/
  (r <> Raise KeyboardInterrupt /\ interrupted d = false).

(** [m] only adds to the history, and what it adds satisfies [Q]. *)
Definition runs {A} (Q : res A -> history -> Prop) (m : M A) : Prop :=
  forall h, exists r d, m h = (r, h ++ d) /\ Q r d.

(** The same for the loops that also return the [batch] variable. *)
Definition runs_batch (Q : res unit -> history -> Prop)
    (f : list properties -> history -> res unit * list properties * history)
    : Prop :=
  forall batch h, exists r batch' d, f batch h = (r, batch', h ++ d) /\ Q r d.

(** Faithful, and every call made is of a kind [P] allows. *)
Definition good {A} (P : call -> Prop) (r : res A) (d : history) : Prop :=
  faithful r d /\ Forall (fun ev => P (ev_call ev)) d.

Definition not_open (c : call) : Prop :=
  match c with COpen _ => False | _ => True end.

Definition any_call (c : call) : Prop := True.

Definition backup_call (c : call) : Prop :=
  match c with CQuery _ | CWrite _ _ => True | _ => False end.

Definition batch_call (c : call) : Prop :=
  match c with CInsert _ | CSleep => True | _ => False end.

(** A batch of exactly [batch_size] records. *)
Definition is_full (batch_size : Z) (b : list properties) : Prop :=
  Z.of_nat (List.length b) = batch_size.

(** The records the chunks [todo] of a page contribute. *)
Definition chunk_records (pdf_path : Path) (page_num : nat)
    (todo : list (nat * str)) : list properties :=
  map (fun jc => mk_properties (snd jc) (page_num + 1) (name pdf_path)
                   (fst jc + 1))
      (filter (fun jc => negb (is_empty (strip (snd jc)))) todo).

(** The records one page contributes, in the order they are appended. *)
Definition page_records (pdf_path : Path) (page_num : nat) (t : res str)
    : list properties :=
  match t with
  | Ok text =>
      if is_empty text || is_empty (strip text) then []
      else chunk_records pdf_path page_num
             (enumerate (_chunk_text text default_chunk_size))
  | Raise _ => []
  end.

(** The records of a file of [n] pages whose texts are [texts]. *)
Definition file_records (pdf_path : Path) (texts : nat -> res str) (n : nat)
    : list properties :=
  flat_map (fun i => page_records pdf_path i (texts i)) (seq 0 n).

(** The record [x] is chunk [chunk_number x] of page [page_number x], counted
    from 1 as the page sits in the file, and that page has text. *)
Definition from_page (pdf_path : Path) (texts : nat -> res str) (n : nat)
    (x : properties) : Prop :=
  exists i text j,
    i < n /\ texts i = Ok text /\ Spec.blank text = false /\
    page_number x = i + 1 /\
    nth_error (_chunk_text text default_chunk_size) j = Some (content x) /\
    chunk_number x = j + 1 /\
    file_name x = name pdf_path.

(** The page numbers leave no gap: with a page number come all the smaller
    ones, down to 1. *)
Definition contiguous_from_1 (l : list nat) : Prop :=
  forall p, In p l -> forall q, 1 <= q <= p -> In q l.

(** The event of a batch insert that failed with an error. *)
Definition failed_insert (batch : list properties) (kind : string) : event :=
  mk_event (CInsert batch) (Some (Exception kind)).

(** After the failed insert [ev] nothing more of the file is read or written. *)
Definition abandoned_after (d : history) : Prop :=
  forall d1 batch kind d2,
    d = d1 ++ failed_insert batch kind :: d2 ->
    extracted d2 = [] /\ inserts d2 = [].

End ProcSpec.

(** ** Sample inputs *)

Module Samples.
Import PyStr Py Json Float64 Spec.
Local Open Scope string_scope.

Definition key (s : string) : str := of_string s.

(** One entry of a near-text response. *)
Definition entry (x : hit) : json :=
  JObj [(key "content", hit_content x);
        (key "page_number", hit_page_number x);
        (key "file_name", hit_file_name x);
        (key "chunk_number", hit_chunk_number x);
        (key "_additional", JObj [(key "certainty", JFloat (hit_certainty x))])].

Definition get_response (docs : json) : json :=
  JObj [(key "data", JObj [(key "Get", JObj [(key "Document", docs)])])].

(** The doubles nearest to 0.9 and to 0.5. *)
Definition f0_9 : spec_float := S754_finite false 8106479329266893 (-53).
Definition f0_5 : spec_float := S754_finite false 4503599627370496 (-53).

Definition sample_hits : list hit :=
  [mk_hit (JStr (key "alpha")) (JInt 1) (JStr (key "a.pdf")) (JInt 1) f0_9;
   mk_hit (JStr (key "beta")) (JInt 1) (JStr (key "a.pdf")) (JInt 2) f0_5;
   mk_hit (JStr (key "gamma")) (JInt 2) (JStr (key "b.pdf")) (JInt 1) f0_7].

Definition sample_backend : Search.backend :=
  Search.mk_backend
    (fun _ _ => Ok (get_response (JArr (map entry sample_hits))))
    (Raise (Exception "ConnectionError")).

(** A backend that cannot be reached, and one whose answers are not of the
    expected shape. *)
Definition backend_down : Search.backend :=
  Search.mk_backend
    (fun _ _ => Raise (Exception "ConnectionError"))
    (Raise (Exception "ConnectionError")).

Definition backend_odd : Search.backend :=
  Search.mk_backend
    (fun _ _ => Ok (get_response (JArr [JObj [(key "content", JNull)]])))
    (Ok (JObj [(key "data", JObj [(key "Aggregate", JObj [(key "Document", JArr [])])])])).

(** A GraphQL answer that reports an error instead of data. *)
Definition errors_response : json :=
  JObj [(key "errors", JArr [JObj [(key "message", JStr (key "no such class"))]])].

Definition a_pdf : Processor.Path := Processor.mk_path (key "pdfs") (key "a.pdf").

(** An environment with one file, [a.pdf], whose pages have the given
    outcomes; the insert calls whose rank (from 0) is in [failing] raise an
    error; the backup query is answered by [answer]. *)
Definition sample_env (pages : list (res str)) (failing : list nat)
    (answer : res json) : Processor.env :=
  Processor.mk_env
    (fun _ directory => Ok [Processor.mk_path directory (key "a.pdf")])
    (fun _ _ => Ok (List.length pages))
    (fun _ _ page_num => nth page_num pages (Raise (Exception "IndexError")))
    (fun h _ =>
       if existsb (Nat.eqb (List.length (Processor.inserts h))) failing
       then Some (Exception "UnexpectedStatusCodeException") else None)
    (fun _ => None)
    (fun _ _ => answer)
    (fun _ => key "20240101_120000")
    (fun _ _ _ => None).

(** What the backend answers when asked for the stored chunks of a file. *)
Definition two_stored : json :=
  get_response (JArr (map entry (firstn 2 sample_hits))).

(** Five pages of one chunk each. *)
Definition five_pages : list (res str) :=
  [Ok (key "one"); Ok (key "two"); Ok (key "three"); Ok (key "four");
   Ok (key "five")].

(** Three pages, the second one blank. *)
Definition blank_in_the_middle : list (res str) :=
  [Ok (key "alpha"); Ok (key "  "); Ok (key "beta")].

Definition texts_of (pages : list (res str)) (i : nat) : res str :=
  nth i pages (Raise (Exception "IndexError")).

Definition b_pdf : Processor.Path := Processor.mk_path (key "pdfs") (key "b.pdf").

(** A directory of two files of two pages each, where the user interrupts
    while the second page of a file is being read. *)
Definition interrupted_env : Processor.env :=
  Processor.mk_env
    (fun _ _ => Ok [a_pdf; b_pdf])
    (fun _ _ => Ok 2)
    (fun _ _ page_num =>
       match page_num with
       | 0 => Ok (key "alpha")
       | _ => Raise KeyboardInterrupt
       end)
    (fun _ _ => None)
    (fun _ => None)
    (fun _ _ => Ok two_stored)
    (fun _ => key "20240101_120000")
    (fun _ _ _ => None).

End Samples.

(** ** Vocabulary of the further statements *)

Module MoreSpec.
Import PyStr Py Json Chunker.

(** [chained R l]: every two neighbours of [l] are related by [R]. *)
Inductive chained {A : Type} (R : A -> A -> Prop) : list A -> Prop :=
| chained_nil : chained R []
| chained_one a : chained R [a]
| chained_snoc l a b : chained R (l ++ [a]) -> R a b -> chained R (l ++ [a; b]).

(** The group [b] was opened because its first word did not fit after [a]:
    [a] and that word, joined, reach [chunk_size]. *)
Definition boundary (chunk_size : Z) (a b : list str) : Prop :=
  exists w rest, b = w :: rest /\ (chunk_size <= len (join (a ++ [w])))%Z.

(** A state of the chunker's loop after the words [done]: [gs] are the
    closed groups. *)
Record greedy_inv (chunk_size : Z) (done : list str) (st : state)
    (gs : list (list str)) : Prop := mk_greedy_inv {
  gr_chunks : chunks st = map join gs;
  gr_words : List.concat gs ++ current_chunk st = done;
  gr_shape :
    (current_chunk st = [] /\ gs = [] /\ current_size st = 0%Z) \/
    (current_chunk st <> [] /\
     chained (boundary chunk_size) (gs ++ [current_chunk st]) /\
     (0 <= current_size st <= len (join (current_chunk st)) + 1)%Z)
}.

End MoreSpec.

(** ** Schema set-up: [PDFProcessor._setup_schema] *)

Module Schema.
Import PyStr Py Json.

Definition key (s : string) : str := of_string s.

Definition field (name type description : string) : json :=
  JObj [(key "name", JStr (key name));
        (key "dataType", JArr [JStr (key type)]);
        (key "description", JStr (key description))].

(** [config.SCHEMA_CONFIG]. *)
Definition SCHEMA_CONFIG : json :=
  JObj [(key "class", JStr (key "Document"));
        (key "vectorizer", JStr (key "text2vec-transformers"));
        (key "properties",
         JArr [field "content" "text" "The text content from the PDF";
               field "page_number" "int" "Page number in the PDF";
               field "file_name" "string" "Name of the PDF file";
               field "chunk_number" "int" "Chunk number for large pages"])].

(** The two calls of [_setup_schema]. *)
Inductive call :=
| CGet (class_name : str)
| CCreate (schema_class : json).

(** The schema service: the outcome of [schema.get("Document")], and of
    [schema.create_class] once [get] has failed. *)
Record client := mk_client {
  schema_get : res json;
  create_class : json -> res unit
}.

(** [_setup_schema], with the calls it makes.  The inner handler is a bare
    [except:], which catches every exception; the outer one catches
    [Exception], logs and re-raises. *)
Definition _setup_schema (c : client) : res unit * list call :=
  match schema_get c with
  | Ok _ => (Ok tt, [CGet (key "Document")])
  | Raise _ =>
      let r := create_class c SCHEMA_CONFIG in
      (rcatch r (fun kind => Raise (Exception kind)),
       [CGet (key "Document"); CCreate SCHEMA_CONFIG])
  end.

End Schema.

(** ** The read-only queries of [PDFProcessor] *)

Module Admin.
Import PyStr Py Json.
Local Open Scope res_scope.

(** The backend as these methods see it. *)
Record backend := mk_backend {
  (** [query.aggregate("Document").with_meta_count().do()] *)
  aggregate_count : res json;
  (** [query.get("Document").with_additional(["id"])
        .with_group_by(["file_name"]).with_limit(limit).do()] *)
  group_by_file_name : Z -> res json;
  (** [query.get("Document").with_additional(["id"])
        .with_where(file_name == filename).with_limit(limit).do()] *)
  where_file_name : str -> Z -> res json
}.

(** The dictionary [get_database_stats] returns. *)
Record stats := mk_stats {
  total_documents : json;
  unique_files : nat
}.

(** [result['data']['Aggregate']['Document'][0]['meta']['count']]. *)
Definition meta_count (result : json) : res json :=
  data <- getitem result "data" ;;
  agg <- getitem data "Aggregate" ;;
  docs <- getitem agg "Document" ;;
  first <- getindex docs 0 ;;
  meta <- getitem first "meta" ;;
  getitem meta "count".

Definition get_database_stats_body (b : backend) : res stats :=
  result <- aggregate_count b ;;
  total_docs <- meta_count result ;;
  result' <- group_by_file_name b 10000 ;;
  docs <- Processor.stored_documents result' ;;
  unique_files <- py_len docs ;;
  Ok (mk_stats total_docs unique_files).

(** [get_database_stats]: [None] stands for Python's [None]. *)
Definition get_database_stats (b : backend) : res (option stats) :=
  rcatch (s <- get_database_stats_body b ;; Ok (Some s)) (fun _ => Ok None).

Definition check_file_status_body (b : backend) (filename : str) : res bool :=
  result <- where_file_name b filename 1 ;;
  docs <- Processor.stored_documents result ;;
  n <- py_len docs ;;
  Ok (0 <? n).

Definition check_file_status (b : backend) (filename : str) : res bool :=
  rcatch (check_file_status_body b filename) (fun _ => Ok false).

(** [[doc['file_name'] for doc in docs]]. *)
Fixpoint file_names (docs : list json) : res (list json) :=
  match docs with
  | [] => Ok []
  | doc :: rest =>
      file_name <- getitem doc "file_name" ;;
      names <- file_names rest ;;
      Ok (file_name :: names)
  end.

Definition list_processed_files_body (b : backend) (limit : Z)
    : res (list json) :=
  result <- group_by_file_name b limit ;;
  docs <- Processor.stored_documents result ;;
  items <- iter docs ;;
  file_names items.

Definition list_processed_files (b : backend) (limit : Z) : res (list json) :=
  rcatch (list_processed_files_body b limit) (fun _ => Ok []).

Definition default_list_limit : Z := 100.

End Admin.

(** ** The command loop: [main] *)

Module Main.
Import PyStr Py Json.

(** [c.lower()] for one character of the range 0..255: the capital letters
    A-Z and the capital letters of Latin-1 (all of C0..DE but the
    multiplication sign D7) move 32 places up. *)
Definition lower_char (c : ascii) : ascii :=
  let n := N_of_ascii c in
  if ((65 <=? n) && (n <=? 90)
      || (192 <=? n) && (n <=? 222) && negb (n =? 215))%N
  then ascii_of_N (n + 32)
  else c.

(** [query.lower()]. *)
Definition lower (s : str) : str := map lower_char s.

(** [query.lower() == 'quit']. *)
Definition is_quit (query : str) : bool := str_eqb (lower query) (of_string "quit").

(** [v[:200]]. *)
Definition slice200 (v : json) : res json :=
  match v with
  | JStr s => Ok (JStr (firstn 200 s))
  | JArr l => Ok (JArr (firstn 200 l))
  | _ => Raise (Exception "TypeError")
  end.

(** What the loop does that can be seen from outside: the searches it asks
    for and the lines it prints.  A printed line is kept as the values that
    are formatted into it; the prompt and the rules of dashes are left
    out. *)
Inductive action :=
| Searched (query : str)
| PrintTotal (doc_count : json)
| PrintNoMatch
| PrintHeader
| PrintResult (idx : nat) (relevance_score : json)
| PrintFile (file_name : json)
| PrintPageChunk (page_number chunk_number : json)
| PrintContent (preview : json).

(** [enumerate(results, 1)]. *)
Definition enumerate_from {A} (start : nat) (l : list A) : list (nat * A) :=
  combine (seq start (List.length l)) l.

(** The loop [for idx, result in enumerate(results, 1)]. *)
Fixpoint show_results (results : list (nat * Search.result))
    (out : list action) : res unit * list action :=
  match results with
  | [] => (Ok tt, out)
  | (idx, result) :: rest =>
      let out :=
        out ++ [PrintResult idx (Search.relevance_score result);
                PrintFile (Search.file_name result);
                PrintPageChunk (Search.page_number result)
                               (Search.chunk_number result)] in
      match slice200 (Search.content result) with
      | Ok preview => show_results rest (out ++ [PrintContent preview])
      | Raise e => (Raise e, out)
      end
  end.

(** The [while True] loop, reading the lines [stdin]; [input] raises
    [EOFError] when they are used up. *)
Fixpoint repl (b : Search.backend) (stdin : list str) (out : list action)
    : res unit * list action :=
  match stdin with
  | [] => (Raise (Exception "EOFError"), out)
  | query :: rest =>
      if is_quit query then (Ok tt, out)
      else
        match Search.search b query Search.default_limit
                            Search.default_min_score with
        | Raise e => (Raise e, out ++ [Searched query])
        | Ok [] => repl b rest (out ++ [Searched query; PrintNoMatch])
        | Ok results =>
            match show_results (enumerate_from 1 results)
                               (out ++ [Searched query; PrintHeader]) with
            | (Ok _, out') => repl b rest out'
            | (Raise e, out') => (Raise e, out')
            end
        end
  end.

(** [main], once the [SearchEngine] is built. *)
Definition main (b : Search.backend) (stdin : list str)
    : res unit * list action :=
  match Search.get_document_count b with
  | Raise e => (Raise e, [])
  | Ok doc_count => repl b stdin [PrintTotal doc_count]
  end.

(** The queries searched, in order. *)
Fixpoint searched (out : list action) : list str :=
  match out with
  | [] => []
  | Searched q :: out' => q :: searched out'
  | _ :: out' => searched out'
  end.

End Main.

(** ** Vocabulary of the further statements about the search service *)

Module SearchSpec.
Import PyStr Py Json Float64 Search.
Local Open Scope string_scope.

(** The entry [r] of the backend's answer passes the filter and is reported
    as [x]: the four fields are those of [r], the relevance is computed from
    its certainty. *)
Definition reported (min_score : spec_float) (r : json) (x : result) : Prop :=
  exists certainty scaled,
    certainty_of r = Ok certainty /\
    py_ge certainty min_score = Ok true /\
    getitem r "content" = Ok (content x) /\
    getitem r "page_number" = Ok (page_number x) /\
    getitem r "file_name" = Ok (file_name x) /\
    getitem r "chunk_number" = Ok (chunk_number x) /\
    py_mul100 certainty = Ok scaled /\
    py_round2 scaled = Ok (relevance_score x).

(** What one turn of the loop of [search] does with the entry [r]: it
    reports it, drops it, or raises. *)
Definition entry_outcome (min_score : spec_float) (r : json)
    : res (option result) :=
  (certainty <- certainty_of r ;;
   keep <- py_ge certainty min_score ;;
   if (keep : bool)
   then (x <- format r certainty ;; Ok (Some x))
   else Ok None)%res.

End SearchSpec.

(** ** Further sample inputs *)

Module MoreSamples.
Import PyStr Py Json Float64 Spec Samples.

(** An entry without ["_additional"], hence without certainty. *)
Definition no_certainty : json :=
  JObj [(key "content", JStr (key "delta"));
        (key "page_number", JInt 3);
        (key "file_name", JStr (key "b.pdf"));
        (key "chunk_number", JInt 1)].

(** Three sound entries followed by one that has no certainty. *)
Definition one_bad : list json := map entry sample_hits ++ [no_certainty].

Definition backend_one_bad : Search.backend :=
  Search.mk_backend
    (fun _ _ => Ok (get_response (JArr one_bad)))
    (Ok (JObj [])).

(** A backend holding chunks of two files. *)
Definition two_files : json :=
  get_response (JArr [JObj [(key "file_name", JStr (key "a.pdf"))];
                      JObj [(key "file_name", JStr (key "b.pdf"))]]).

Definition count_response (n : Z) : json :=
  JObj [(key "data",
         JObj [(key "Aggregate",
                JObj [(key "Document",
                       JArr [JObj [(key "meta", JObj [(key "count", JInt n)])]])])])].

Definition admin_backend : Admin.backend :=
  Admin.mk_backend (Ok (count_response 7)) (fun _ => Ok two_files)
                   (fun _ _ => Ok two_files).


(** A schema service where the class is missing and can be created, asked
    while the user interrupts. *)
Definition interrupted_client : Schema.client :=
  Schema.mk_client (Raise KeyboardInterrupt) (fun _ => Ok tt).

(** An environment in which the directory cannot be listed. *)
Definition unlisted_env : Processor.env :=
  Processor.mk_env
    (fun _ _ => Raise (Exception "OSError"))
    (fun _ _ => Ok 0)
    (fun _ _ _ => Raise (Exception "IndexError"))
    (fun _ _ => None)
    (fun _ => None)
    (fun _ _ => Ok two_stored)
    (fun _ => key "20240101_120000")
    (fun _ _ _ => None).

(** A backend whose best entry has no text: its [content] is null. *)
Definition hit_without_text : hit :=
  mk_hit JNull (JInt 4) (JStr (key "scan.pdf")) (JInt 1) f0_9.

Definition backend_without_text : Search.backend :=
  Search.mk_backend
    (fun _ _ => Ok (get_response (JArr (map entry (hit_without_text :: sample_hits)))))
    (Ok (count_response 4)).

End MoreSamples.

(** ** Vocabulary of the statements about the command loop *)

Module MainSpec.
Import PyStr Py Json Main.

(** A printed preview holds at most 200 characters (or items). *)
Definition short_preview (a : action) : Prop :=
  match a with
  | PrintContent (JStr s) => List.length s <= 200
  | PrintContent (JArr l) => List.length l <= 200
  | PrintContent _ => False
  | _ => True
  end.

(** The 16 spellings of [quit] in capital and small letters. *)
Definition quit_spellings : list str :=
  map of_string
    ["quit"; "quiT"; "quIt"; "quIT"; "qUit"; "qUiT"; "qUIt"; "qUIT";
     "Quit"; "QuiT"; "QuIt"; "QuIT"; "QUit"; "QUiT"; "QUIt"; "QUIT"]%string.

End MainSpec.

(** ** Vocabulary of the statements about the calls of the processor *)

Module TraceSpec.
Import PyStr Py Json Chunker Processor ProcSpec.

(** The calls [d] keep the pace: every batch the backend accepted is
    followed at once by the pause, and there is no other pause. *)
Fixpoint paced (d : history) : bool :=
  match d with
  | [] => true
  | mk_event (CInsert _) None :: rest =>
      match rest with
      | mk_event CSleep _ :: rest' => paced rest'
      | _ => false
      end
  | mk_event CSleep _ :: _ => false
  | _ :: rest => paced rest
  end.

(** A call other than the insert of a batch and the pause. *)
Definition other_call (c : call) : Prop :=
  match c with CInsert _ | CSleep => False | _ => True end.

(** A record of the file [pdf_path] that is fit to be stored: it names the
    file, its page and chunk numbers count from 1, and its content is a
    chunk: not empty, no whitespace at either end, words separated by single
    spaces, and within the size limit unless it is one single word. *)
Definition clean_record (pdf_path : Path) (x : properties) : Prop :=
  file_name x = name pdf_path /\
  1 <= page_number x /\
  1 <= chunk_number x /\
  content x <> [] /\
  strip (content x) = content x /\
  join (split (content x)) = content x /\
  ((len (content x) <= default_chunk_size)%Z \/ Spec.wordb (content x) = true).

(** One record for every chunk of a page, numbered from 1 as the chunks
    come; none for a page whose text could not be read. *)
Definition records_of_page (pdf_path : Path) (page_num : nat) (t : res str)
    : list properties :=
  match t with
  | Ok text =>
      map (fun jc => mk_properties (snd jc) (page_num + 1) (name pdf_path)
                       (fst jc + 1))
          (enumerate (_chunk_text text default_chunk_size))
  | Raise _ => []
  end.

(** The records of all the pages of a file, in the order of the file. *)
Definition all_records (pdf_path : Path) (texts : nat -> res str) (n : nat)
    : list properties :=
  flat_map (fun i => records_of_page pdf_path i (texts i)) (seq 0 n).

End TraceSpec.

(** * Properties *)

(** ** The chunker *)

Module ChunkerProofs.
Import PyStr Chunker Spec.

Lemma isspace_space : isspace space = true.
Proof. reflexivity. Qed.

(** *** The functions on sample texts *)

Example split_sample :
  split (of_string "  to be  or not	to be ")
  = map of_string ["to"; "be"; "or"; "not"; "to"; "be"]%string.
Proof. reflexivity. Qed.

Example chunk_text_sample_9 :
  _chunk_text (of_string "  to be  or not	to be ") 9
  = map of_string ["to be or"; "not to be"]%string.
Proof. reflexivity. Qed.

(** The first chunk counts a separator for its first word too: with
    [chunk_size = 8] the 8 characters of ["to be or"] do not fit in it. *)
Example chunk_text_sample_8 :
  _chunk_text (of_string "to be or not to be") 8
  = map of_string ["to be"; "or not"; "to be"]%string.
Proof. reflexivity. Qed.

(** A word longer than [chunk_size] is a chunk of its own, not truncated. *)
Example chunk_text_long_word :
  _chunk_text (of_string "a incomprehensibilities b c") 5
  = map of_string ["a"; "incomprehensibilities"; "b c"]%string.
Proof. reflexivity. Qed.

Example strip_sample : strip (of_string "	 a b  ") = of_string "a b".
Proof. reflexivity. Qed.

Lemma len_app (a b : str) : len (a ++ b) = (len a + len b)%Z.
Proof. unfold len. rewrite length_app. lia. Qed.

Lemma len_cons (c : ascii) (a : str) : len (c :: a) = (1 + len a)%Z.
Proof. unfold len. simpl List.length. lia. Qed.

Lemma len_nonneg (a : str) : (0 <= len a)%Z.
Proof. unfold len. lia. Qed.

(** *** [split] *)

Lemma split_go_nospace (w cur s : str) :
  nospace w = true -> split_go cur (w ++ s) = split_go (rev w ++ cur) s.
Proof.
  revert cur. induction w as [|c w IH]; intros cur Hw; simpl in *.
  - reflexivity.
  - apply andb_prop in Hw. destruct Hw as [Hc Hw].
    apply negb_true_iff in Hc. rewrite Hc.
    rewrite IH by assumption. now rewrite <- app_assoc.
Qed.

Lemma split_go_space (c : ascii) (cur s : str) :
  split_go (c :: cur) (space :: s) = rev (c :: cur) :: split_go [] s.
Proof. reflexivity. Qed.

Lemma split_go_blank (s : str) : blank s = true -> split_go [] s = [].
Proof.
  induction s as [|c s IH]; simpl; intros H.
  - reflexivity.
  - apply andb_prop in H. destruct H as [Hc Hs]. rewrite Hc. auto.
Qed.

Lemma split_go_words (s cur : str) :
  nospace cur = true -> Forall (fun w => wordb w = true) (split_go cur s).
Proof.
  assert (Hrev : forall c x, nospace (c :: x) = true -> wordb (rev (c :: x)) = true).
  { intros c x H. unfold wordb. apply andb_true_intro. split.
    - destruct (rev (c :: x)) eqn:E; [|reflexivity].
      apply (f_equal (@List.length _)) in E. rewrite length_rev in E. discriminate.
    - unfold nospace in *. rewrite forallb_forall in *. intros y Hy.
      apply H. now apply in_rev. }
  revert cur. induction s as [|c s IH]; intros cur Hcur; simpl.
  - destruct cur; constructor; auto.
  - destruct (isspace c) eqn:Hc.
    + destruct cur as [|d cur].
      * apply IH. reflexivity.
      * constructor; [now apply Hrev | apply IH; reflexivity].
    + apply IH. simpl. now rewrite Hc.
Qed.

Lemma split_words (s : str) : Forall (fun w => wordb w = true) (split s).
Proof. apply split_go_words. reflexivity. Qed.

Lemma rev_nonempty (w : str) : w <> [] -> exists c x, rev w = c :: x.
Proof.
  intros H. destruct (rev w) as [|c x] eqn:E.
  - apply (f_equal (@rev _)) in E. rewrite rev_involutive in E. now subst.
  - eauto.
Qed.

Lemma wordb_inv (w : str) : wordb w = true -> w <> [] /\ nospace w = true.
Proof.
  unfold wordb. intros H. apply andb_prop in H. destruct H as [H1 H2].
  split; [|assumption]. now destruct w.
Qed.

Lemma split_join (ws : list str) :
  Forall (fun w => wordb w = true) ws -> split (join ws) = ws.
Proof.
  unfold split. induction ws as [|w ws IH]; intros H.
  - reflexivity.
  - inversion H as [|? ? Hw Hws]; subst.
    apply wordb_inv in Hw. destruct Hw as [Hne Hns].
    destruct (rev_nonempty Hne) as (c & x & Erev).
    destruct ws as [|w2 ws].
    + simpl. rewrite <- (app_nil_r w) at 1.
      rewrite split_go_nospace by assumption. simpl.
      rewrite app_nil_r, Erev, <- Erev, rev_involutive. reflexivity.
    + change (join (w :: w2 :: ws)) with (w ++ space :: join (w2 :: ws)).
      rewrite split_go_nospace by assumption.
      rewrite app_nil_r, Erev, split_go_space, <- Erev, rev_involutive.
      now rewrite IH.
Qed.

(** *** [join] *)

Lemma join_cons (w : str) (ws : list str) :
  ws <> [] -> join (w :: ws) = w ++ space :: join ws.
Proof. destruct ws; [congruence | reflexivity]. Qed.

Lemma join_app (a b : list str) :
  a <> [] -> b <> [] -> join (a ++ b) = join a ++ space :: join b.
Proof.
  induction a as [|w a IH]; intros Ha Hb; [congruence|].
  destruct a as [|w2 a].
  - simpl app. now rewrite join_cons.
  - change ((w :: w2 :: a) ++ b) with (w :: ((w2 :: a) ++ b)).
    rewrite join_cons by discriminate.
    rewrite IH by (discriminate || assumption).
    rewrite (@join_cons w (w2 :: a)) by discriminate.
    now rewrite <- app_assoc.
Qed.

Lemma concat_nonempty (g : list str) (gs : list (list str)) :
  g <> [] -> List.concat (g :: gs) <> [].
Proof. destruct g; simpl; congruence. Qed.

Lemma join_groups (gs : list (list str)) :
  Forall (fun g => g <> []) gs -> join (map join gs) = join (List.concat gs).
Proof.
  induction gs as [|g gs IH]; intros H; [reflexivity|].
  inversion H as [|? ? Hg Hgs]; subst.
  destruct gs as [|g2 gs].
  - simpl. now rewrite app_nil_r.
  - change (map join (g :: g2 :: gs)) with (join g :: map join (g2 :: gs)).
    rewrite join_cons by discriminate.
    rewrite IH by assumption.
    change (List.concat (g :: g2 :: gs)) with (g ++ List.concat (g2 :: gs)).
    rewrite join_app; [reflexivity | assumption |].
    inversion Hgs; subst. now apply concat_nonempty.
Qed.

Lemma len_join_snoc (cur : list str) (w : str) :
  cur <> [] -> len (join (cur ++ [w])) = (len (join cur) + 1 + len w)%Z.
Proof.
  intros H. rewrite join_app by (assumption || discriminate).
  simpl join. rewrite len_app, len_cons. lia.
Qed.

(** *** The loop *)

Lemma inv_init (n : Z) : chunker_inv n init [].
Proof.
  constructor; simpl; auto; try lia; congruence.
Qed.

Lemma flush_groups (n : Z) (st : state) (gs : list (list str)) :
  chunker_inv n st gs ->
  exists gs',
    flush (chunks st) (current_chunk st) = map join gs' /\
    Forall (fun g => g <> []) gs' /\
    Forall (fun g => 2 <= List.length g -> (len (join g) <= n)%Z) gs' /\
    List.concat gs' = List.concat gs ++ current_chunk st.
Proof.
  intros [Hc Hne Hb Hs Hcov Hbd].
  destruct (current_chunk st) as [|w cur] eqn:E.
  - exists gs. simpl. rewrite app_nil_r. auto.
  - exists (gs ++ [w :: cur]). unfold flush.
    rewrite map_app, Hc. simpl map.
    repeat split.
    + apply Forall_app. split; [assumption|]. constructor; [discriminate|constructor].
    + apply Forall_app. split; [assumption|]. constructor; [|constructor].
      intros H2. specialize (Hcov ltac:(discriminate)). specialize (Hbd H2). lia.
    + rewrite concat_app. simpl. now rewrite app_nil_r.
Qed.

Lemma step_inv (n : Z) (st : state) (gs : list (list str)) (w : str) :
  chunker_inv n st gs ->
  exists gs',
    chunker_inv n (step n st w) gs' /\
    List.concat gs' ++ current_chunk (step n st w)
      = (List.concat gs ++ current_chunk st) ++ [w].
Proof.
  intros Hinv. unfold step.
  destruct (current_size st + (len w + 1) >? n)%Z eqn:Hcmp.
  - destruct (flush_groups Hinv) as (gs' & Hf & Hne & Hb & Hcat).
    exists gs'. split.
    + constructor; simpl; auto using len_nonneg; try lia.
    + simpl. now rewrite Hcat.
  - destruct Hinv as [Hc Hne Hb Hs Hcov Hbd].
    pose proof (len_nonneg w) as Hw.
    exists gs. split.
    + assert (Hle : (current_size st + (len w + 1) <= n)%Z) by lia.
      constructor; simpl; auto; try lia.
      intros _. destruct (current_chunk st) as [|w0 cur] eqn:E.
      * simpl. lia.
      * rewrite len_join_snoc by discriminate.
        specialize (Hcov ltac:(discriminate)). lia.
    + simpl. now rewrite app_assoc.
Qed.

Lemma loop_inv (n : Z) (words : list str) (st : state) (gs : list (list str)) :
  chunker_inv n st gs ->
  exists gs',
    chunker_inv n (loop n words st) gs' /\
    List.concat gs' ++ current_chunk (loop n words st)
      = (List.concat gs ++ current_chunk st) ++ words.
Proof.
  revert st gs. induction words as [|w words IH]; intros st gs Hinv.
  - exists gs. simpl. now rewrite app_nil_r.
  - destruct (step_inv w Hinv) as (gs1 & Hinv1 & Hcat1).
    destruct (IH _ _ Hinv1) as (gs2 & Hinv2 & Hcat2).
    exists gs2.
    change (loop n (w :: words) st) with (loop n words (step n st w)).
    split; [exact Hinv2|].
    change (loop n (w :: words) st) with (loop n words (step n st w)).
    rewrite Hcat2, Hcat1.
    now rewrite <- app_assoc.
Qed.

(** The segments are the joins of consecutive non-empty groups of the words
    of the text, and a group of two words or more fits in [chunk_size]. *)
Lemma chunk_text_groups (text : str) (n : Z) :
  exists gs,
    _chunk_text text n = map join gs /\
    Forall (fun g => g <> []) gs /\
    Forall (fun g => 2 <= List.length g -> (len (join g) <= n)%Z) gs /\
    List.concat gs = split text.
Proof.
  destruct (loop_inv (split text) (inv_init n)) as (gs1 & Hinv & Hcat).
  destruct (flush_groups Hinv) as (gs2 & Hf & Hne & Hb & Hcat2).
  exists gs2. unfold _chunk_text. repeat split; auto.
  rewrite Hcat2, Hcat. reflexivity.
Qed.

Lemma chunk_text_words (text : str) (n : Z) :
  split (join (_chunk_text text n)) = split text.
Proof.
  destruct (chunk_text_groups text n) as (gs & Hc & Hne & _ & Hcat).
  rewrite Hc, join_groups by assumption.
  rewrite Hcat. apply split_join, split_words.
Qed.

Lemma chunk_text_blank (text : str) (n : Z) :
  blank text = true -> _chunk_text text n = [].
Proof.
  intros H. unfold _chunk_text, split. now rewrite split_go_blank.
Qed.

(** C1.  For every text and every positive [chunk_size], joining the segments
    with single spaces and splitting the result on whitespace gives back the
    words of the text, in order and without loss or repetition; and a text
    that is empty or all whitespace has no segment. *)
Theorem chunk_text_preserves_words (text : str) (chunk_size : Z) :
  (0 < chunk_size)%Z ->
  split (join (_chunk_text text chunk_size)) = split text /\
  (blank text = true -> _chunk_text text chunk_size = []).
Proof.
  intros _. split.
  - apply chunk_text_words.
  - apply chunk_text_blank.
Qed.

Lemma chunk_text_preserves_words_witness :
  let text := of_string "  to be  or not	to be " in
  (0 < 9)%Z /\
  split (join (_chunk_text text 9)) = split text /\
  (blank text = true -> _chunk_text text 9 = []).
Proof.
  split; [lia | apply (@chunk_text_preserves_words _ 9); lia].
Defined.

Lemma In_concat_group (gs : list (list str)) (g : list str) (w : str) :
  In g gs -> In w g -> In w (List.concat gs).
Proof. intros Hg Hw. apply in_concat. eauto. Qed.

(** C10.  For every text and every positive [chunk_size], a segment made of
    two words or more is at most [chunk_size] characters long; a segment that
    is longer than [chunk_size] is a single word. *)
Theorem chunk_text_segment_bound (text : str) (chunk_size : Z) (segment : str) :
  (0 < chunk_size)%Z ->
  In segment (_chunk_text text chunk_size) ->
  (2 <= List.length (split segment) -> (len segment <= chunk_size)%Z) /\
  ((chunk_size < len segment)%Z ->
   split segment = [segment] /\ wordb segment = true).
Proof.
  intros _ Hin.
  destruct (chunk_text_groups text chunk_size) as (gs & Hc & Hne & Hb & Hcat).
  rewrite Hc in Hin. apply in_map_iff in Hin. destruct Hin as (g & <- & Hg).
  assert (Hwords : Forall (fun w => wordb w = true) g).
  { apply Forall_forall. intros w Hw.
    pose proof (split_words text) as Hall. rewrite <- Hcat in Hall.
    rewrite Forall_forall in Hall. apply Hall. eapply In_concat_group; eauto. }
  rewrite Forall_forall in Hb, Hne.
  specialize (Hb g Hg). specialize (Hne g Hg).
  rewrite split_join by assumption.
  split; [exact Hb|].
  intros Hlong.
  destruct g as [|w [|w2 g]].
  - congruence.
  - simpl. inversion Hwords; subst. split; [reflexivity|assumption].
  - simpl List.length in Hb. specialize (Hb ltac:(lia)). lia.
Qed.

Lemma chunk_text_segment_bound_witness :
  let text := of_string "  to be  or not	to be " in
  let segment := of_string "not to be" in
  (0 < 9)%Z /\ In segment (_chunk_text text 9) /\
  (2 <= List.length (split segment) -> (len segment <= 9)%Z) /\
  ((9 < len segment)%Z -> split segment = [segment] /\ wordb segment = true).
Proof.
  assert (H : In (of_string "not to be") (_chunk_text (of_string "  to be  or not	to be ") 9)).
  { vm_compute. right. left. reflexivity. }
  split; [lia|]. split; [exact H|].
  apply (@chunk_text_segment_bound
           (of_string "  to be  or not	to be ") 9 (of_string "not to be"));
    [lia | exact H].
Defined.

End ChunkerProofs.

(** ** Floating-point facts used by the search service *)

Module Float64Proofs.
Import Float64.
Local Open Scope Z_scope.

(** *** The constants and [round2] on known values *)

(** A decimal [n / 10^k] read as a float: the nearest double. *)
Example f0_7_nearest :
  div (S754_finite false 7 0) (S754_finite false 10 0) = f0_7.
Proof. reflexivity. Qed.

Example f100_exact : binary_normalize prec emax 100 0 false = f100.
Proof. reflexivity. Qed.

Example f70_exact : binary_normalize prec emax 70 0 false = f70.
Proof. reflexivity. Qed.

Example f1_exact : binary_normalize prec emax 1 0 false = f1.
Proof. reflexivity. Qed.

Example constants_valid :
  valid f0_7 = true /\ valid f100 = true /\ valid f70 = true /\ valid f1 = true.
Proof. repeat split. Qed.

(** [0.7 * 100 = 70.0] in binary64, although 0.7 is below 7/10. *)
Example mul_0_7_100 : mul f0_7 f100 = f70.
Proof. reflexivity. Qed.

(** [round(2.675, 2) = 2.67]: the double 2.675 is below 2.675. *)
Example round2_2_675 :
  round2 (div (S754_finite false 2675 0) (S754_finite false 1000 0))
  = div (S754_finite false 267 0) (S754_finite false 100 0).
Proof. vm_compute. reflexivity. Qed.

(** [round(0.125, 2) = 0.12]: an exact tie goes to the even digit. *)
Example round2_0_125 :
  round2 (S754_finite false 4503599627370496 (-55))
  = div (S754_finite false 12 0) (S754_finite false 100 0).
Proof. vm_compute. reflexivity. Qed.

(** [round(0.8734512 * 100, 2) = 87.35]. *)
Example round2_certainty :
  round2 (mul (div (S754_finite false 8734512 0) (S754_finite false 10000000 0)) f100)
  = div (S754_finite false 8735 0) (S754_finite false 100 0).
Proof. vm_compute. reflexivity. Qed.

(** *** Number of binary digits *)

Lemma digits2_pos_bounds (p : positive) :
  2 ^ (Zpos (digits2_pos p) - 1) <= Zpos p < 2 ^ Zpos (digits2_pos p).
Proof.
  induction p as [p IH|p IH|]; simpl digits2_pos.
  - rewrite Pos2Z.inj_succ.
    replace (Z.succ (Zpos (digits2_pos p)) - 1) with (Z.succ (Zpos (digits2_pos p) - 1)) by lia.
    rewrite !Z.pow_succ_r by lia. lia.
  - rewrite Pos2Z.inj_succ.
    replace (Z.succ (Zpos (digits2_pos p)) - 1) with (Z.succ (Zpos (digits2_pos p) - 1)) by lia.
    rewrite !Z.pow_succ_r by lia. lia.
  - simpl. lia.
Qed.

Lemma digits2_pos_unique (p : positive) (d : Z) :
  2 ^ (d - 1) <= Zpos p < 2 ^ d -> 0 < d -> Zpos (digits2_pos p) = d.
Proof.
  intros [Hlo Hhi] Hd.
  pose proof (digits2_pos_bounds p) as [Hlo' Hhi'].
  set (k := Zpos (digits2_pos p)) in *.
  assert (0 < k) by (subst k; lia).
  destruct (Z.lt_trichotomy k d) as [Hlt|[Heq|Hgt]]; [|assumption|].
  - assert (2 ^ k <= 2 ^ (d - 1)) by (apply Z.pow_le_mono_r; lia). lia.
  - assert (2 ^ d <= 2 ^ (k - 1)) by (apply Z.pow_le_mono_r; lia). lia.
Qed.

(** *** Shifting a mantissa to the right *)

Lemma shr_1_m (mrs : shr_record) :
  0 <= shr_m mrs -> shr_m (shr_1 mrs) = shr_m mrs / 2.
Proof.
  destruct mrs as [m r s]. simpl shr_m. intros Hm.
  rewrite <- Z.div2_div.
  destruct m as [|[p|p|]|p]; try reflexivity. lia.
Qed.

Lemma iter_shr_1_m (p : positive) (mrs : shr_record) :
  0 <= shr_m mrs ->
  shr_m (iter_pos shr_1 p mrs) = shr_m mrs / 2 ^ Zpos p.
Proof.
  revert mrs. induction p as [p IH|p IH|]; intros mrs Hm; simpl iter_pos.
  - assert (H1 : 0 <= shr_m (shr_1 mrs)).
    { rewrite shr_1_m by assumption. apply Z.div_pos; lia. }
    assert (H2 : 0 <= shr_m (iter_pos shr_1 p (shr_1 mrs))).
    { rewrite IH by assumption. apply Z.div_pos; [assumption|]. apply Z.pow_pos_nonneg; lia. }
    rewrite IH, IH, shr_1_m by assumption.
    rewrite !Z.div_div by (try apply Z.pow_pos_nonneg; lia).
    f_equal.
    replace (Zpos p~1) with (1 + Zpos p + Zpos p) by lia.
    rewrite !Z.pow_add_r by lia. change (2 ^ 1) with 2. ring.
  - assert (H2 : 0 <= shr_m (iter_pos shr_1 p mrs)).
    { rewrite IH by assumption. apply Z.div_pos; [assumption|]. apply Z.pow_pos_nonneg; lia. }
    rewrite IH, IH by assumption.
    rewrite !Z.div_div by (try apply Z.pow_pos_nonneg; lia).
    f_equal.
    replace (Zpos p~0) with (Zpos p + Zpos p) by lia.
    rewrite !Z.pow_add_r by lia. reflexivity.
  - rewrite shr_1_m by assumption. reflexivity.
Qed.

Lemma round_nearest_even_range (m : Z) (l : location) :
  m <= round_nearest_even m l <= m + 1.
Proof.
  destruct l as [|[| |]]; simpl; try lia.
  destruct (Z.even m); lia.
Qed.

(** *** [certainty * 100] for a certainty in [[0.7, 1)] *)

Lemma shr_fexp_product (P : positive) :
  Zpos (digits2_pos P) = 106 ->
  shr_fexp prec emax (Zpos P) (-99) loc_Exact
    = (iter_pos shr_1 53 (Build_shr_record (Zpos P) false false), -46).
Proof.
  intros H. unfold shr_fexp. simpl Zdigits2. rewrite H. reflexivity.
Qed.

Lemma shr_fexp_normal (p : positive) :
  Zpos (digits2_pos p) = 53 ->
  shr_fexp prec emax (Zpos p) (-46) loc_Exact
    = (Build_shr_record (Zpos p) false false, -46).
Proof.
  intros H. unfold shr_fexp. simpl Zdigits2. rewrite H. reflexivity.
Qed.

Lemma mul_f100_normal (m : positive) :
  6305039478318694 < Zpos m < 9007199254740992 ->
  exists p,
    mul (S754_finite false m (-53)) f100 = S754_finite false p (-46) /\
    4925812092436480 <= Zpos p <= 7036874417766400.
Proof.
  intros Hm.
  unfold mul, f100, SFmul. simpl xorb. simpl Z.add.
  unfold binary_round_aux.
  rewrite shr_fexp_product.
  2:{ apply digits2_pos_unique; [|lia].
      rewrite Pos2Z.inj_mul.
      change (2 ^ (106 - 1)) with 40564819207303340847894502572032.
      change (2 ^ 106) with 81129638414606681695789005144064.
      lia. }
  set (mrs := iter_pos shr_1 53 (Build_shr_record (Zpos (m * 7036874417766400)) false false)).
  assert (Hq : shr_m mrs = Zpos m * 7036874417766400 / 9007199254740992).
  { subst mrs. rewrite iter_shr_1_m by (simpl; lia). simpl shr_m.
    rewrite Pos2Z.inj_mul. reflexivity. }
  pose proof (round_nearest_even_range (shr_m mrs) (loc_of_shr_record mrs)) as Hr.
  set (r := round_nearest_even (shr_m mrs) (loc_of_shr_record mrs)) in *.
  assert (Hlo : 4925812092436480 <= shr_m mrs).
  { rewrite Hq. apply Z.div_le_lower_bound; lia. }
  assert (Hhi : shr_m mrs < 7036874417766400).
  { rewrite Hq. apply Z.div_lt_upper_bound; lia. }
  destruct r as [|p|p] eqn:Er; try lia.
  exists p. split; [|lia].
  rewrite shr_fexp_normal.
  - reflexivity.
  - apply digits2_pos_unique; [|lia].
    change (2 ^ (53 - 1)) with 4503599627370496.
    change (2 ^ 53) with 9007199254740992.
    lia.
Qed.

(** *** [round(x, 2)] for [x] in [[70, 100]] *)

Lemma div_half_even_range (a b : Z) :
  0 < b -> a / b <= div_half_even a b <= a / b + 1.
Proof.
  intros Hb. unfold div_half_even.
  destruct (2 * (a mod b) ?= b); [destruct (Z.even (a / b))| |]; lia.
Qed.

Lemma div_half_even_exact (a b q : Z) :
  0 < b -> a = b * q -> div_half_even a b = q.
Proof.
  intros Hb ->. unfold div_half_even.
  replace (b * q) with (q * b) by lia.
  rewrite Z.mod_mul, Z.div_mul by lia.
  simpl Z.mul. destruct (0 ?= b) eqn:E; try reflexivity.
  - apply Z.compare_eq in E. lia.
  - apply Z.compare_gt_iff in E. lia.
Qed.

Lemma round2_range (p : positive) :
  4925812092436480 <= Zpos p <= 7036874417766400 ->
  exists k,
    round2 (S754_finite false p (-46))
      = div (S754_finite false k 0) (S754_finite false 100 0) /\
    7000 <= Zpos k <= 10000.
Proof.
  intros Hp. unfold round2, hundredths.
  change (0 <=? -46) with false. cbv iota.
  change (2 ^ (- -46)) with 70368744177664.
  set (a := Zpos p * 100).
  assert (Hk : 7000 <= div_half_even a 70368744177664 <= 10000).
  { destruct (Z.eq_dec (Zpos p) 7036874417766400) as [E|N].
    - rewrite (@div_half_even_exact a 70368744177664 10000); subst a; lia.
    - pose proof (@div_half_even_range a 70368744177664 ltac:(lia)) as Hr.
      assert (7000 <= a / 70368744177664)
        by (apply Z.div_le_lower_bound; subst a; lia).
      assert (a / 70368744177664 < 10000)
        by (apply Z.div_lt_upper_bound; subst a; lia).
      lia. }
  destruct (div_half_even a 70368744177664) as [|k|k]; try lia.
  exists k. split; [reflexivity | lia].
Qed.

Lemma all_in_block_spec (P : Z -> bool) (n : nat) (lo k : Z) :
  Spec.all_in_block P n lo = true ->
  lo <= k < lo + 2 ^ Z.of_nat n -> P k = true.
Proof.
  revert lo. induction n as [|n IH]; intros lo H Hk; simpl in H.
  - simpl in Hk. now replace k with lo by lia.
  - apply andb_prop in H. destruct H as [H1 H2].
    rewrite Nat2Z.inj_succ, Z.pow_succ_r in Hk by lia.
    destruct (Z_lt_le_dec k (lo + 2 ^ Z.of_nat n)).
    + apply (IH lo); [assumption | lia].
    + apply (IH (lo + 2 ^ Z.of_nat n)); [assumption | lia].
Qed.

(** Every two-decimal value from 70.00 on (up to 110.95) reads back as a
    double that is at least 70.0. *)
Lemma hundredths_ge_70_table :
  Spec.all_in_block
    (fun n => match n with
              | Zpos k => leb f70 (div (S754_finite false k 0)
                                       (S754_finite false 100 0))
              | _ => false
              end) 12 7000 = true.
Proof. vm_compute. reflexivity. Qed.

Lemma hundredths_ge_70 (k : positive) :
  7000 <= Zpos k <= 10000 ->
  leb f70 (div (S754_finite false k 0) (S754_finite false 100 0)) = true.
Proof.
  intros Hk.
  pose proof (@all_in_block_spec _ 12 7000 (Zpos k) hundredths_ge_70_table) as H.
  cbv beta iota in H. apply H.
  change (2 ^ Z.of_nat 12) with 4096. lia.
Qed.

(** *** The range of certainties the default filter lets through *)

Lemma certainty_cases (c : spec_float) :
  valid c = true -> leb f0_7 c = true -> leb c f1 = true ->
  c = f1 \/ c = f0_7 \/
  exists m, c = S754_finite false m (-53) /\
            6305039478318694 < Zpos m < 9007199254740992.
Proof.
  intros Hv Hlo Hhi.
  destruct c as [s|s| |s m e]; try discriminate.
  - destruct s; discriminate.
  - destruct s; [discriminate|].
    unfold leb, SFleb, SFcompare, f0_7, f1 in Hlo, Hhi.
    unfold valid, valid_binary, bounded, canonical_mantissa, fexp, emin in Hv.
    apply andb_prop in Hv. destruct Hv as [Hc _].
    apply Z.eqb_eq in Hc.
    pose proof (digits2_pos_bounds m) as Hd.
    destruct (Z.compare_spec (-53) e) as [E1|L1|G1]; try discriminate;
    destruct (Z.compare_spec e (-52)) as [E2|L2|G2]; try discriminate; try lia.
    + (* e = -53 *)
      subst e.
      assert (Hdig : Zpos (digits2_pos m) = 53) by (unfold prec, emax in Hc; lia).
      rewrite Hdig in Hd.
      change (2 ^ (53 - 1)) with 4503599627370496 in Hd.
      change (2 ^ 53) with 9007199254740992 in Hd.
      rewrite Pos.compare_cont_spec in Hlo. simpl in Hlo.
      destruct (Pos.compare_spec 6305039478318694 m) as [E|L|G]; try discriminate.
      * right. left. now subst m.
      * right. right. exists m. split; [reflexivity|].
        apply Pos2Z.pos_lt_pos in L. lia.
    + (* e = -52 *)
      subst e.
      assert (Hdig : Zpos (digits2_pos m) = 53) by (unfold prec, emax in Hc; lia).
      rewrite Hdig in Hd.
      change (2 ^ (53 - 1)) with 4503599627370496 in Hd.
      change (2 ^ 53) with 9007199254740992 in Hd.
      rewrite Pos.compare_cont_spec in Hhi. simpl in Hhi.
      destruct (Pos.compare_spec m 4503599627370496) as [E|L|G]; try discriminate.
      * left. now subst m.
      * exfalso. clear - Hd L. apply Pos2Z.pos_lt_pos in L. lia.
Qed.

(** A certainty between the default [min_score] and 1 is reported with a
    relevance of at least 70.0. *)
Lemma relevance_ge_70 (c : spec_float) :
  valid c = true -> leb f0_7 c = true -> leb c f1 = true ->
  leb f70 (round2 (mul c f100)) = true.
Proof.
  intros Hv Hlo Hhi.
  destruct (certainty_cases c Hv Hlo Hhi) as [->|[->|(m & -> & Hm)]].
  - vm_compute. reflexivity.
  - vm_compute. reflexivity.
  - destruct (mul_f100_normal Hm) as (p & -> & Hp).
    destruct (round2_range Hp) as (k & -> & Hk).
    now apply hundredths_ge_70.
Qed.

End Float64Proofs.

(** ** The search service *)

Module SearchProofs.
Import PyStr Py Json Float64 Search Spec.
Local Open Scope string_scope.
Local Open Scope list_scope.

Lemma subseq_filter {A} (f : A -> bool) (l : list A) : subseq (filter f l) l.
Proof.
  induction l as [|x l IH]; simpl.
  - constructor.
  - destruct (f x); now constructor.
Qed.

Lemma filter_length_le {A} (f : A -> bool) (l : list A) :
  List.length (filter f l) <= List.length l.
Proof.
  induction l as [|x l IH]; simpl; [lia|].
  destruct (f x); simpl; lia.
Qed.

Lemma format_carries (r : json) (x : hit) :
  carries r x ->
  format r (JFloat (hit_certainty x)) = Ok (report x).
Proof.
  intros (Hc & Hp & Hf & Hn & _). unfold format.
  rewrite Hc, Hp, Hf, Hn. reflexivity.
Qed.

(** On well-formed entries the loop is a filter followed by a map. *)
Lemma format_loop_carries (results : list json) (hits : list hit)
    (min_score : spec_float) (acc : list result) :
  Forall2 carries results hits ->
  format_loop results min_score acc
    = Ok (acc ++ map report (filter (passes min_score) hits)).
Proof.
  intros H. revert acc. induction H as [|r x results hits Hrx _ IH]; intros acc.
  - simpl. now rewrite app_nil_r.
  - simpl format_loop.
    destruct Hrx as (Hc & Hp & Hf & Hn & Hcert).
    rewrite Hcert. simpl rbind. simpl filter.
    change (passes min_score x) with (leb min_score (hit_certainty x)).
    destruct (leb min_score (hit_certainty x)) eqn:Hk.
    + rewrite (@format_carries r x) by (repeat split; assumption).
      simpl rbind. rewrite IH. simpl map. now rewrite <- app_assoc.
    + apply IH.
Qed.

(** C4.  With the defaults [limit = 5] and [min_score = 0.7], on a response
    that answers the query as the backend promises (at most [limit] entries,
    each with its four fields and a certainty in [[0, 1]]): [search] returns
    the entries whose certainty is at least [min_score], in the order of the
    backend, each with [relevance_score = round(certainty * 100, 2)]; so it
    returns at most 5 results, and every relevance is at least 70.0. *)
Theorem search_default_results (b : backend) (query : str) (response : json)
    (results : list json) (hits : list hit) :
  near_text b query default_limit = Ok response ->
  documents_of response = Ok (JArr results) ->
  (Z.of_nat (List.length results) <= default_limit)%Z ->
  Forall2 carries results hits ->
  Forall certainty_in_unit hits ->
  let kept := filter (passes default_min_score) hits in
  search b query default_limit default_min_score = Ok (map report kept) /\
  subseq kept hits /\
  List.length (map report kept) <= 5 /\
  Forall (fun x => leb default_min_score (hit_certainty x) = true) kept /\
  Forall relevance_at_least_70 (map report kept).
Proof.
  intros Hresp Hdocs Hlen Hcar Hunit kept.
  assert (Hsame : List.length results = List.length hits)
    by (eapply Forall2_length; eauto).
  repeat split.
  - unfold search, search_body. rewrite Hresp. simpl rbind.
    rewrite Hdocs. simpl rbind.
    rewrite (format_loop_carries default_min_score [] Hcar). reflexivity.
  - apply subseq_filter.
  - rewrite length_map. pose proof (filter_length_le (passes default_min_score) hits).
    unfold default_limit in Hlen. fold kept in H. lia.
  - apply Forall_forall. intros x Hx. apply filter_In in Hx. apply Hx.
  - apply Forall_forall. intros r Hr.
    apply in_map_iff in Hr. destruct Hr as (x & <- & Hx).
    apply filter_In in Hx. destruct Hx as [Hin Hpass].
    rewrite Forall_forall in Hunit. destruct (Hunit x Hin) as (Hv & _ & Hle1).
    exists (round2 (mul (hit_certainty x) f100)). split; [reflexivity|].
    now apply Float64Proofs.relevance_ge_70.
Qed.

Lemma search_default_results_witness :
  let b := Samples.sample_backend in
  let results := map Samples.entry Samples.sample_hits in
  let kept := filter (passes default_min_score) Samples.sample_hits in
  search b [] default_limit default_min_score = Ok (map report kept) /\
  subseq kept Samples.sample_hits /\
  List.length (map report kept) <= 5 /\
  Forall (fun x => leb default_min_score (hit_certainty x) = true) kept /\
  Forall relevance_at_least_70 (map report kept).
Proof.
  apply (@search_default_results Samples.sample_backend []
           (Samples.get_response (JArr (map Samples.entry Samples.sample_hits)))
           (map Samples.entry Samples.sample_hits) Samples.sample_hits).
  - reflexivity.
  - reflexivity.
  - vm_compute. discriminate.
  - repeat constructor.
  - repeat constructor.
Defined.

(** C5.  If the backend call raises an error, or handling its response does,
    [search] returns the empty list, and it never raises an error to its
    caller; likewise [get_document_count] returns 0 and never raises one. *)
Theorem search_and_count_absorb_errors (b : backend) (query : str) (limit : Z)
    (min_score : spec_float) (kind : string) :
  (near_text b query limit = Raise (Exception kind) \/
   search_body b query limit min_score = Raise (Exception kind) ->
   search b query limit min_score = Ok []) /\
  search b query limit min_score <> Raise (Exception kind) /\
  (aggregate_count b = Raise (Exception kind) \/
   get_document_count_body b = Raise (Exception kind) ->
   get_document_count b = Ok (JInt 0)) /\
  get_document_count b <> Raise (Exception kind).
Proof.
  assert (Hs : near_text b query limit = Raise (Exception kind) ->
               search_body b query limit min_score = Raise (Exception kind)).
  { intros H. unfold search_body. now rewrite H. }
  assert (Hc : aggregate_count b = Raise (Exception kind) ->
               get_document_count_body b = Raise (Exception kind)).
  { intros H. unfold get_document_count_body. now rewrite H. }
  repeat split.
  - intros [H|H]; [apply Hs in H|]; unfold search; now rewrite H.
  - unfold search.
    destruct (search_body b query limit min_score) as [v|[k|]]; discriminate.
  - intros [H|H]; [apply Hc in H|]; unfold get_document_count; now rewrite H.
  - unfold get_document_count.
    destruct (get_document_count_body b) as [v|[k|]]; discriminate.
Qed.

Lemma search_and_count_absorb_errors_witness :
  search Samples.backend_down (Samples.key "tax") 5 f0_7 = Ok [] /\
  get_document_count Samples.backend_down = Ok (JInt 0) /\
  search Samples.backend_odd (Samples.key "tax") 5 f0_7 = Ok [] /\
  get_document_count Samples.backend_odd = Ok (JInt 0).
Proof.
  destruct (@search_and_count_absorb_errors Samples.backend_down
              (Samples.key "tax") 5 f0_7 "ConnectionError")
    as (Hs & _ & Hc & _).
  destruct (@search_and_count_absorb_errors Samples.backend_odd
              (Samples.key "tax") 5 f0_7 "KeyError") as (Hs1 & _).
  destruct (@search_and_count_absorb_errors Samples.backend_odd
              (Samples.key "tax") 5 f0_7 "IndexError") as (_ & _ & Hc1 & _).
  split; [apply Hs; left; reflexivity|].
  split; [apply Hc; left; reflexivity|].
  split; [apply Hs1; right; reflexivity|].
  apply Hc1; right; reflexivity.
Defined.

End SearchProofs.

(** ** The document processor *)

Module ProcessorProofs.
Import PyStr Py Json Chunker Processor ProcSpec.

(** *** Results that are not an interrupt *)

Lemma calm_rbind {A B} (m : res A) (k : A -> res B) :
  calm m -> (forall a, calm (k a)) -> calm (rbind m k).
Proof.
  unfold calm. intros Hm Hk. destruct m as [a|e]; simpl; [apply Hk|].
  intros H. apply Hm. congruence.
Qed.

Lemma calm_getitem (v : json) (key : string) : calm (getitem v key).
Proof.
  unfold calm, getitem. destruct v; try discriminate.
  destruct (lookup _ _); discriminate.
Qed.

Lemma calm_contains (key : string) (v : json) : calm (contains key v).
Proof. unfold calm, contains. destruct v; discriminate. Qed.

Lemma calm_py_len (v : json) : calm (py_len v).
Proof. unfold calm, py_len. destruct v; discriminate. Qed.

Lemma calm_Ok {A} (a : A) : calm (Ok a).
Proof. discriminate. Qed.

Create HintDb calm.
#[local] Hint Resolve calm_getitem calm_contains calm_py_len calm_Ok calm_rbind : calm.

Lemma calm_has_documents (result : json) : calm (has_documents result).
Proof.
  unfold has_documents.
  destruct (negb (truthy result)); [apply calm_Ok|].
  apply calm_rbind; [apply calm_contains|]. intros b1.
  destruct (negb b1); [apply calm_Ok|].
  apply calm_rbind; [apply calm_getitem|]. intros data.
  apply calm_rbind; [apply calm_contains|]. intros b2.
  destruct (negb b2); [apply calm_Ok|].
  auto 6 with calm.
Qed.

Lemma calm_stored_documents (result : json) : calm (stored_documents result).
Proof. unfold stored_documents. auto 6 with calm. Qed.

(** *** Faithful outcomes compose *)

Lemma interrupted_app (d1 d2 : history) :
  interrupted (d1 ++ d2) = interrupted d1 || interrupted d2.
Proof. apply existsb_app. Qed.

Lemma faithful_calm {A} (r : res A) (d : history) :
  calm r -> faithful r d -> interrupted d = false.
Proof. intros Hc [[H _]|[_ H]]; [contradiction | exact H]. Qed.

Lemma faithful_nil {A} (r : res A) : calm r -> faithful r [].
Proof. intros H. right. split; [exact H | reflexivity]. Qed.

Lemma faithful_app {A B} (r1 : res A) (r2 : res B) (d1 d2 : history) :
  calm r1 -> faithful r1 d1 -> faithful r2 d2 -> faithful r2 (d1 ++ d2).
Proof.
  intros Hc H1 H2. pose proof (faithful_calm Hc H1) as Hd1.
  destruct H2 as [[Hr (d0 & ev & -> & Hev & Hd0)]|[Hr Hd2]].
  - left. split; [exact Hr|]. exists (d1 ++ d0), ev.
    rewrite app_assoc, interrupted_app, Hd1, Hd0. auto.
  - right. split; [exact Hr|]. now rewrite interrupted_app, Hd1, Hd2.
Qed.

Lemma faithful_event {A} (c : call) (r : res A) :
  faithful r [mk_event c (exn_of r)].
Proof.
  destruct r as [a|[kind|]].
  - right. split; [discriminate | reflexivity].
  - right. split; [discriminate | reflexivity].
  - left. split; [reflexivity|]. exists [], (mk_event c (Some KeyboardInterrupt)).
    auto.
Qed.

Lemma good_app {A B} (P : call -> Prop) (r1 : res A) (r2 : res B)
    (d1 d2 : history) :
  calm r1 -> good P r1 d1 -> good P r2 d2 -> good P r2 (d1 ++ d2).
Proof.
  intros Hc [F1 A1] [F2 A2]. split.
  - eapply faithful_app; eauto.
  - apply Forall_app. auto.
Qed.

Lemma good_nil {A} (P : call -> Prop) (r : res A) : calm r -> good P r [].
Proof. intros H. split; [now apply faithful_nil | constructor]. Qed.

Lemma good_weaken {A} (P P' : call -> Prop) (r : res A) (d : history) :
  (forall c, P c -> P' c) -> good P r d -> good P' r d.
Proof.
  intros H [F Hall]. split; [exact F|].
  eapply Forall_impl; [|exact Hall]. intros ev. apply H.
Qed.

Lemma good_retag {A B} (P : call -> Prop) (e : exn) (d : history) :
  good P (@Raise A e) d -> good P (@Raise B e) d.
Proof.
  intros [[[Hr He]|[Hr Hd]] Hall]; split; auto.
  - left. split; [congruence | exact He].
  - right. split; [|exact Hd]. intros H. apply Hr. congruence.
Qed.

(** *** The building blocks of computations *)

Section Blocks.
Variable P : call -> Prop.

Lemma runs_ret {A} (a : A) : runs (good P) (ret a).
Proof.
  intros h. exists (Ok a), []. rewrite app_nil_r. split; [reflexivity|].
  apply good_nil. discriminate.
Qed.

Lemma runs_raise {A} (kind : string) : runs (good P) (@raise A (Exception kind)).
Proof.
  intros h. exists (Raise (Exception kind)), []. rewrite app_nil_r.
  split; [reflexivity|]. apply good_nil. discriminate.
Qed.

Lemma runs_ask {A} (f : history -> A) : runs (good P) (ask f).
Proof.
  intros h. exists (Ok (f h)), []. rewrite app_nil_r. split; [reflexivity|].
  apply good_nil. discriminate.
Qed.

Lemma runs_lift {A} (r : res A) : calm r -> runs (good P) (lift r).
Proof.
  intros Hr h. exists r, []. rewrite app_nil_r. split; [reflexivity|].
  now apply good_nil.
Qed.

Lemma runs_ext {A} (c : call) (answer : history -> res A) :
  P c -> runs (good P) (ext c answer).
Proof.
  intros Hc h. exists (answer h), [mk_event c (exn_of (answer h))].
  split; [reflexivity|]. split; [apply faithful_event|].
  constructor; [exact Hc | constructor].
Qed.

Lemma runs_bind {A B} (m : M A) (k : A -> M B) :
  runs (good P) m -> (forall a, runs (good P) (k a)) ->
  runs (good P) (bind m k).
Proof.
  intros Hm Hk h. unfold bind.
  destruct (Hm h) as (r1 & d1 & -> & G1).
  destruct r1 as [a|e].
  - destruct (Hk a (h ++ d1)) as (r2 & d2 & -> & G2).
    exists r2, (d1 ++ d2). rewrite app_assoc. split; [reflexivity|].
    eapply good_app; eauto. discriminate.
  - exists (Raise e), d1. split; [reflexivity|]. now apply (@good_retag A B).
Qed.

Lemma runs_catch {A} (m : M A) (handler : string -> M A) :
  runs (good P) m -> (forall kind, runs (good P) (handler kind)) ->
  runs (good P) (catch m handler).
Proof.
  intros Hm Hh h. unfold catch.
  destruct (Hm h) as (r1 & d1 & -> & G1).
  destruct r1 as [a|[kind|]].
  - exists (Ok a), d1. auto.
  - destruct (Hh kind (h ++ d1)) as (r2 & d2 & -> & G2).
    exists r2, (d1 ++ d2). rewrite app_assoc. split; [reflexivity|].
    eapply good_app; eauto. discriminate.
  - exists (Raise KeyboardInterrupt), d1. auto.
Qed.

End Blocks.

(** *** The methods of the processor *)

Section Methods.
Variable E : env.
Variable batch_size : Z.

Lemma runs_process_batch (batch : list properties) :
  runs (good not_open) (_process_batch E batch).
Proof.
  unfold _process_batch.
  apply runs_catch.
  - apply runs_bind; [apply runs_ext; exact I|].
    intros _. apply runs_ext. exact I.
  - intros kind. apply runs_raise.
Qed.

Lemma runs_create_backup (filename : str) :
  runs (good not_open) (_create_backup E filename).
Proof.
  unfold _create_backup.
  apply runs_catch; [|intros; apply runs_ret].
  apply runs_bind; [apply runs_ext; exact I|]. intros result.
  apply runs_bind; [apply runs_lift, calm_has_documents|]. intros ok.
  destruct ok; [|apply runs_ret].
  apply runs_bind; [apply runs_ask|]. intros timestamp.
  apply runs_bind; [apply runs_lift, calm_stored_documents|]. intros docs.
  apply runs_bind; [apply runs_lift, calm_py_len|]. intros n.
  apply runs_bind; [apply runs_lift, calm_stored_documents|]. intros docs'.
  apply runs_bind; [apply runs_ext; exact I|]. intros _.
  apply runs_ret.
Qed.

Lemma runs_chunk_loop (pdf_path : Path) (page_num : nat) (todo : list (nat * str)) :
  runs_batch (good not_open) (chunk_loop E batch_size pdf_path page_num todo).
Proof.
  induction todo as [|[chunk_num chunk] todo IH]; intros batch h; simpl chunk_loop.
  - exists (Ok tt), batch, []. rewrite app_nil_r. split; [reflexivity|].
    apply good_nil. discriminate.
  - destruct (is_empty (strip chunk)); [apply IH|].
    set (batch1 := batch ++ [_]).
    destruct (batch_size <=? Z.of_nat (List.length batch1))%Z; [|apply IH].
    destruct (runs_process_batch batch1 h) as (r1 & d1 & -> & G1).
    destruct r1 as [[]|e].
    + destruct (IH [] (h ++ d1)) as (r2 & b2 & d2 & -> & G2).
      exists r2, b2, (d1 ++ d2). rewrite app_assoc. split; [reflexivity|].
      eapply good_app; eauto. discriminate.
    + exists (Raise e), batch1, d1. auto.
Qed.

Lemma runs_page_body (pdf_path : Path) (page_num : nat) :
  runs_batch (good not_open) (page_body E batch_size pdf_path page_num).
Proof.
  intros batch h. unfold page_body, ext.
  set (t := extract_text E h pdf_path page_num).
  assert (G0 : good not_open t [mk_event (CExtract pdf_path page_num) (exn_of t)]).
  { split; [apply faithful_event|]. constructor; [exact I|constructor]. }
  destruct t as [text|e] eqn:Ht; simpl exn_of in *; cbv beta iota zeta.
  - destruct (is_empty text || is_empty (strip text)).
    + exists (Ok tt), batch, [mk_event (CExtract pdf_path page_num) None].
      split; [reflexivity|]. destruct G0 as [F Hall]. split; [|exact Hall].
      right. split; [discriminate|reflexivity].
    + destruct (runs_chunk_loop pdf_path page_num
                  (enumerate (_chunk_text text default_chunk_size)) batch
                  (h ++ [mk_event (CExtract pdf_path page_num) None]))
        as (r2 & b2 & d2 & -> & G2).
      exists r2, b2, ([mk_event (CExtract pdf_path page_num) None] ++ d2).
      rewrite app_assoc. split; [reflexivity|].
      eapply good_app; eauto. discriminate.
  - exists (Raise e), batch, [mk_event (CExtract pdf_path page_num) (Some e)].
    split; [reflexivity|]. now apply (@good_retag str unit).
Qed.

Lemma runs_page_loop (pdf_path : Path) (page_nums : list nat) :
  runs_batch (good not_open) (page_loop E batch_size pdf_path page_nums).
Proof.
  induction page_nums as [|page_num rest IH]; intros batch h; simpl page_loop.
  - exists (Ok tt), batch, []. rewrite app_nil_r. split; [reflexivity|].
    apply good_nil. discriminate.
  - destruct (runs_page_body pdf_path page_num batch h) as (r1 & b1 & d1 & -> & G1).
    assert (Hnext : calm r1 ->
      exists r batch' d,
        page_loop E batch_size pdf_path rest b1 (h ++ d1) = (r, batch', h ++ d)
        /\ good not_open r d).
    { intros Hc. destruct (IH b1 (h ++ d1)) as (r2 & b2 & d2 & -> & G2).
      exists r2, b2, (d1 ++ d2). rewrite app_assoc. split; [reflexivity|].
      eapply good_app; eauto. }
    destruct r1 as [[]|[kind|]].
    + apply Hnext. discriminate.
    + apply Hnext. discriminate.
    + exists (Raise KeyboardInterrupt), b1, d1. auto.
Qed.

Lemma runs_pages (pdf_path : Path) (n : nat) :
  runs (good not_open) (pages E batch_size pdf_path n).
Proof.
  intros h. unfold pages.
  destruct (runs_page_loop pdf_path (seq 0 n) [] h) as (r & b & d & -> & G).
  destruct r as [[]|e].
  - exists (Ok b), d. split; [reflexivity|].
    destruct G as [F Hall]. split; [|exact Hall].
    right. split; [discriminate|]. eapply faithful_calm; [|exact F]. discriminate.
  - exists (Raise e), d. split; [reflexivity|]. now apply (@good_retag unit (list properties)).
Qed.

Lemma runs_after_open (pdf_path : Path) (n : nat) :
  runs (good not_open) (after_open E batch_size pdf_path n).
Proof.
  unfold after_open.
  apply runs_bind; [apply runs_pages|]. intros batch.
  apply runs_bind.
  - destruct batch; [apply runs_ret | apply runs_process_batch].
  - intros _. apply runs_bind; [apply runs_create_backup|].
    intros _. apply runs_ret.
Qed.

Lemma faithful_swap {A B} (r1 : res A) (r2 : res B) (d : history) :
  calm r1 -> calm r2 -> faithful r1 d -> faithful r2 d.
Proof.
  intros H1 H2 F. right. split; [exact H2|]. exact (faithful_calm H1 F).
Qed.

Lemma opened_app (d1 d2 : history) : opened (d1 ++ d2) = opened d1 ++ opened d2.
Proof.
  induction d1 as [|[c o] d1 IH]; simpl; [reflexivity|].
  destruct c; simpl; now rewrite ?IH.
Qed.

Lemma opened_not_open (d : history) :
  Forall (fun ev => not_open (ev_call ev)) d -> opened d = [].
Proof.
  induction 1 as [|[c o] d Hc _ IH]; simpl; [reflexivity|].
  destruct c; simpl in *; auto. contradiction.
Qed.

(** [process_pdf] opens its file first and no other; it ends normally or on
    an interrupt, never on an error. *)
Lemma process_pdf_shape (pdf_path : Path) (h : history) :
  exists r o d,
    process_pdf E batch_size pdf_path h
      = (r, h ++ mk_event (COpen pdf_path) o :: d) /\
    faithful r (mk_event (COpen pdf_path) o :: d) /\
    Forall (fun ev => not_open (ev_call ev)) d /\
    (r = Ok tt \/ r = Raise KeyboardInterrupt).
Proof.
  unfold process_pdf, catch.
  change (process_pdf_body E batch_size pdf_path)
    with (bind (ext (COpen pdf_path) (fun h => open_pdf E h pdf_path))
               (after_open E batch_size pdf_path)).
  unfold bind, ext.
  destruct (open_pdf E h pdf_path) as [n|[kind|]] eqn:Hopen; simpl exn_of.
  - destruct (runs_after_open pdf_path n (h ++ [mk_event (COpen pdf_path) None]))
      as (r1 & d1 & -> & [F1 A1]).
    rewrite <- app_assoc. simpl app.
    assert (F0 : faithful (Ok n) [mk_event (COpen pdf_path) None])
      by apply (faithful_event (COpen pdf_path) (Ok n)).
    assert (F : faithful r1 ([mk_event (COpen pdf_path) None] ++ d1))
      by (eapply faithful_app; eauto; discriminate).
    simpl app in F.
    destruct r1 as [[]|[kind|]].
    + exists (Ok tt), None, d1. auto.
    + exists (Ok tt), None, d1. unfold ret. repeat split; auto.
      eapply faithful_swap; [| |exact F]; discriminate.
    + exists (Raise KeyboardInterrupt), None, d1. auto.
  - exists (Ok tt), (Some (Exception kind)), []. unfold ret.
    repeat split; auto. right. split; [discriminate|reflexivity].
  - exists (Raise KeyboardInterrupt), (Some KeyboardInterrupt), [].
    repeat split; auto.
    apply (faithful_event (COpen pdf_path) (@Raise unit KeyboardInterrupt)).
Qed.

(** The loop over the files: faithful, and unless interrupted it opens every
    file, in order, and ends normally. *)
Lemma file_loop_shape (pdf_files : list Path) (h : history) :
  exists r d,
    file_loop E batch_size pdf_files h = (r, h ++ d) /\
    faithful r d /\
    (interrupted d = false -> r = Ok tt /\ opened d = pdf_files).
Proof.
  revert h. induction pdf_files as [|f rest IH]; intros h; simpl file_loop.
  - exists (Ok tt), []. rewrite app_nil_r. unfold ret. repeat split.
    apply faithful_nil. discriminate.
  - unfold bind, catch.
    destruct (process_pdf_shape f h) as (r1 & o & d1 & -> & F1 & A1 & [->| ->]).
    + destruct (IH (h ++ mk_event (COpen f) o :: d1)) as (r2 & d2 & -> & F2 & H2).
      exists r2, ((mk_event (COpen f) o :: d1) ++ d2).
      rewrite app_assoc. split; [reflexivity|]. split.
      * eapply faithful_app; eauto. discriminate.
      * intros Hd. rewrite interrupted_app in Hd.
        apply orb_false_iff in Hd. destruct Hd as [_ Hd2].
        destruct (H2 Hd2) as [-> Hop]. split; [reflexivity|].
        rewrite opened_app, Hop. simpl. now rewrite (opened_not_open A1).
    + exists (Raise KeyboardInterrupt), (mk_event (COpen f) o :: d1).
      split; [reflexivity|]. split.
      * destruct F1 as [[_ He]|[Hr _]]; [|contradiction Hr; reflexivity].
        left. auto.
      * intros Hd. destruct F1 as [[_ (d0 & ev & Hd0 & Hev & _)]|[Hr _]].
        -- rewrite Hd0, interrupted_app in Hd. simpl in Hd. rewrite Hev in Hd.
           simpl in Hd. rewrite orb_true_r in Hd. discriminate.
        -- contradiction Hr. reflexivity.
Qed.

(** C9.  An interrupt raised by any call made during a directory walk comes
    out of [process_directory], and the call that raised it is the last one
    of the walk: no handler swallows it and no further file is touched.
    Without an interrupt, once the directory is listed every file is opened,
    in order, whatever errors its processing met, and the walk ends
    normally. *)
Theorem interrupt_propagates (directory : str) (h : history) :
  exists r d,
    process_directory E batch_size directory h = (r, h ++ d) /\
    (interrupted d = true ->
     r = Raise KeyboardInterrupt /\ ends_in_interrupt d) /\
    (interrupted d = false ->
     forall pdf_files, glob_pdf E h directory = Ok pdf_files ->
     r = Ok tt /\ opened d = pdf_files).
Proof.
  unfold process_directory, catch, bind, ext.
  set (g := mk_event (CGlob directory)).
  destruct (glob_pdf E h directory) as [pdf_files|[kind|]] eqn:Hglob; simpl exn_of.
  - assert (Hloop : (match pdf_files with
                     | [] => ret tt
                     | _ => file_loop E batch_size pdf_files
                     end) = file_loop E batch_size pdf_files)
      by (destruct pdf_files; reflexivity).
    rewrite Hloop.
    destruct (file_loop_shape pdf_files (h ++ [g None])) as (r & d & -> & F & H).
    rewrite <- app_assoc. simpl app.
    assert (Hend :
      (interrupted (g None :: d) = true ->
       r = Raise KeyboardInterrupt /\ ends_in_interrupt (g None :: d)) /\
      (interrupted (g None :: d) = false ->
       forall files, Ok pdf_files = Ok files ->
       r = Ok tt /\ opened (g None :: d) = files)).
    { change (interrupted (g None :: d)) with (interrupted d). split.
      - intros Hd. destruct F as [[-> (d0 & ev & -> & Hev & Hd0)]|[_ Hd']].
        + split; [reflexivity|]. exists (g None :: d0), ev. auto.
        + congruence.
      - intros Hd files Hf. inversion Hf; subst files.
        destruct (H Hd) as [-> Hop]. split; [reflexivity|]. exact Hop. }
    destruct r as [[]|[kind|]].
    + exists (Ok tt), (g None :: d). split; [reflexivity | exact Hend].
    + exfalso. destruct F as [[Hr _]|[_ Hd]]; [discriminate|].
      destruct (H Hd). discriminate.
    + exists (Raise KeyboardInterrupt), (g None :: d).
      split; [reflexivity | exact Hend].
  - exists (Raise (Exception kind)), [g (Some (Exception kind))].
    split; [reflexivity|]. split; [discriminate|]. intros _ files Hf. discriminate.
  - exists (Raise KeyboardInterrupt), [g (Some KeyboardInterrupt)].
    split; [reflexivity|]. split.
    + intros _. split; [reflexivity|]. exists [], (g (Some KeyboardInterrupt)). auto.
    + discriminate.
Qed.

End Methods.

Lemma interrupt_propagates_witness :
  let run := process_directory Samples.interrupted_env 50 (Samples.key "pdfs") [] in
  fst run = Raise KeyboardInterrupt /\
  ends_in_interrupt (snd run) /\
  opened (snd run) = [Samples.a_pdf].
Proof.
  intros run.
  destruct (@interrupt_propagates Samples.interrupted_env 50
              (Samples.key "pdfs") []) as (r & d & Hrun & Hint & _).
  fold run in Hrun. simpl app in Hrun.
  assert (Hd : snd run =
               [mk_event (CGlob (Samples.key "pdfs")) None;
                mk_event (COpen Samples.a_pdf) None;
                mk_event (CExtract Samples.a_pdf 0) None;
                mk_event (CExtract Samples.a_pdf 1) (Some KeyboardInterrupt)])
    by (vm_compute; reflexivity).
  rewrite Hrun in Hd. simpl snd in Hd.
  rewrite Hrun. simpl fst. simpl snd.
  assert (Hi : interrupted d = true) by (rewrite Hd; reflexivity).
  destruct (Hint Hi) as [Hr He].
  split; [exact Hr|]. split; [exact He|]. rewrite Hd. reflexivity.
Defined.

End ProcessorProofs.

(** ** Backup snapshots *)

Module BackupProofs.
Import PyStr Py Json Chunker Processor ProcSpec.

Lemma snapshots_app (d1 d2 : history) :
  snapshots (d1 ++ d2) = snapshots d1 ++ snapshots d2.
Proof.
  induction d1 as [|[c o] d1 IH]; simpl; [reflexivity|].
  destruct c; simpl; now rewrite ?IH.
Qed.

(** The three ways [_create_backup] can end, with the calls it made:
    the query alone (it raised, or the answer was unusable), or the query
    and the write of a snapshot whose [total_chunks] is [len(chunks)]. *)
Lemma create_backup_cases (E : env) (filename : str) (h : history) :
  let q := CQuery filename in
  (exists r o, _create_backup E filename h = (r, h ++ [mk_event q o]) /\
               r <> Ok (Some true)) \/
  (exists r o f s,
     _create_backup E filename h
       = (r, h ++ [mk_event q None; mk_event (CWrite f s) o]) /\
     py_len (chunks s) = Ok (total_chunks s) /\
     (o = None -> r = Ok (Some true)) /\
     (r = Ok (Some true) -> o = None)).
Proof.
  cbv zeta. set (q := CQuery filename).
  unfold _create_backup, catch, bind, ext, lift, ask, ret. fold q.
  destruct (query_file E h filename) as [result|[kind|]]; simpl exn_of.
  2:{ left. exists (Ok (Some false)), (Some (Exception kind)). split; [reflexivity|discriminate]. }
  2:{ left. exists (Raise KeyboardInterrupt), (Some KeyboardInterrupt). split; [reflexivity|discriminate]. }
  destruct (has_documents result) as [[|]|[kind|]] eqn:Hhas.
  2:{ left. exists (Ok None), None. split; [reflexivity|discriminate]. }
  2:{ left. exists (Ok (Some false)), None. split; [reflexivity|discriminate]. }
  2:{ exfalso. now apply (@ProcessorProofs.calm_has_documents result). }
  destruct (stored_documents result) as [docs|[kind|]] eqn:Hdocs.
  2:{ left. exists (Ok (Some false)), None. split; [reflexivity|discriminate]. }
  2:{ exfalso. now apply (@ProcessorProofs.calm_stored_documents result). }
  destruct (py_len docs) as [n|[kind|]] eqn:Hlen.
  2:{ left. exists (Ok (Some false)), None. split; [reflexivity|discriminate]. }
  2:{ exfalso. now apply (@ProcessorProofs.calm_py_len docs). }
  right.
  set (h1 := h ++ [mk_event q None]).
  set (f := backup_path filename (now E h1)).
  set (s := mk_snapshot filename (now E h1) n docs).
  destruct (write_backup E h1 f s) as [[kind|]|] eqn:Hw; simpl.
  - exists (Ok (Some false)), (Some (Exception kind)), f, s.
    subst h1. rewrite <- app_assoc. simpl app.
    split; [reflexivity|]. split; [exact Hlen|].
    split; intros H; discriminate H.
  - exists (Raise KeyboardInterrupt), (Some KeyboardInterrupt), f, s.
    subst h1. rewrite <- app_assoc. simpl app.
    split; [reflexivity|]. split; [exact Hlen|].
    split; intros H; discriminate H.
  - exists (Ok (Some true)), None, f, s.
    subst h1. rewrite <- app_assoc. simpl app.
    split; [reflexivity|]. split; [exact Hlen|].
    split; intros H; reflexivity.
Qed.

(** C8.  Every snapshot [_create_backup] hands to the file system has
    [total_chunks = len(chunks)]: when [chunks] is an array, the number of
    its entries.  The function returns [True] exactly when it has written
    one snapshot without error. *)
Theorem snapshot_total_chunks (E : env) (filename : str) (h : history) :
  exists r d,
    _create_backup E filename h = (r, h ++ d) /\
    (forall f s, In (f, s) (snapshots d) ->
       py_len (chunks s) = Ok (total_chunks s) /\
       forall l, chunks s = JArr l -> total_chunks s = List.length l) /\
    (r = Ok (Some true) ->
     exists f s, snapshots d = [(f, s)] /\ In (mk_event (CWrite f s) None) d).
Proof.
  destruct (create_backup_cases E filename h)
    as [(r & o & Hrun & Hr)|(r & o & f & s & Hrun & Hlen & Hw1 & Hw2)].
  - exists r, [mk_event (CQuery filename) o]. split; [exact Hrun|]. split.
    + intros f s [].
    + intros Htrue. contradiction.
  - exists r, [mk_event (CQuery filename) None; mk_event (CWrite f s) o].
    split; [exact Hrun|]. split.
    + intros f' s' [Heq|[]]. inversion Heq; subst f' s'. split; [exact Hlen|].
      intros l Hl. rewrite Hl in Hlen. simpl in Hlen. congruence.
    + intros Htrue. exists f, s. split; [reflexivity|].
      rewrite (Hw2 Htrue). right. left. reflexivity.
Qed.

Lemma snapshot_total_chunks_witness :
  let E := Samples.sample_env [] [] (Ok Samples.two_stored) in
  let run := _create_backup E (Samples.key "a.pdf") [] in
  fst run = Ok (Some true) /\
  exists f s l,
    snapshots (snd run) = [(f, s)] /\ chunks s = JArr l /\
    total_chunks s = List.length l /\ total_chunks s = 2.
Proof.
  intros E run.
  destruct (@snapshot_total_chunks E (Samples.key "a.pdf") [])
    as (r & d & Hrun & Hall & Htrue).
  fold run in Hrun. simpl app in Hrun.
  assert (Hr : fst run = Ok (Some true)) by (vm_compute; reflexivity).
  split; [exact Hr|].
  rewrite Hrun in Hr. simpl fst in Hr.
  destruct (Htrue Hr) as (f & s & Hs & _).
  assert (Hin : In (f, s) (snapshots d)) by (rewrite Hs; left; reflexivity).
  destruct (Hall f s Hin) as [_ Hlen].
  assert (Hsnap : map (fun fs => chunks (snd fs)) (snapshots (snd run))
                  = [JArr (map Samples.entry (firstn 2 Samples.sample_hits))])
    by (vm_compute; reflexivity).
  rewrite Hrun in Hsnap. simpl snd in Hsnap. rewrite Hs in Hsnap.
  simpl map in Hsnap. inversion Hsnap as [Hc].
  exists f, s, (map Samples.entry (firstn 2 Samples.sample_hits)).
  rewrite Hrun. simpl snd.
  split; [exact Hs|]. split; [exact Hc|].
  split; [exact (Hlen _ Hc)|]. rewrite (Hlen _ Hc). reflexivity.
Defined.

(** C6 (the code departs from the claim).  When the backend answers the
    query with a GraphQL error object, which has no ["data"] key,
    [_create_backup] raises nothing and writes nothing, and returns neither
    [True] nor [False]: it falls off its end and returns [None]. *)
Theorem create_backup_returns_none :
  _create_backup (Samples.sample_env [] [] (Ok Samples.errors_response))
                 (Samples.key "a.pdf") []
  = (Ok None, [mk_event (CQuery (Samples.key "a.pdf")) None]).
Proof. reflexivity. Qed.

(** Apart from that case the claim holds: the function never raises an
    error, returns [True] only after a successful write, and [False]
    whenever the query, the handling of its answer or the write raised. *)
Lemma create_backup_never_raises_error (E : env) (filename : str)
    (h : history) (kind : string) :
  fst (_create_backup E filename h) <> Raise (Exception kind).
Proof.
  unfold _create_backup, catch.
  destruct (bind _ _ h) as [[v|[k|]] h']; simpl; discriminate.
Qed.

End BackupProofs.

(** ** Batches *)

Module BatchProofs.
Import PyStr Py Json Chunker Processor ProcSpec.

Lemma inserts_app (d1 d2 : history) :
  inserts (d1 ++ d2) = inserts d1 ++ inserts d2.
Proof.
  induction d1 as [|[c o] d1 IH]; simpl; [reflexivity|].
  destruct c; simpl; now rewrite ?IH.
Qed.

Lemma committed_app (d1 d2 : history) :
  committed (d1 ++ d2) = committed d1 ++ committed d2.
Proof.
  induction d1 as [|[c o] d1 IH]; simpl; [reflexivity|].
  destruct c; try destruct o; simpl; now rewrite ?IH.
Qed.

Lemma sent_app (d1 d2 : history) : sent (d1 ++ d2) = sent d1 ++ sent d2.
Proof. unfold sent. now rewrite inserts_app, map_app, concat_app. Qed.

Lemma inserts_none (P : call -> Prop) (d : history) :
  (forall b, ~ P (CInsert b)) ->
  Forall (fun ev => P (ev_call ev)) d -> inserts d = [].
Proof.
  intros HP. induction 1 as [|[c o] d Hc _ IH]; simpl; [reflexivity|].
  destruct c; simpl in *; auto. now apply HP in Hc.
Qed.

Section Methods.
Variable E : env.
Variable batch_size : Z.

(** A failed insert comes out of [_process_batch] as it is. *)
Lemma process_batch_fail (batch : list properties) (h : history) (e : exn) :
  add_batch E h batch = Some e ->
  _process_batch E batch h = (Raise e, h ++ [mk_event (CInsert batch) (Some e)]).
Proof.
  intros H. unfold _process_batch, catch, bind, ext. rewrite H. simpl.
  destruct e; reflexivity.
Qed.

Lemma process_batch_ok (batch : list properties) (h : history) :
  add_batch E h batch = None ->
  let h1 := h ++ [mk_event (CInsert batch) None] in
  _process_batch E batch h
    = (res_of_exn (sleep E h1), h ++ [mk_event (CInsert batch) None;
                                      mk_event CSleep (sleep E h1)]).
Proof.
  intros H. unfold _process_batch, catch, bind, ext. rewrite H. simpl.
  rewrite <- app_assoc. simpl app.
  destruct (sleep E _) as [[kind|]|]; reflexivity.
Qed.

(** [_process_batch] hands its batch to the backend once. *)
Lemma process_batch_inserts (batch : list properties) (h : history) :
  exists r d,
    _process_batch E batch h = (r, h ++ d) /\
    inserts d = [(batch, add_batch E h batch)].
Proof.
  destruct (add_batch E h batch) as [e|] eqn:H.
  - rewrite (process_batch_fail _ _ H). eauto.
  - rewrite (process_batch_ok _ _ H). eauto.
Qed.

Lemma create_backup_inserts (filename : str) (h : history) :
  exists r d, _create_backup E filename h = (r, h ++ d) /\ inserts d = [].
Proof.
  destruct (BackupProofs.create_backup_cases E filename h)
    as [(r & o & -> & _)|(r & o & f & s & -> & _)]; eauto.
Qed.

(** C3 (amended).  A failed batch insert comes out of [_process_batch] and
    reaches [process_pdf].  Inside the page loop the handler of the page
    catches it: the rest of that page is dropped, the pending records are
    kept, and the loop goes on with the next page.  When the failing flush
    is the one after the loop, the handler of the file catches it: no backup
    is made and [process_pdf] returns normally.  In both cases what was
    flushed before stays committed. *)
Theorem batch_failure_abandons_page (pdf_path : Path) (kind : string) :
  (forall batch h,
     add_batch E h batch = Some (Exception kind) ->
     _process_batch E batch h
       = (Raise (Exception kind), h ++ [failed_insert batch kind])) /\
  (forall page_num chunk_num chunk todo batch h,
     let pending :=
       batch ++ [mk_properties chunk (page_num + 1) (name pdf_path)
                               (chunk_num + 1)] in
     is_empty (strip chunk) = false ->
     (batch_size <= Z.of_nat (List.length pending))%Z ->
     add_batch E h pending = Some (Exception kind) ->
     chunk_loop E batch_size pdf_path page_num ((chunk_num, chunk) :: todo)
                batch h
       = (Raise (Exception kind), pending, h ++ [failed_insert pending kind])) /\
  (forall page_num rest batch h batch' h',
     page_body E batch_size pdf_path page_num batch h
       = (Raise (Exception kind), batch', h') ->
     page_loop E batch_size pdf_path (page_num :: rest) batch h
       = page_loop E batch_size pdf_path rest batch' h') /\
  (forall n h batch h1,
     open_pdf E h pdf_path = Ok n ->
     pages E batch_size pdf_path n (h ++ [mk_event (COpen pdf_path) None])
       = (Ok batch, h1) ->
     batch <> [] ->
     add_batch E h1 batch = Some (Exception kind) ->
     process_pdf E batch_size pdf_path h
       = (Ok tt, h1 ++ [failed_insert batch kind])) /\
  (forall h, exists d,
     snd (process_pdf E batch_size pdf_path h) = h ++ d /\
     committed (h ++ d) = committed h ++ committed d).
Proof.
  split; [|split; [|split; [|split]]].
  - intros batch h H. now apply process_batch_fail.
  - intros page_num chunk_num chunk todo batch h pending Hne Hfull Hfail.
    simpl chunk_loop. rewrite Hne. fold pending.
    apply Z.leb_le in Hfull. rewrite Hfull.
    now rewrite (process_batch_fail _ _ Hfail).
  - intros page_num rest batch h batch' h' H. simpl page_loop. now rewrite H.
  - intros n h batch h1 Hopen Hpages Hne Hfail.
    unfold process_pdf, process_pdf_body, catch, bind, ext.
    rewrite Hopen. simpl exn_of. rewrite Hpages.
    destruct batch as [|x batch]; [congruence|].
    now rewrite (process_batch_fail _ _ Hfail).
  - intros h.
    destruct (ProcessorProofs.process_pdf_shape E batch_size pdf_path h)
      as (r & o & d & -> & _).
    exists (mk_event (COpen pdf_path) o :: d). split; [reflexivity|].
    apply committed_app.
Qed.

End Methods.

(** *** When the backend accepts every batch *)

Section Accepting.
Variable E : env.
Variable batch_size : Z.
Variable pdf_path : Path.
Variable texts : nat -> res str.
Hypothesis batch_size_pos : (1 <= batch_size)%Z.
Hypothesis inserts_succeed : forall h batch, add_batch E h batch = None.
Hypothesis sleeps_succeed : forall h, sleep E h = None.
Hypothesis texts_fixed : forall h i, extract_text E h pdf_path i = texts i.
Hypothesis texts_calm : forall i, calm (texts i).

Lemma chunk_loop_full (page_num : nat) (todo : list (nat * str))
    (batch : list properties) (h : history) :
  (Z.of_nat (List.length batch) < batch_size)%Z ->
  exists batch' d,
    chunk_loop E batch_size pdf_path page_num todo batch h
      = (Ok tt, batch', h ++ d) /\
    Forall (is_full batch_size) (map fst (inserts d)) /\
    committed d = map fst (inserts d) /\
    (Z.of_nat (List.length batch') < batch_size)%Z /\
    sent d ++ batch' = batch ++ chunk_records pdf_path page_num todo.
Proof.
  revert batch h. induction todo as [|[chunk_num chunk] todo IH];
    intros batch h Hlt; simpl chunk_loop.
  - exists batch, []. rewrite !app_nil_r. repeat split; auto.
  - unfold chunk_records. simpl filter.
    destruct (is_empty (strip chunk)) eqn:Hblank; simpl negb; cbv iota.
    + apply IH. exact Hlt.
    + simpl map. fold (chunk_records pdf_path page_num todo).
      set (x := mk_properties chunk (page_num + 1) (name pdf_path) (chunk_num + 1)).
      assert (Hlen : List.length (batch ++ [x]) = S (List.length batch))
        by (rewrite length_app; simpl; lia).
      destruct (batch_size <=? Z.of_nat (List.length (batch ++ [x])))%Z eqn:Hfull.
      * apply Z.leb_le in Hfull.
        rewrite (process_batch_ok E _ _ (inserts_succeed h (batch ++ [x]))).
        cbv zeta. rewrite sleeps_succeed. simpl res_of_exn.
        destruct (IH [] (h ++ [mk_event (CInsert (batch ++ [x])) None;
                               mk_event CSleep None]) ltac:(simpl; lia))
          as (b2 & d2 & -> & Hall & Hcom & Hlt2 & Hsent).
        exists b2, ([mk_event (CInsert (batch ++ [x])) None;
                     mk_event CSleep None] ++ d2).
        rewrite app_assoc. split; [reflexivity|].
        simpl app. simpl inserts. simpl map. simpl committed.
        repeat split.
        -- constructor; [unfold is_full; lia | exact Hall].
        -- now rewrite Hcom.
        -- exact Hlt2.
        -- unfold sent in *. simpl inserts. simpl map. simpl List.concat.
           rewrite <- !app_assoc. simpl app in Hsent. rewrite Hsent.
           reflexivity.
      * apply Z.leb_gt in Hfull.
        destruct (IH (batch ++ [x]) h ltac:(lia))
          as (b2 & d2 & -> & Hall & Hcom & Hlt2 & Hsent).
        exists b2, d2. repeat split; auto.
        rewrite Hsent. now rewrite <- app_assoc.
Qed.

Lemma page_body_full (page_num : nat) (batch : list properties) (h : history) :
  (Z.of_nat (List.length batch) < batch_size)%Z ->
  exists r batch' d,
    page_body E batch_size pdf_path page_num batch h = (r, batch', h ++ d) /\
    calm r /\
    Forall (is_full batch_size) (map fst (inserts d)) /\
    committed d = map fst (inserts d) /\
    (Z.of_nat (List.length batch') < batch_size)%Z /\
    sent d ++ batch'
      = batch ++ page_records pdf_path page_num (texts page_num).
Proof.
  intros Hlt. unfold page_body, ext. rewrite texts_fixed.
  pose proof (@texts_calm page_num) as Hcalm.
  unfold page_records.
  destruct (texts page_num) as [text|[kind|]]; simpl exn_of.
  - destruct (is_empty text || is_empty (strip text)).
    + exists (Ok tt), batch, [mk_event (CExtract pdf_path page_num) None].
      rewrite app_nil_r. repeat split; auto; try discriminate.
    + destruct (chunk_loop_full page_num
                  (enumerate (_chunk_text text default_chunk_size)) batch
                  (h ++ [mk_event (CExtract pdf_path page_num) None]) Hlt)
        as (b2 & d2 & -> & Hall & Hcom & Hlt2 & Hsent).
      exists (Ok tt), b2, (mk_event (CExtract pdf_path page_num) None :: d2).
      rewrite <- app_assoc. simpl app.
      repeat split; auto. discriminate.
  - exists (Raise (Exception kind)), batch,
      [mk_event (CExtract pdf_path page_num) (Some (Exception kind))].
    rewrite app_nil_r. repeat split; auto; try discriminate.
  - contradiction Hcalm. reflexivity.
Qed.

Lemma page_loop_full (page_nums : list nat) (batch : list properties)
    (h : history) :
  (Z.of_nat (List.length batch) < batch_size)%Z ->
  exists batch' d,
    page_loop E batch_size pdf_path page_nums batch h
      = (Ok tt, batch', h ++ d) /\
    Forall (is_full batch_size) (map fst (inserts d)) /\
    committed d = map fst (inserts d) /\
    (Z.of_nat (List.length batch') < batch_size)%Z /\
    sent d ++ batch'
      = batch ++ flat_map (fun i => page_records pdf_path i (texts i)) page_nums.
Proof.
  revert batch h. induction page_nums as [|page_num rest IH];
    intros batch h Hlt; simpl page_loop.
  - exists batch, []. rewrite !app_nil_r. repeat split; auto.
  - destruct (page_body_full page_num batch h Hlt)
      as (r1 & b1 & d1 & -> & Hc1 & Hall1 & Hcom1 & Hlt1 & Hsent1).
    destruct (IH b1 (h ++ d1) Hlt1)
      as (b2 & d2 & Hrun2 & Hall2 & Hcom2 & Hlt2 & Hsent2).
    exists b2, (d1 ++ d2). rewrite app_assoc.
    split.
    { destruct r1 as [[]|[kind|]]; try exact Hrun2.
      contradiction Hc1. reflexivity. }
    rewrite inserts_app, map_app, committed_app, sent_app.
    repeat split.
    + apply Forall_app. auto.
    + now rewrite Hcom1, Hcom2.
    + exact Hlt2.
    + simpl flat_map. rewrite <- app_assoc, Hsent2, app_assoc, Hsent1.
      now rewrite <- app_assoc.
Qed.

(** With an accepting backend the batches of a file are its records cut in
    order into full batches, followed, when records remain, by one last
    batch that is not full. *)
Lemma batches_when_accepted (n : nat) (h : history) :
  open_pdf E h pdf_path = Ok n ->
  exists r d full rest,
    process_pdf E batch_size pdf_path h = (r, h ++ d) /\
    map fst (inserts d) = full ++ rest /\
    committed d = full ++ rest /\
    Forall (is_full batch_size) full /\
    (rest = [] \/
     exists b, rest = [b] /\ 1 <= List.length b /\
               (Z.of_nat (List.length b) < batch_size)%Z) /\
    List.concat (full ++ rest) = file_records pdf_path texts n.
Proof.
  intros Hopen.
  unfold process_pdf, process_pdf_body, catch, bind, ext, pages.
  rewrite Hopen. simpl exn_of.
  set (o := mk_event (COpen pdf_path) None).
  destruct (page_loop_full (seq 0 n) [] (h ++ [o]) ltac:(simpl; lia))
    as (b & d & -> & Hall & Hcom & Hlt & Hsent).
  simpl app in Hsent. fold (file_records pdf_path texts n) in Hsent.
  destruct b as [|x b].
  - unfold ret at 1.
    destruct (BackupProofs.create_backup_cases E (name pdf_path) ((h ++ [o]) ++ d))
      as [(r & q & Hrun & _)|(r & q & f & s & Hrun & _)]; rewrite Hrun.
    + exists (match r with Ok _ | Raise (Exception _) => Ok tt
                         | Raise KeyboardInterrupt => Raise KeyboardInterrupt end),
             (o :: d ++ [mk_event (CQuery (name pdf_path)) q]),
             (map fst (inserts d)), [].
      split.
      { rewrite <- !app_assoc. simpl app. destruct r as [v|[k|]]; reflexivity. }
      change (o :: d ++ [mk_event (CQuery (name pdf_path)) q])
        with ([o] ++ d ++ [mk_event (CQuery (name pdf_path)) q]).
      rewrite !inserts_app, !committed_app. simpl inserts. simpl committed.
      rewrite !app_nil_r. simpl app.
      repeat split; auto.
      rewrite app_nil_r in Hsent. exact Hsent.
    + exists (match r with Ok _ | Raise (Exception _) => Ok tt
                         | Raise KeyboardInterrupt => Raise KeyboardInterrupt end),
             (o :: d ++ [mk_event (CQuery (name pdf_path)) None;
                         mk_event (CWrite f s) q]),
             (map fst (inserts d)), [].
      split.
      { rewrite <- !app_assoc. simpl app. destruct r as [v|[k|]]; reflexivity. }
      change (o :: d ++ [mk_event (CQuery (name pdf_path)) None;
                         mk_event (CWrite f s) q])
        with ([o] ++ d ++ [mk_event (CQuery (name pdf_path)) None;
                           mk_event (CWrite f s) q]).
      rewrite !inserts_app, !committed_app. simpl inserts. simpl committed.
      rewrite !app_nil_r. simpl app.
      repeat split; auto.
      rewrite app_nil_r in Hsent. exact Hsent.
  - rewrite (process_batch_ok E _ _ (inserts_succeed ((h ++ [o]) ++ d) (x :: b))).
    cbv zeta. rewrite sleeps_succeed. simpl res_of_exn.
    set (tail := [mk_event (CInsert (x :: b)) None; mk_event CSleep None]).
    destruct (BackupProofs.create_backup_cases E (name pdf_path) ((h ++ [o]) ++ d ++ tail))
      as [(r & q & Hrun & _)|(r & q & f & s & Hrun & _)].
    + exists (match r with Ok _ | Raise (Exception _) => Ok tt
                         | Raise KeyboardInterrupt => Raise KeyboardInterrupt end),
             ([o] ++ d ++ tail ++ [mk_event (CQuery (name pdf_path)) q]),
             (map fst (inserts d)), [x :: b].
      split.
      { replace (((h ++ [o]) ++ d) ++ tail) with ((h ++ [o]) ++ d ++ tail)
          by now rewrite <- !app_assoc.
        rewrite Hrun. rewrite <- !app_assoc. destruct r as [v|[k|]]; reflexivity. }
      rewrite !inserts_app, !committed_app. simpl inserts. simpl committed.
      simpl app. rewrite map_app. simpl map. rewrite Hcom.
      repeat split; auto.
      * right. exists (x :: b). repeat split; auto. simpl. lia.
      * rewrite concat_app. simpl List.concat. rewrite app_nil_r. exact Hsent.
    + exists (match r with Ok _ | Raise (Exception _) => Ok tt
                         | Raise KeyboardInterrupt => Raise KeyboardInterrupt end),
             ([o] ++ d ++ tail ++ [mk_event (CQuery (name pdf_path)) None;
                                   mk_event (CWrite f s) q]),
             (map fst (inserts d)), [x :: b].
      split.
      { replace (((h ++ [o]) ++ d) ++ tail) with ((h ++ [o]) ++ d ++ tail)
          by now rewrite <- !app_assoc.
        rewrite Hrun. rewrite <- !app_assoc. destruct r as [v|[k|]]; reflexivity. }
      rewrite !inserts_app, !committed_app. simpl inserts. simpl committed.
      simpl app. rewrite map_app. simpl map. rewrite Hcom.
      repeat split; auto.
      * right. exists (x :: b). repeat split; auto. simpl. lia.
      * rewrite concat_app. simpl List.concat. rewrite app_nil_r. exact Hsent.
Qed.

End Accepting.

Section Flush.
Variable E : env.
Variable batch_size : Z.
Variable pdf_path : Path.

(** After the page loop, a flush is made exactly when records are pending. *)
Lemma trailing_flush (n : nat) (h : history) (batch : list properties)
    (h1 : history) :
  open_pdf E h pdf_path = Ok n ->
  pages E batch_size pdf_path n (h ++ [mk_event (COpen pdf_path) None])
    = (Ok batch, h1) ->
  exists r d,
    process_pdf E batch_size pdf_path h = (r, h1 ++ d) /\
    inserts d = match batch with
                | [] => []
                | _ => [(batch, add_batch E h1 batch)]
                end.
Proof.
  intros Hopen Hpages.
  unfold process_pdf, process_pdf_body, catch, bind, ext.
  rewrite Hopen. simpl exn_of. rewrite Hpages.
  assert (Hflush : exists r2 d2,
    (match batch with [] => ret tt | _ => _process_batch E batch end) h1
      = (r2, h1 ++ d2) /\
    inserts d2 = match batch with
                 | [] => []
                 | _ => [(batch, add_batch E h1 batch)]
                 end).
  { destruct batch as [|x b].
    - exists (Ok tt), []. rewrite app_nil_r. split; reflexivity.
    - apply process_batch_inserts. }
  destruct Hflush as (r2 & d2 & -> & Hi2).
  destruct r2 as [[]|e].
  - destruct (create_backup_inserts E (name pdf_path) (h1 ++ d2))
      as (r3 & d3 & -> & Hi3).
    exists (match r3 with Ok _ | Raise (Exception _) => Ok tt
                        | Raise KeyboardInterrupt => Raise KeyboardInterrupt end),
           (d2 ++ d3).
    rewrite app_assoc, inserts_app, Hi3, app_nil_r.
    split; [destruct r3 as [v|[k|]]; reflexivity | exact Hi2].
  - exists (match e with Exception _ => Ok tt
                       | KeyboardInterrupt => Raise KeyboardInterrupt end), d2.
    split; [destruct e; reflexivity | exact Hi2].
Qed.

(** C7.  In the page loop, once a record is appended, a flush is made
    exactly when the pending list has reached [batch_size], and a flush that
    succeeds leaves the list empty; after the loop a flush is made exactly
    when records are pending.  Hence, when [batch_size] is at least 1 and
    the backend accepts every batch, the batches of a file are its records
    cut in order into batches of exactly [batch_size] records, followed when
    records remain by one last batch of 1 to [batch_size - 1] records, and
    by no flush when none remain. *)
Theorem flush_at_batch_size :
  (forall page_num chunk_num chunk todo batch h,
     let pending :=
       batch ++ [mk_properties chunk (page_num + 1) (name pdf_path)
                               (chunk_num + 1)] in
     let flushed := [mk_event (CInsert pending) None; mk_event CSleep None] in
     is_empty (strip chunk) = false ->
     ((Z.of_nat (List.length pending) < batch_size)%Z ->
      chunk_loop E batch_size pdf_path page_num ((chunk_num, chunk) :: todo)
                 batch h
        = chunk_loop E batch_size pdf_path page_num todo pending h) /\
     ((batch_size <= Z.of_nat (List.length pending))%Z ->
      add_batch E h pending = None ->
      sleep E (h ++ [mk_event (CInsert pending) None]) = None ->
      chunk_loop E batch_size pdf_path page_num ((chunk_num, chunk) :: todo)
                 batch h
        = chunk_loop E batch_size pdf_path page_num todo [] (h ++ flushed))) /\
  (forall n h batch h1,
     open_pdf E h pdf_path = Ok n ->
     pages E batch_size pdf_path n (h ++ [mk_event (COpen pdf_path) None])
       = (Ok batch, h1) ->
     exists r d,
       process_pdf E batch_size pdf_path h = (r, h1 ++ d) /\
       inserts d = match batch with
                   | [] => []
                   | _ => [(batch, add_batch E h1 batch)]
                   end) /\
  (forall texts n h,
     (1 <= batch_size)%Z ->
     (forall h batch, add_batch E h batch = None) ->
     (forall h, sleep E h = None) ->
     (forall h i, extract_text E h pdf_path i = texts i) ->
     (forall i, calm (texts i)) ->
     open_pdf E h pdf_path = Ok n ->
     exists r d full rest,
       process_pdf E batch_size pdf_path h = (r, h ++ d) /\
       map fst (inserts d) = full ++ rest /\
       committed d = full ++ rest /\
       Forall (is_full batch_size) full /\
       (rest = [] \/
        exists b, rest = [b] /\ 1 <= List.length b /\
                  (Z.of_nat (List.length b) < batch_size)%Z) /\
       List.concat (full ++ rest) = file_records pdf_path texts n).
Proof.
  split; [|split].
  - intros page_num chunk_num chunk todo batch h pending flushed Hne. split.
    + intros Hlt. simpl chunk_loop. rewrite Hne. fold pending.
      apply Z.leb_gt in Hlt. now rewrite Hlt.
    + intros Hfull Hins Hsleep. simpl chunk_loop. rewrite Hne. fold pending.
      apply Z.leb_le in Hfull. rewrite Hfull.
      rewrite (process_batch_ok E _ _ Hins). cbv zeta. now rewrite Hsleep.
  - intros n h batch h1. apply trailing_flush.
  - intros texts n h Hbs Hins Hsleep Htexts Hcalm Hopen.
    now apply batches_when_accepted.
Qed.

End Flush.

Lemma flush_at_batch_size_witness :
  let E := Samples.sample_env Samples.five_pages [] (Ok Samples.two_stored) in
  exists r d full rest,
    process_pdf E 2 Samples.a_pdf [] = (r, [] ++ d) /\
    map fst (inserts d) = full ++ rest /\
    committed d = full ++ rest /\
    Forall (is_full 2) full /\
    (rest = [] \/
     exists b, rest = [b] /\ 1 <= List.length b /\
               (Z.of_nat (List.length b) < 2)%Z) /\
    List.concat (full ++ rest)
      = file_records Samples.a_pdf (Samples.texts_of Samples.five_pages) 5.
Proof.
  intros E.
  destruct (@flush_at_batch_size E 2 Samples.a_pdf) as (_ & _ & H).
  apply (H (Samples.texts_of Samples.five_pages) 5 []).
  - lia.
  - reflexivity.
  - reflexivity.
  - reflexivity.
  - intros i. unfold calm, Samples.texts_of.
    do 6 (destruct i as [|i]; [discriminate|]). discriminate.
  - reflexivity.
Defined.

(** *** Where a record comes from *)

Lemma lstrip_blank (s : str) : Spec.blank s = true -> lstrip s = [].
Proof.
  induction s as [|c s IH]; simpl; intros H; [reflexivity|].
  apply andb_prop in H. destruct H as [Hc Hs]. rewrite Hc. auto.
Qed.

Lemma strip_blank (s : str) : Spec.blank s = true -> strip s = [].
Proof. intros H. unfold strip. now rewrite (lstrip_blank _ H). Qed.

Lemma not_blank (text : str) :
  is_empty text || is_empty (strip text) = false -> Spec.blank text = false.
Proof.
  intros H. destruct (Spec.blank text) eqn:Hb; [|reflexivity].
  rewrite (strip_blank _ Hb) in H. simpl in H. now rewrite orb_true_r in H.
Qed.

Lemma combine_seq_nth {A} (l : list A) (s : nat) :
  Forall (fun jc => s <= fst jc /\ nth_error l (fst jc - s) = Some (snd jc))
         (combine (seq s (List.length l)) l).
Proof.
  revert s. induction l as [|a l IH]; intros s; simpl; constructor.
  - simpl. split; [lia|]. now rewrite Nat.sub_diag.
  - eapply Forall_impl; [|apply (IH (S s))].
    intros [j c] [Hle Hnth]. simpl in *. split; [lia|].
    replace (j - s) with (S (j - S s)) by lia. exact Hnth.
Qed.

Lemma enumerate_nth {A} (l : list A) :
  Forall (fun jc => nth_error l (fst jc) = Some (snd jc)) (enumerate l).
Proof.
  eapply Forall_impl; [|apply (combine_seq_nth l 0)].
  intros [j c] [_ H]. simpl in *. now rewrite Nat.sub_0_r in H.
Qed.

Section Provenance.
Variable E : env.
Variable batch_size : Z.
Variable pdf_path : Path.
Variable Q : properties -> Prop.

Lemma chunk_loop_sent (page_num : nat) (todo : list (nat * str))
    (batch : list properties) (h : history) :
  Forall Q batch ->
  Forall Q (chunk_records pdf_path page_num todo) ->
  exists r batch' d,
    chunk_loop E batch_size pdf_path page_num todo batch h
      = (r, batch', h ++ d) /\
    Forall Q batch' /\ Forall Q (sent d).
Proof.
  revert batch h. induction todo as [|[chunk_num chunk] todo IH];
    intros batch h Hb Ht; simpl chunk_loop.
  - exists (Ok tt), batch, []. rewrite app_nil_r. repeat split; auto.
  - unfold chunk_records in Ht. simpl filter in Ht.
    destruct (is_empty (strip chunk)) eqn:Hblank; simpl negb in Ht; cbv iota in Ht.
    + apply IH; assumption.
    + simpl map in Ht. inversion Ht as [|? ? Hx Ht']; subst.
      set (x := mk_properties chunk (page_num + 1) (name pdf_path) (chunk_num + 1)) in *.
      assert (Hb1 : Forall Q (batch ++ [x])) by (apply Forall_app; auto).
      destruct (batch_size <=? Z.of_nat (List.length (batch ++ [x])))%Z.
      * destruct (process_batch_inserts E (batch ++ [x]) h) as (r1 & d1 & -> & Hi1).
        assert (Hs1 : Forall Q (sent d1)).
        { unfold sent. rewrite Hi1. simpl. now rewrite app_nil_r. }
        destruct r1 as [[]|e].
        -- destruct (IH [] (h ++ d1) ltac:(constructor) Ht')
             as (r2 & b2 & d2 & -> & Hb2 & Hs2).
           exists r2, b2, (d1 ++ d2). rewrite app_assoc, sent_app.
           repeat split; auto. apply Forall_app. auto.
        -- exists (Raise e), (batch ++ [x]), d1. auto.
      * apply IH; assumption.
Qed.

End Provenance.

Section Pages.
Variable E : env.
Variable batch_size : Z.
Variable pdf_path : Path.
Variable texts : nat -> res str.
Variable n : nat.
Hypothesis texts_fixed : forall h i, extract_text E h pdf_path i = texts i.

Lemma page_records_from_page (page_num : nat) (text : str) :
  page_num < n -> texts page_num = Ok text ->
  is_empty text || is_empty (strip text) = false ->
  Forall (from_page pdf_path texts n)
    (chunk_records pdf_path page_num
       (enumerate (_chunk_text text default_chunk_size))).
Proof.
  intros Hlt Htext Hnb. unfold chunk_records.
  apply Forall_forall. intros x Hx.
  apply in_map_iff in Hx. destruct Hx as ([j c] & <- & Hin).
  apply filter_In in Hin. destruct Hin as [Hin _].
  pose proof (enumerate_nth (_chunk_text text default_chunk_size)) as Hall.
  rewrite Forall_forall in Hall. specialize (Hall _ Hin). simpl in Hall.
  exists page_num, text, j. simpl.
  repeat split; auto. now apply not_blank.
Qed.

Lemma page_body_sent (page_num : nat) (batch : list properties) (h : history) :
  page_num < n ->
  Forall (from_page pdf_path texts n) batch ->
  exists r batch' d,
    page_body E batch_size pdf_path page_num batch h = (r, batch', h ++ d) /\
    Forall (from_page pdf_path texts n) batch' /\
    Forall (from_page pdf_path texts n) (sent d).
Proof.
  intros Hlt Hb. unfold page_body, ext. rewrite texts_fixed.
  destruct (texts page_num) as [text|e] eqn:Htext; simpl exn_of.
  - destruct (is_empty text || is_empty (strip text)) eqn:Hnb.
    + exists (Ok tt), batch, [mk_event (CExtract pdf_path page_num) None].
      repeat split; auto.
    + destruct (chunk_loop_sent E batch_size pdf_path page_num
                  (enumerate (_chunk_text text default_chunk_size))
                  (h ++ [mk_event (CExtract pdf_path page_num) None]) Hb
                  (page_records_from_page Hlt Htext Hnb))
        as (r2 & b2 & d2 & -> & Hb2 & Hs2).
      exists r2, b2, (mk_event (CExtract pdf_path page_num) None :: d2).
      rewrite <- app_assoc. repeat split; auto.
  - exists (Raise e), batch, [mk_event (CExtract pdf_path page_num) (Some e)].
    repeat split; auto.
Qed.

Lemma page_loop_sent (page_nums : list nat) (batch : list properties)
    (h : history) :
  Forall (fun i => i < n) page_nums ->
  Forall (from_page pdf_path texts n) batch ->
  exists r batch' d,
    page_loop E batch_size pdf_path page_nums batch h = (r, batch', h ++ d) /\
    Forall (from_page pdf_path texts n) batch' /\
    Forall (from_page pdf_path texts n) (sent d).
Proof.
  revert batch h. induction page_nums as [|page_num rest IH];
    intros batch h Hn Hb; simpl page_loop.
  - exists (Ok tt), batch, []. rewrite app_nil_r. repeat split; auto.
  - inversion Hn as [|? ? Hlt Hn']; subst.
    destruct (page_body_sent h Hlt Hb) as (r1 & b1 & d1 & -> & Hb1 & Hs1).
    destruct (IH b1 (h ++ d1) Hn' Hb1) as (r2 & b2 & d2 & Hrun & Hb2 & Hs2).
    destruct r1 as [[]|[kind|]].
    + exists r2, b2, (d1 ++ d2). rewrite app_assoc, sent_app.
      repeat split; auto. apply Forall_app. auto.
    + exists r2, b2, (d1 ++ d2). rewrite app_assoc, sent_app.
      repeat split; auto. apply Forall_app. auto.
    + exists (Raise KeyboardInterrupt), b1, d1. auto.
Qed.

(** C2 (amended).  Every record [process_pdf] hands to the backend carries
    as [page_number] the position of its page in the file, counted from 1,
    and that page has text that is neither empty nor all whitespace: pages
    without text contribute no record, and their positions are missing from
    the page numbers of the records. *)
Theorem records_carry_page_position (h : history) :
  open_pdf E h pdf_path = Ok n ->
  exists r d,
    process_pdf E batch_size pdf_path h = (r, h ++ d) /\
    Forall (from_page pdf_path texts n) (sent d).
Proof.
  intros Hopen.
  unfold process_pdf, process_pdf_body, catch, bind, ext, pages.
  rewrite Hopen. simpl exn_of.
  set (o := mk_event (COpen pdf_path) None).
  assert (Hseq : Forall (fun i => i < n) (seq 0 n)).
  { apply Forall_forall. intros i Hi. apply in_seq in Hi. lia. }
  destruct (page_loop_sent (h ++ [o]) Hseq (Forall_nil _))
    as (r1 & b & d & -> & Hb & Hs).
  destruct r1 as [[]|e].
  2:{ exists (match e with Exception _ => Ok tt
                         | KeyboardInterrupt => Raise KeyboardInterrupt end),
             (o :: d).
      rewrite <- app_assoc. split; [destruct e; reflexivity|exact Hs]. }
  assert (Hflush : exists r2 d2,
    (match b with [] => ret tt | _ => _process_batch E b end) ((h ++ [o]) ++ d)
      = (r2, ((h ++ [o]) ++ d) ++ d2) /\
    Forall (from_page pdf_path texts n) (sent d2)).
  { destruct b as [|x b].
    - exists (Ok tt), []. rewrite app_nil_r. split; [reflexivity|constructor].
    - destruct (process_batch_inserts E (x :: b) ((h ++ [o]) ++ d))
        as (r2 & d2 & -> & Hi2).
      exists r2, d2. split; [reflexivity|].
      unfold sent. rewrite Hi2. simpl. now rewrite app_nil_r. }
  destruct Hflush as (r2 & d2 & -> & Hs2).
  destruct r2 as [[]|e].
  2:{ exists (match e with Exception _ => Ok tt
                         | KeyboardInterrupt => Raise KeyboardInterrupt end),
             (o :: d ++ d2).
      rewrite <- !app_assoc. split; [destruct e; reflexivity|].
      change (o :: d ++ d2) with ([o] ++ d ++ d2). rewrite !sent_app.
      simpl. apply Forall_app. auto. }
  destruct (create_backup_inserts E (name pdf_path) (((h ++ [o]) ++ d) ++ d2))
    as (r3 & d3 & -> & Hi3).
  exists (match r3 with Ok _ | Raise (Exception _) => Ok tt
                      | Raise KeyboardInterrupt => Raise KeyboardInterrupt end),
         (o :: d ++ d2 ++ d3).
  rewrite <- !app_assoc. split; [destruct r3 as [v|[k|]]; reflexivity|].
  change (o :: d ++ d2 ++ d3) with ([o] ++ d ++ d2 ++ d3). rewrite !sent_app.
  simpl. repeat (apply Forall_app; split); auto.
  unfold sent. rewrite Hi3. constructor.
Qed.

End Pages.

Lemma records_carry_page_position_witness :
  let E := Samples.sample_env Samples.blank_in_the_middle []
                              (Ok Samples.two_stored) in
  exists r d,
    process_pdf E 50 Samples.a_pdf [] = (r, [] ++ d) /\
    Forall (from_page Samples.a_pdf
              (Samples.texts_of Samples.blank_in_the_middle) 3) (sent d).
Proof.
  intros E.
  apply (@records_carry_page_position E 50 Samples.a_pdf
           (Samples.texts_of Samples.blank_in_the_middle) 3).
  - reflexivity.
  - reflexivity.
Defined.

(** C2 (as stated) fails.  In a file of three pages whose second page is
    blank, the records carry the page numbers 1 and 3: page 2 is missing. *)
Lemma page_numbers_have_gaps :
  let E := Samples.sample_env Samples.blank_in_the_middle []
                              (Ok Samples.two_stored) in
  let d := snd (process_pdf E 50 Samples.a_pdf []) in
  map page_number (sent d) = [1; 3] /\
  ~ contiguous_from_1 (map page_number (sent d)).
Proof.
  intros E d.
  assert (Hd : map page_number (sent d) = [1; 3]) by (vm_compute; reflexivity).
  split; [exact Hd|]. rewrite Hd. intros H.
  specialize (H 3 ltac:(simpl; auto) 2 ltac:(lia)).
  simpl in H. intuition discriminate.
Qed.

Lemma batch_failure_abandons_page_witness :
  let E := Samples.sample_env [Ok (of_string "alpha"); Ok (of_string "beta")]
                              [0] (Ok Samples.two_stored) in
  let kind := "UnexpectedStatusCodeException"%string in
  let x := mk_properties (of_string "alpha") 1 (Samples.key "a.pdf") 1 in
  let y := mk_properties (of_string "beta") 2 (Samples.key "a.pdf") 1 in
  chunk_loop E 1 Samples.a_pdf 0 [(0, of_string "alpha"); (1, of_string "beta")] [] []
    = (Raise (Exception kind), [x], [failed_insert [x] kind]) /\
  process_pdf (Samples.sample_env [Ok (of_string "alpha")] [0] (Ok Samples.two_stored))
              50 Samples.a_pdf []
    = (Ok tt, [mk_event (COpen Samples.a_pdf) None;
               mk_event (CExtract Samples.a_pdf 0) None;
               failed_insert [x] kind]).
Proof.
  intros E kind x y.
  destruct (@batch_failure_abandons_page E 1 Samples.a_pdf kind)
    as (_ & Hloop & _).
  destruct (@batch_failure_abandons_page
              (Samples.sample_env [Ok (of_string "alpha")] [0] (Ok Samples.two_stored))
              50 Samples.a_pdf kind)
    as (_ & _ & _ & Htrail & _).
  split.
  - apply (Hloop 0 0 (of_string "alpha") [(1, of_string "beta")] [] []).
    + reflexivity.
    + simpl. lia.
    + reflexivity.
  - apply (Htrail 1 [] [x]
             [mk_event (COpen Samples.a_pdf) None;
              mk_event (CExtract Samples.a_pdf 0) None]).
    + reflexivity.
    + reflexivity.
    + discriminate.
    + reflexivity.
Defined.

(** C3 (as stated) fails.  With a batch size of 1 and two pages of one chunk
    each, let the first insert fail: the second page is still read, and its
    record is sent together with the one kept from the first page. *)
Lemma batch_failure_does_not_abandon_file :
  let E := Samples.sample_env [Ok (of_string "alpha"); Ok (of_string "beta")]
                              [0] (Ok Samples.two_stored) in
  ~ abandoned_after (snd (process_pdf E 1 Samples.a_pdf [])).
Proof.
  intros E H. unfold abandoned_after in H.
  specialize (H [mk_event (COpen Samples.a_pdf) None;
                 mk_event (CExtract Samples.a_pdf 0) None]
                [mk_properties (of_string "alpha") 1 (Samples.key "a.pdf") 1]
                "UnexpectedStatusCodeException"%string
                (skipn 3 (snd (process_pdf E 1 Samples.a_pdf [])))).
  assert (Hd : snd (process_pdf E 1 Samples.a_pdf []) =
               [mk_event (COpen Samples.a_pdf) None;
                mk_event (CExtract Samples.a_pdf 0) None] ++
               failed_insert
                 [mk_properties (of_string "alpha") 1 (Samples.key "a.pdf") 1]
                 "UnexpectedStatusCodeException"
               :: skipn 3 (snd (process_pdf E 1 Samples.a_pdf [])))
    by (vm_compute; reflexivity).
  destruct (H Hd) as [Hex _].
  vm_compute in Hex. discriminate Hex.
Qed.

End BatchProofs.

(** ** More on the chunker *)

Module ChunkerMore.
Import PyStr Chunker Spec ChunkerProofs.

(** *** Chunks carry no whitespace at their ends *)

Lemma lstrip_head (c : ascii) (s : str) :
  isspace c = false -> lstrip (c :: s) = c :: s.
Proof. intros H. simpl. now rewrite H. Qed.

Lemma nospace_In (w : str) (c : ascii) :
  nospace w = true -> In c w -> isspace c = false.
Proof.
  unfold nospace. rewrite forallb_forall. intros H Hc.
  apply negb_true_iff. now apply H.
Qed.

Lemma join_head (g : list str) :
  g <> [] -> Forall (fun w => wordb w = true) g ->
  exists c s, join g = c :: s /\ isspace c = false.
Proof.
  intros Hne Hall. destruct g as [|w g]; [congruence|].
  inversion Hall as [|? ? Hw _]; subst.
  apply wordb_inv in Hw. destruct Hw as [Hwne Hns].
  destruct w as [|c w]; [congruence|].
  assert (Hc : isspace c = false) by (eapply nospace_In; eauto; now left).
  destruct g as [|w2 g].
  - exists c, w. auto.
  - exists c, (w ++ space :: join (w2 :: g)). auto.
Qed.

Lemma join_last (g : list str) :
  g <> [] -> Forall (fun w => wordb w = true) g ->
  exists c s, rev (join g) = c :: s /\ isspace c = false.
Proof.
  induction g as [|w g IH]; intros Hne Hall; [congruence|].
  inversion Hall as [|? ? Hw Hg]; subst.
  destruct g as [|w2 g].
  - simpl join. apply wordb_inv in Hw. destruct Hw as [Hwne Hns].
    destruct (rev_nonempty Hwne) as (c & s & Hrev).
    exists c, s. split; [exact Hrev|].
    eapply nospace_In; eauto. apply in_rev. rewrite Hrev. now left.
  - destruct (IH ltac:(discriminate) Hg) as (c & s & Hrev & Hc).
    rewrite join_cons by discriminate.
    rewrite rev_app_distr.
    change (rev (space :: join (w2 :: g)))
      with (rev (join (w2 :: g)) ++ [space]).
    rewrite Hrev.
    exists c, ((s ++ [space]) ++ rev w). auto.
Qed.

Lemma strip_join (g : list str) :
  g <> [] -> Forall (fun w => wordb w = true) g -> strip (join g) = join g.
Proof.
  intros Hne Hall.
  destruct (join_head Hne Hall) as (c & s & Hj & Hc).
  destruct (join_last Hne Hall) as (c' & s' & Hr & Hc').
  unfold strip, rstrip. rewrite Hj, (@lstrip_head c s Hc), <- Hj.
  rewrite Hr, (@lstrip_head c' s' Hc'), <- Hr. apply rev_involutive.
Qed.

(** Every segment is the join of a non-empty group of words of the text. *)
Lemma chunk_is_group (text : str) (n : Z) (chunk : str) :
  In chunk (_chunk_text text n) ->
  exists g, chunk = join g /\ g <> [] /\ Forall (fun w => wordb w = true) g.
Proof.
  intros Hin.
  destruct (chunk_text_groups text n) as (gs & Hc & Hne & _ & Hcat).
  rewrite Hc in Hin. apply in_map_iff in Hin. destruct Hin as (g & <- & Hg).
  exists g. split; [reflexivity|]. rewrite Forall_forall in Hne.
  split; [now apply Hne|].
  apply Forall_forall. intros w Hw.
  pose proof (split_words text) as Hall. rewrite <- Hcat in Hall.
  rewrite Forall_forall in Hall. apply Hall. apply in_concat. eauto.
Qed.

(** X1.  A chunk is never empty and never starts or ends with whitespace:
    [chunk.strip()] is the chunk itself, and the words of a chunk are
    separated by exactly one space. *)
Theorem chunk_is_stripped (text : str) (chunk_size : Z) (chunk : str) :
  In chunk (_chunk_text text chunk_size) ->
  chunk <> [] /\ strip chunk = chunk /\ join (split chunk) = chunk.
Proof.
  intros Hin. destruct (@chunk_is_group text chunk_size chunk Hin) as (g & -> & Hne & Hall).
  split; [|split].
  - destruct (join_head Hne Hall) as (c & s & -> & _). discriminate.
  - now apply strip_join.
  - now rewrite split_join.
Qed.

Lemma chunk_is_stripped_witness :
  let chunk := of_string "not to be" in
  chunk <> [] /\ strip chunk = chunk /\ join (split chunk) = chunk.
Proof.
  apply (@chunk_is_stripped (of_string "  to be  or not	to be ") 9).
  vm_compute. right. left. reflexivity.
Defined.

(** *** How many chunks *)

Lemma split_go_nil (s cur : str) : split_go cur s = [] -> cur = [] /\ blank s = true.
Proof.
  revert cur. induction s as [|c s IH]; intros cur H; simpl in *.
  - destruct cur; [auto | discriminate].
  - destruct (isspace c) eqn:Hc.
    + destruct cur; [|discriminate]. destruct (IH [] H). auto.
    + destruct (IH _ H) as [Hcur _]. discriminate.
Qed.

Lemma length_concat_nonempty {A} (gs : list (list A)) :
  Forall (fun g => g <> []) gs -> List.length gs <= List.length (List.concat gs).
Proof.
  induction 1 as [|g gs Hg _ IH]; simpl; [lia|].
  rewrite length_app. destruct g; [congruence|]. simpl. lia.
Qed.

(** X2.  There are chunks exactly when the text has a word (it is not empty
    or all whitespace), and never more chunks than words. *)
Theorem chunk_count (text : str) (chunk_size : Z) :
  (_chunk_text text chunk_size = [] <-> blank text = true) /\
  List.length (_chunk_text text chunk_size) <= List.length (split text).
Proof.
  destruct (chunk_text_groups text chunk_size) as (gs & Hc & Hne & _ & Hcat).
  split.
  - split.
    + intros Hnil. rewrite Hnil in Hc. destruct gs; [|discriminate].
      simpl in Hcat. symmetry in Hcat. now apply split_go_nil in Hcat.
    + apply chunk_text_blank.
  - rewrite Hc, length_map, <- Hcat. now apply length_concat_nonempty.
Qed.

(** *** Texts that fit, and sizes too small for any word *)

(** The size the loop has counted once it has read [words] into one chunk. *)
Lemma loop_fits (n : Z) (words : list str) (st : state) :
  (current_size st + len (join words) + 1 <= n)%Z ->
  (0 <= current_size st)%Z ->
  chunks (loop n words st) = chunks st /\
  current_chunk (loop n words st) = current_chunk st ++ words.
Proof.
  revert st. induction words as [|w words IH]; intros st Hfit Hpos.
  - simpl. now rewrite app_nil_r.
  - change (loop n (w :: words) st) with (loop n words (step n st w)).
    pose proof (len_nonneg w) as Hw. pose proof (len_nonneg (join words)) as Hj.
    assert (Hlen : (len (join (w :: words)) >= len w)%Z /\
                   (words <> [] -> len (join (w :: words))
                                   = len w + 1 + len (join words))%Z).
    { destruct words as [|w2 words].
      - simpl. split; [lia | congruence].
      - rewrite join_cons by discriminate. rewrite len_app, len_cons.
        split; [lia | intros _; lia]. }
    destruct Hlen as [Hge Heq].
    unfold step at 1 2.
    assert (Hcmp : (current_size st + (len w + 1) >? n)%Z = false)
      by (rewrite Z.gtb_ltb; apply Z.ltb_ge; lia).
    rewrite Hcmp.
    destruct words as [|w2 words].
    + simpl. auto.
    + specialize (Heq ltac:(discriminate)).
      set (st' := mk_state (chunks st) (current_chunk st ++ [w])
                           (current_size st + (len w + 1))).
      assert (Hfit' : (current_size st' + len (join (w2 :: words)) + 1 <= n)%Z)
        by (unfold st'; cbn [current_size]; lia).
      assert (Hpos' : (0 <= current_size st')%Z)
        by (unfold st'; cbn [current_size]; lia).
      destruct (IH st' Hfit' Hpos') as [H1 H2].
      rewrite H1, H2. simpl. now rewrite <- app_assoc.
Qed.

(** X3.  A text whose words, joined by single spaces, take at most
    [chunk_size - 1] characters is not cut: it gives one chunk, the joined
    words. *)
Theorem chunk_text_fits (text : str) (chunk_size : Z) :
  blank text = false ->
  (len (join (split text)) + 1 <= chunk_size)%Z ->
  _chunk_text text chunk_size = [join (split text)].
Proof.
  intros Hnb Hfit. unfold _chunk_text.
  assert (Hfit0 : (current_size init + len (join (split text)) + 1 <= chunk_size)%Z)
    by (simpl; lia).
  assert (Hpos0 : (0 <= current_size init)%Z) by (simpl; lia).
  destruct (@loop_fits chunk_size (split text) init Hfit0 Hpos0) as [H1 H2].
  rewrite H1, H2. simpl.
  destruct (split text) as [|w ws] eqn:Hs; [|reflexivity].
  apply split_go_nil in Hs. destruct Hs as [_ Hb]. congruence.
Qed.

Lemma chunk_text_fits_witness :
  let text := of_string "  to be  or not	to be " in
  _chunk_text text 19 = [join (split text)].
Proof.
  apply (@chunk_text_fits (of_string "  to be  or not	to be ") 19).
  - reflexivity.
  - vm_compute. discriminate.
Defined.

Lemma loop_tiny (n : Z) (words : list str) (st : state) :
  (n <= 1)%Z -> (0 <= current_size st)%Z ->
  Forall (fun w => wordb w = true) words ->
  flush (chunks (loop n words st)) (current_chunk (loop n words st))
    = flush (chunks st) (current_chunk st) ++ map (fun w => w) words.
Proof.
  intros Hn. revert st. induction words as [|w words IH]; intros st Hpos Hall.
  - simpl. now rewrite app_nil_r.
  - change (loop n (w :: words) st) with (loop n words (step n st w)).
    inversion Hall as [|? ? Hw Hws]; subst.
    apply wordb_inv in Hw. destruct Hw as [Hne _].
    assert (Hlen : (1 <= len w)%Z).
    { unfold len. destruct w; [congruence|]. simpl List.length. lia. }
    unfold step at 1 2.
    assert (Hcmp : (current_size st + (len w + 1) >? n)%Z = true)
      by (rewrite Z.gtb_ltb; apply Z.ltb_lt; lia).
    rewrite Hcmp.
    rewrite IH by (simpl; auto; lia).
    simpl chunks. simpl current_chunk. simpl map.
    unfold flush at 2. simpl.
    destruct (current_chunk st); simpl; now rewrite <- ?app_assoc.
Qed.

(** X4.  With a [chunk_size] of 1 or less no two words fit together: every
    word is a chunk of its own, whole. *)
Theorem chunk_text_tiny (text : str) (chunk_size : Z) :
  (chunk_size <= 1)%Z -> _chunk_text text chunk_size = split text.
Proof.
  intros Hn. unfold _chunk_text.
  assert (Hpos0 : (0 <= current_size init)%Z) by (simpl; lia).
  rewrite (@loop_tiny chunk_size (split text) init Hn Hpos0 (split_words text)).
  simpl. apply map_id.
Qed.

Lemma chunk_text_tiny_witness :
  _chunk_text (of_string "to be or not") 0 = split (of_string "to be or not").
Proof. apply (@chunk_text_tiny (of_string "to be or not") 0). lia. Defined.

(** *** Re-chunking *)

(** X5.  The chunks depend on the words of the text only, so chunking the
    chunks joined by spaces gives the same chunks again. *)
Theorem chunk_text_fixed_point (text text' : str) (chunk_size : Z) :
  (split text = split text' ->
   _chunk_text text chunk_size = _chunk_text text' chunk_size) /\
  _chunk_text (join (_chunk_text text chunk_size)) chunk_size
    = _chunk_text text chunk_size.
Proof.
  split.
  - intros H. unfold _chunk_text. now rewrite H.
  - unfold _chunk_text at 1. now rewrite chunk_text_words.
Qed.

Lemma chunk_text_fixed_point_witness :
  let text := of_string "  to be  or not  to be " in
  let text' := of_string "to be or not to be" in
  _chunk_text text 9 = _chunk_text text' 9 /\
  _chunk_text (join (_chunk_text text 9)) 9 = _chunk_text text 9.
Proof.
  intros text text'.
  destruct (chunk_text_fixed_point text text' 9) as [H1 H2].
  split; [apply H1; vm_compute; reflexivity | exact H2].
Defined.


(** *** Chunks are closed only when they must *)

Section Chained.
Context {A : Type}.
Variable R : A -> A -> Prop.

Lemma chained_last_change (l : list A) (b b' : A) :
  MoreSpec.chained R (l ++ [b]) -> (forall a, R a b -> R a b') ->
  MoreSpec.chained R (l ++ [b']).
Proof.
  intros H Hb. inversion H as [E|a E|l0 a b0 Hl HR E].
  - destruct l; discriminate.
  - destruct l as [|x [|y l]]; try discriminate. constructor.
  - change (l0 ++ [a; b0]) with (l0 ++ [a] ++ [b0]) in E.
    rewrite app_assoc in E. apply app_inj_tail in E. destruct E as [<- <-].
    rewrite <- app_assoc. simpl. constructor; auto.
Qed.

Lemma chained_nth (l : list A) (i : nat) (a b : A) :
  MoreSpec.chained R l ->
  nth_error l i = Some a -> nth_error l (S i) = Some b -> R a b.
Proof.
  intros H. revert i a b. induction H as [|x|l x y Hl IH HR]; intros i a b Ha Hb.
  - destruct i; discriminate.
  - destruct i as [|i]; simpl in Hb; [discriminate|]. destruct i; discriminate.
  - change (l ++ [x; y]) with (l ++ [x] ++ [y]) in Ha, Hb.
    rewrite app_assoc in Ha, Hb.
    assert (Hlen : List.length (l ++ [x]) = S (List.length l))
      by (rewrite length_app; simpl; lia).
    destruct (Nat.lt_ge_cases (S i) (List.length (l ++ [x]))) as [Hlt|Hge].
    + rewrite nth_error_app1 in Ha, Hb by lia. eapply IH; eauto.
    + assert (Hi : i = List.length l).
      { assert (S i < List.length ((l ++ [x]) ++ [y]))
          by (apply nth_error_Some; congruence).
        rewrite length_app in H. simpl in H. lia. }
      subst i.
      rewrite nth_error_app1 in Ha by lia.
      rewrite nth_error_app2 in Ha by lia. rewrite Nat.sub_diag in Ha.
      rewrite nth_error_app2 in Hb by lia.
      replace (S (List.length l) - List.length (l ++ [x])) with 0 in Hb by lia.
      simpl in Ha, Hb. congruence.
Qed.

End Chained.

Lemma greedy_init (n : Z) : MoreSpec.greedy_inv n [] init [].
Proof. constructor; simpl; auto. Qed.

Lemma greedy_step (n : Z) (done : list str) (st : state)
    (gs : list (list str)) (w : str) :
  MoreSpec.greedy_inv n done st gs ->
  exists gs', MoreSpec.greedy_inv n (done ++ [w]) (step n st w) gs'.
Proof.
  intros [Hc Hw Hs]. pose proof (len_nonneg w) as Hlen. unfold step.
  destruct (current_size st + (len w + 1) >? n)%Z eqn:Hcmp.
  - rewrite Z.gtb_ltb in Hcmp. apply Z.ltb_lt in Hcmp.
    destruct Hs as [(Hcur & Hgs & Hsz)|(Hcur & Hch & Hsz)].
    + exists []. subst gs. rewrite Hcur in *.
      constructor; simpl.
      * exact Hc.
      * simpl in Hw. now rewrite <- Hw.
      * right. split; [discriminate|]. split; [constructor|lia].
    + exists (gs ++ [current_chunk st]).
      destruct (current_chunk st) as [|w0 cur] eqn:Ecur; [congruence|].
      constructor; simpl.
      * rewrite map_app, Hc. reflexivity.
      * rewrite concat_app. simpl. rewrite app_nil_r, <- Hw.
        now rewrite <- app_assoc.
      * right. split; [discriminate|]. split; [|lia].
        rewrite <- app_assoc. simpl. constructor; [exact Hch|].
        exists w, []. split; [reflexivity|].
        rewrite len_join_snoc by discriminate. lia.
  - rewrite Z.gtb_ltb in Hcmp. apply Z.ltb_ge in Hcmp.
    exists gs. constructor; simpl.
    + exact Hc.
    + rewrite <- Hw. now rewrite app_assoc.
    + right.
      destruct Hs as [(Hcur & Hgs & Hsz)|(Hcur & Hch & Hsz)].
      * rewrite Hcur, Hgs, Hsz. simpl.
        split; [discriminate|]. split; [constructor|lia].
      * split; [now destruct (current_chunk st)|]. split.
        -- apply (@chained_last_change _ _ gs (current_chunk st)
                    (current_chunk st ++ [w]) Hch).
           intros a (w1 & rest & Hb & Hle).
           exists w1, (rest ++ [w]). split; [|exact Hle].
           rewrite Hb. reflexivity.
        -- rewrite len_join_snoc by assumption. lia.
Qed.

Lemma greedy_loop (n : Z) (words done : list str) (st : state)
    (gs : list (list str)) :
  MoreSpec.greedy_inv n done st gs ->
  exists gs', MoreSpec.greedy_inv n (done ++ words) (loop n words st) gs'.
Proof.
  revert done st gs. induction words as [|w words IH]; intros done st gs H.
  - exists gs. simpl. now rewrite app_nil_r.
  - destruct (greedy_step w H) as (gs1 & H1).
    destruct (IH _ _ _ H1) as (gs2 & H2).
    exists gs2. change (loop n (w :: words) st) with (loop n words (step n st w)).
    now rewrite <- app_assoc in H2.
Qed.

Lemma chunk_text_chained (text : str) (n : Z) :
  exists gs,
    _chunk_text text n = map join gs /\
    List.concat gs = split text /\
    MoreSpec.chained (MoreSpec.boundary n) gs.
Proof.
  destruct (greedy_loop (split text) (greedy_init n)) as (gs & [Hc Hw Hs]).
  simpl in Hw. unfold _chunk_text.
  destruct Hs as [(Hcur & Hgs & _)|(Hcur & Hch & _)].
  - exists []. rewrite Hcur, Hgs in *. simpl in *. rewrite Hc.
    repeat split; auto. constructor.
  - exists (gs ++ [current_chunk (loop n (split text) init)]).
    destruct (current_chunk (loop n (split text) init)) as [|w0 cur]; [congruence|].
    unfold flush. rewrite map_app, Hc, concat_app. simpl.
    rewrite app_nil_r. auto.
Qed.

(** X6.  A chunk is closed only when it must be: of two chunks that follow
    each other, the first one joined by a space to the first word of the
    second is at least [chunk_size] characters long. *)
Theorem chunk_text_greedy (text : str) (chunk_size : Z) (i : nat)
    (a b : str) :
  nth_error (_chunk_text text chunk_size) i = Some a ->
  nth_error (_chunk_text text chunk_size) (S i) = Some b ->
  exists w rest,
    split b = w :: rest /\ (chunk_size <= len (a ++ space :: w))%Z.
Proof.
  intros Ha Hb.
  destruct (chunk_text_chained text chunk_size) as (gs & Hc & Hcat & Hch).
  rewrite Hc in Ha, Hb. rewrite nth_error_map in Ha, Hb.
  destruct (nth_error gs i) as [ga|] eqn:Ega; [|discriminate].
  destruct (nth_error gs (S i)) as [gb|] eqn:Egb; [|discriminate].
  simpl in Ha, Hb. inversion Ha; inversion Hb; subst a b.
  destruct (@chained_nth _ _ gs i ga gb Hch Ega Egb) as (w & rest & -> & Hle).
  assert (Hwords : forall g, In g gs -> Forall (fun w => wordb w = true) g).
  { intros g Hg. apply Forall_forall. intros x Hx.
    pose proof (split_words text) as Hall. rewrite <- Hcat in Hall.
    rewrite Forall_forall in Hall. apply Hall. apply in_concat. eauto. }
  exists w, rest. split.
  - apply split_join. apply Hwords. eapply nth_error_In; eauto.
  - destruct ga as [|w0 ga].
    + simpl in Hle. simpl. rewrite len_cons. lia.
    + rewrite join_app in Hle by discriminate. exact Hle.
Qed.

Lemma chunk_text_greedy_witness :
  exists w rest,
    split (of_string "or not") = w :: rest /\
    (8 <= len (of_string "to be" ++ space :: w))%Z.
Proof.
  apply (@chunk_text_greedy (of_string "to be or not to be") 8 0
           (of_string "to be") (of_string "or not")); reflexivity.
Defined.

End ChunkerMore.

(** ** More on the search service *)

Module SearchMore.
Import PyStr Py Json Float64 Search Spec SearchSpec.
Local Open Scope string_scope.
Local Open Scope list_scope.

(** *** Where the results come from *)

Lemma format_reported (min_score : spec_float) (r certainty : json)
    (x : result) :
  certainty_of r = Ok certainty ->
  py_ge certainty min_score = Ok true ->
  format r certainty = Ok x -> reported min_score r x.
Proof.
  intros Hc Hge Hf. unfold format in Hf.
  destruct (getitem r "content") as [c|] eqn:E1; [|discriminate].
  destruct (getitem r "page_number") as [p|] eqn:E2; [|discriminate].
  destruct (getitem r "file_name") as [f|] eqn:E3; [|discriminate].
  destruct (getitem r "chunk_number") as [n|] eqn:E4; [|discriminate].
  simpl in Hf.
  destruct (py_mul100 certainty) as [y|] eqn:E5; [|discriminate].
  simpl in Hf.
  destruct (py_round2 y) as [s|] eqn:E6; [|discriminate].
  simpl in Hf. inversion Hf; subst x.
  exists certainty, y. simpl. repeat split; auto.
Qed.

Lemma format_loop_provenance (items : list json) (min_score : spec_float)
    (acc out : list result) :
  format_loop items min_score acc = Ok out ->
  exists kept new,
    out = acc ++ new /\ subseq kept items /\
    Forall2 (reported min_score) kept new.
Proof.
  revert acc out. induction items as [|r items IH]; intros acc out H;
    simpl in H.
  - inversion H; subst. exists [], []. rewrite app_nil_r.
    repeat split; constructor.
  - destruct (certainty_of r) as [c|] eqn:Ec; [|discriminate]. simpl in H.
    destruct (py_ge c min_score) as [[|]|] eqn:Ege; [| |discriminate];
      simpl in H.
    + destruct (format r c) as [x|] eqn:Ef; [|discriminate]. simpl in H.
      destruct (IH _ _ H) as (kept & new & -> & Hsub & Hall).
      exists (r :: kept), (x :: new). rewrite <- app_assoc. simpl.
      repeat split; [now constructor|].
      constructor; [|exact Hall]. eapply format_reported; eauto.
    + destruct (IH _ _ H) as (kept & new & -> & Hsub & Hall).
      exists kept, new. repeat split; [now constructor | exact Hall].
Qed.

Lemma subseq_length {A} (l1 l2 : list A) :
  subseq l1 l2 -> List.length l1 <= List.length l2.
Proof. induction 1; simpl; lia. Qed.

(** X7.  Whatever the limit, the threshold and the backend's answer, what
    [search] returns is made from entries of that answer: either nothing, or
    one result for each entry of a subsequence of the answer, in the same
    order, with the four fields of the entry and the relevance computed from
    its certainty.  So there are never more results than entries. *)
Theorem search_results_come_from_backend (b : backend) (query : str)
    (limit : Z) (min_score : spec_float) (out : list result) :
  search b query limit min_score = Ok out ->
  out = [] \/
  exists response docs items kept,
    near_text b query limit = Ok response /\
    documents_of response = Ok docs /\
    iter docs = Ok items /\
    subseq kept items /\
    Forall2 (reported min_score) kept out /\
    List.length out <= List.length items.
Proof.
  unfold search, search_body. intros H.
  destruct (near_text b query limit) as [response|[k|]] eqn:E1; simpl in H;
    [|inversion H; auto|discriminate].
  destruct (documents_of response) as [docs|[k|]] eqn:E2; simpl in H;
    [|inversion H; auto|discriminate].
  destruct (iter docs) as [items|[k|]] eqn:E3; simpl in H;
    [|inversion H; auto|discriminate].
  destruct (format_loop items min_score []) as [out'|[k|]] eqn:E4; simpl in H;
    [|inversion H; auto|discriminate].
  inversion H; subst out'.
  destruct (format_loop_provenance _ _ _ E4) as (kept & new & -> & Hsub & Hall).
  right. exists response, docs, items, kept. simpl.
  repeat split; auto.
  rewrite <- (Forall2_length Hall). now apply subseq_length.
Qed.

Lemma search_results_come_from_backend_witness :
  let out := map report (filter (passes Samples.f0_5) Samples.sample_hits) in
  out = [] \/
  exists response docs items kept,
    near_text Samples.sample_backend [] 2 = Ok response /\
    documents_of response = Ok docs /\
    iter docs = Ok items /\
    subseq kept items /\
    Forall2 (reported Samples.f0_5) kept out /\
    List.length out <= List.length items.
Proof.
  apply (@search_results_come_from_backend Samples.sample_backend [] 2
           Samples.f0_5).
  reflexivity.
Defined.

(** *** One bad entry spoils the answer *)

Lemma calm_certainty_of (r : json) : ProcSpec.calm (certainty_of r).
Proof.
  unfold certainty_of.
  apply ProcessorProofs.calm_rbind; [apply ProcessorProofs.calm_getitem|].
  intros a. apply ProcessorProofs.calm_getitem.
Qed.

Lemma calm_py_ge (v : json) (m : spec_float) : ProcSpec.calm (py_ge v m).
Proof. unfold ProcSpec.calm, py_ge. destruct v; discriminate. Qed.

Lemma calm_py_mul100 (v : json) : ProcSpec.calm (py_mul100 v).
Proof. unfold ProcSpec.calm, py_mul100. destruct v; discriminate. Qed.

Lemma calm_py_round2 (v : json) : ProcSpec.calm (py_round2 v).
Proof. unfold ProcSpec.calm, py_round2. destruct v; discriminate. Qed.

Lemma calm_format (r c : json) : ProcSpec.calm (format r c).
Proof.
  unfold format.
  repeat (apply ProcessorProofs.calm_rbind;
          [first [apply ProcessorProofs.calm_getitem | apply calm_py_mul100
                 | apply calm_py_round2]|]; intros ?).
  discriminate.
Qed.

Lemma calm_entry_outcome (m : spec_float) (r : json) : ProcSpec.calm (entry_outcome m r).
Proof.
  unfold entry_outcome.
  apply ProcessorProofs.calm_rbind; [apply calm_certainty_of|]. intros c.
  apply ProcessorProofs.calm_rbind; [apply calm_py_ge|]. intros keep.
  destruct keep; [|discriminate].
  apply ProcessorProofs.calm_rbind; [apply calm_format|]. intros x. discriminate.
Qed.

Lemma format_loop_cons (r : json) (items : list json) (m : spec_float)
    (acc : list result) :
  format_loop (r :: items) m acc =
  match entry_outcome m r with
  | Ok (Some x) => format_loop items m (acc ++ [x])
  | Ok None => format_loop items m acc
  | Raise e => Raise e
  end.
Proof.
  simpl format_loop. unfold entry_outcome.
  destruct (certainty_of r) as [c|e]; simpl; [|reflexivity].
  destruct (py_ge c m) as [[|]|e]; simpl; try reflexivity.
  destruct (format r c) as [x|e]; reflexivity.
Qed.

Lemma calm_format_loop (items : list json) (m : spec_float) (acc : list result) :
  ProcSpec.calm (format_loop items m acc).
Proof.
  revert acc. induction items as [|r items IH]; intros acc.
  - discriminate.
  - rewrite format_loop_cons. pose proof (calm_entry_outcome m r) as Hc.
    destruct (entry_outcome m r) as [[x|]|e]; auto.
    intros H. apply Hc. congruence.
Qed.

Lemma format_loop_spoiled (items : list json) (m : spec_float)
    (acc : list result) (r : json) (kind : string) :
  In r items -> entry_outcome m r = Raise (Exception kind) ->
  exists kind', format_loop items m acc = Raise (Exception kind').
Proof.
  revert acc. induction items as [|r0 items IH]; intros acc Hin Hbad;
    [contradiction|].
  rewrite format_loop_cons.
  destruct Hin as [->|Hin].
  - rewrite Hbad. eauto.
  - pose proof (calm_entry_outcome m r0) as Hc.
    destruct (entry_outcome m r0) as [[x|]|[k|]]; eauto.
    contradiction Hc. reflexivity.
Qed.

(** X8.  [search] gives all or nothing: when one entry of the backend's
    answer cannot be handled (it has no certainty, its certainty is not a
    number, or it passes the filter and lacks a field), the results of the
    other entries are lost too and [search] returns the empty list. *)
Theorem search_spoiled_by_one_entry (b : backend) (query : str) (limit : Z)
    (min_score : spec_float) (response docs : json) (items : list json)
    (r : json) (kind : string) :
  near_text b query limit = Ok response ->
  documents_of response = Ok docs ->
  iter docs = Ok items ->
  In r items ->
  entry_outcome min_score r = Raise (Exception kind) ->
  search b query limit min_score = Ok [].
Proof.
  intros H1 H2 H3 Hin Hbad. unfold search, search_body.
  rewrite H1. simpl. rewrite H2. simpl. rewrite H3. simpl.
  destruct (format_loop_spoiled items min_score [] r Hin Hbad) as (k & ->).
  reflexivity.
Qed.

(** *** Raising the threshold *)

Lemma SFleb_trans (x y z : spec_float) :
  leb x y = true -> leb y z = true -> leb x z = true.
Proof.
  unfold leb, SFleb, SFcompare.
  destruct x as [sx|sx| |sx mx ex], y as [sy|sy| |sy my ey],
           z as [sz|sz| |sz mz ez];
    try destruct sx; try destruct sy; try destruct sz;
    try discriminate; try reflexivity;
    change (Pos.compare_cont Eq) with Pos.compare;
    intros H1 H2;
    repeat match goal with
    | H : context [(?a ?= ?b)%Z] |- _ =>
        destruct (Z.compare_spec a b); try discriminate H
    | H : context [(?a ?= ?b)%positive] |- _ =>
        destruct (Pos.compare_spec a b); simpl in H; try discriminate H
    end;
    repeat match goal with
    | |- context [(?a ?= ?b)%Z] => destruct (Z.compare_spec a b)
    | |- context [(?a ?= ?b)%positive] =>
        destruct (Pos.compare_spec a b); simpl
    end;
    try reflexivity; subst; lia.
Qed.

Lemma search_on_hits (b : backend) (query : str) (limit : Z)
    (min_score : spec_float) (response : json) (results : list json)
    (hits : list hit) :
  near_text b query limit = Ok response ->
  documents_of response = Ok (JArr results) ->
  Forall2 carries results hits ->
  search b query limit min_score
    = Ok (map report (filter (passes min_score) hits)).
Proof.
  intros H1 H2 Hc. unfold search, search_body. rewrite H1. simpl.
  rewrite H2. simpl.
  now rewrite (SearchProofs.format_loop_carries min_score [] Hc).
Qed.

Lemma subseq_map {A B} (f : A -> B) (l1 l2 : list A) :
  subseq l1 l2 -> subseq (map f l1) (map f l2).
Proof. induction 1; simpl; now constructor. Qed.

Lemma subseq_filter_stronger {A} (p q : A -> bool) (l : list A) :
  (forall x, p x = true -> q x = true) ->
  subseq (filter p l) (filter q l).
Proof.
  intros H. induction l as [|x l IH]; simpl; [constructor|].
  destruct (p x) eqn:Hp.
  - rewrite (H x Hp). now constructor.
  - destruct (q x); [now constructor | exact IH].
Qed.

(** X9.  Raising [min_score] only removes results: on an answer whose
    entries carry their fields and a float certainty, the results for the
    higher threshold are a subsequence of the results for the lower one. *)
Theorem search_threshold_monotone (b : backend) (query : str) (limit : Z)
    (low high : spec_float) (response : json) (results : list json)
    (hits : list hit) :
  near_text b query limit = Ok response ->
  documents_of response = Ok (JArr results) ->
  Forall2 carries results hits ->
  leb low high = true ->
  exists few many,
    search b query limit high = Ok few /\
    search b query limit low = Ok many /\
    subseq few many.
Proof.
  intros H1 H2 Hc Hle.
  exists (map report (filter (passes high) hits)),
         (map report (filter (passes low) hits)).
  split; [now apply (search_on_hits b query limit high H1 H2)|].
  split; [now apply (search_on_hits b query limit low H1 H2)|].
  apply subseq_map, subseq_filter_stronger.
  intros x Hx. unfold passes in *. eapply SFleb_trans; eauto.
Qed.

Lemma search_threshold_monotone_witness :
  exists few many,
    search Samples.sample_backend [] 5 f0_7 = Ok few /\
    search Samples.sample_backend [] 5 Samples.f0_5 = Ok many /\
    subseq few many.
Proof.
  apply (@search_threshold_monotone Samples.sample_backend [] 5
           Samples.f0_5 f0_7
           (Samples.get_response (JArr (map Samples.entry Samples.sample_hits)))
           (map Samples.entry Samples.sample_hits) Samples.sample_hits).
  - reflexivity.
  - reflexivity.
  - repeat constructor.
  - reflexivity.
Defined.

Lemma search_spoiled_by_one_entry_witness :
  search MoreSamples.backend_one_bad [] 5 f0_7 = Ok [].
Proof.
  apply (@search_spoiled_by_one_entry MoreSamples.backend_one_bad [] 5 f0_7
           (Samples.get_response (JArr MoreSamples.one_bad))
           (JArr MoreSamples.one_bad) MoreSamples.one_bad
           MoreSamples.no_certainty "KeyError").
  - reflexivity.
  - reflexivity.
  - reflexivity.
  - right. right. right. left. reflexivity.
  - reflexivity.
Defined.

End SearchMore.

(** ** Schema set-up and read-only queries *)

Module AdminProofs.
Import PyStr Py Json Processor Admin.
Local Open Scope string_scope.
Local Open Scope list_scope.

(** X10.  [_setup_schema] asks for the class first and creates it exactly
    when that call raises, whatever it raises: the bare [except:] also
    swallows a [KeyboardInterrupt].  Only what [create_class] raises comes
    out, and the schema it creates is [SCHEMA_CONFIG]. *)
Theorem setup_schema_creates_on_any_failure (c : Schema.client) :
  let run := Schema._setup_schema c in
  (In (Schema.CCreate Schema.SCHEMA_CONFIG) (snd run)
   <-> exists e, Schema.schema_get c = Raise e) /\
  (forall e, Schema.schema_get c = Raise e ->
             fst run = Schema.create_class c Schema.SCHEMA_CONFIG) /\
  (forall v, Schema.schema_get c = Ok v ->
             run = (Ok tt, [Schema.CGet (Schema.key "Document")])).
Proof.
  unfold Schema._setup_schema.
  destruct (Schema.schema_get c) as [v|e] eqn:Hget; simpl.
  - split; [split|split].
    + intros [H|[]]. discriminate H.
    + intros [e He]. discriminate He.
    + intros e He. discriminate He.
    + intros v' _. reflexivity.
  - split; [split|split].
    + eauto.
    + intros _. right. left. reflexivity.
    + intros e' _.
      destruct (Schema.create_class c Schema.SCHEMA_CONFIG) as [[]|[k|]];
        reflexivity.
    + intros v Hv. discriminate Hv.
Qed.

Lemma setup_schema_creates_on_any_failure_witness :
  Schema._setup_schema MoreSamples.interrupted_client
  = (Ok tt, [Schema.CGet (Schema.key "Document");
             Schema.CCreate Schema.SCHEMA_CONFIG]).
Proof.
  destruct (@setup_schema_creates_on_any_failure MoreSamples.interrupted_client)
    as (_ & Hfst & _).
  specialize (Hfst KeyboardInterrupt eq_refl).
  destruct (Schema._setup_schema MoreSamples.interrupted_client) as [r calls] eqn:E.
  simpl in Hfst. subst r.
  vm_compute in E. inversion E. reflexivity.
Defined.

(** *** [check_file_status] *)

Lemma len_iter (docs : json) (n : nat) (items : list json) :
  py_len docs = Ok n -> iter docs = Ok items -> List.length items = n.
Proof.
  destruct docs; simpl; intros H1 H2; try discriminate;
    inversion H1; inversion H2; subst; now rewrite ?length_map.
Qed.

(** X11.  [check_file_status] answers [True] exactly when the backend
    returns at least one document for the file name; it never raises an
    error, so a failed query is answered [False], like a file that is not
    there. *)
Theorem check_file_status_true_iff (b : backend) (filename : str) :
  (check_file_status b filename = Ok true <->
   exists result docs n,
     where_file_name b filename 1 = Ok result /\
     stored_documents result = Ok docs /\
     py_len docs = Ok n /\ 0 < n) /\
  (forall kind, where_file_name b filename 1 = Raise (Exception kind) ->
                check_file_status b filename = Ok false) /\
  (forall kind, check_file_status b filename <> Raise (Exception kind)).
Proof.
  unfold check_file_status, check_file_status_body.
  destruct (where_file_name b filename 1) as [result|[k|]] eqn:E1; simpl.
  2:{ repeat split; try discriminate.
      intros (r & d & n & H & _). discriminate. }
  2:{ repeat split; try discriminate.
      intros (r & d & n & H & _). discriminate. }
  destruct (stored_documents result) as [docs|[k|]] eqn:E2; simpl.
  2:{ repeat split; try discriminate.
      intros (r & d & n & H & H' & _). inversion H; subst. congruence. }
  2:{ exfalso. now apply (@ProcessorProofs.calm_stored_documents result). }
  destruct (py_len docs) as [n|[k|]] eqn:E3; simpl.
  2:{ repeat split; try discriminate.
      intros (r & d & n & H & H' & H'' & _). inversion H; subst.
      rewrite E2 in H'. inversion H'; subst. congruence. }
  2:{ exfalso. now apply (@ProcessorProofs.calm_py_len docs). }
  repeat split; try discriminate.
  - intros H. inversion H as [Hn]. exists result, docs, n.
    repeat split; auto. apply Nat.ltb_lt. exact Hn.
  - intros (r & d & m & H & H' & H'' & Hm). inversion H; subst.
    rewrite E2 in H'. inversion H'; subst. rewrite E3 in H''.
    inversion H''; subst. apply Nat.ltb_lt in Hm. now rewrite Hm.
Qed.

Lemma check_file_status_true_iff_witness :
  check_file_status MoreSamples.admin_backend (Samples.key "a.pdf") = Ok true.
Proof.
  apply (@check_file_status_true_iff MoreSamples.admin_backend (Samples.key "a.pdf")).
  exists MoreSamples.two_files.
  eexists. exists 2.
  split; [reflexivity|]. split; [reflexivity|]. split; [reflexivity|lia].
Defined.

(** *** [list_processed_files] *)

Lemma file_names_all (items : list json) (names : list json) :
  file_names items = Ok names ->
  Forall2 (fun doc name => getitem doc "file_name" = Ok name) items names.
Proof.
  revert names. induction items as [|doc items IH]; intros names H; simpl in H.
  - inversion H. constructor.
  - destruct (getitem doc "file_name") as [nm|] eqn:E; [|discriminate].
    simpl in H. destruct (file_names items) as [ns|]; [|discriminate].
    simpl in H. inversion H; subst. constructor; auto.
Qed.

Lemma calm_file_names (items : list json) : ProcSpec.calm (file_names items).
Proof.
  induction items as [|doc items IH]; simpl; [discriminate|].
  apply ProcessorProofs.calm_rbind; [apply ProcessorProofs.calm_getitem|].
  intros nm. apply ProcessorProofs.calm_rbind; [exact IH|]. discriminate.
Qed.


Lemma list_processed_files_inv (b : backend) (limit : Z) (names : list json) :
  list_processed_files b limit = Ok names ->
  names = [] \/
  exists result docs items,
    group_by_file_name b limit = Ok result /\
    stored_documents result = Ok docs /\
    iter docs = Ok items /\
    Forall2 (fun doc name => getitem doc "file_name" = Ok name) items names.
Proof.
  unfold list_processed_files, list_processed_files_body. intros H.
  destruct (group_by_file_name b limit) as [result|[k|]] eqn:E1; simpl in H;
    [|inversion H; auto|discriminate].
  destruct (stored_documents result) as [docs|[k|]] eqn:E2; simpl in H;
    [|inversion H; auto|discriminate].
  destruct (iter docs) as [items|[k|]] eqn:E3; simpl in H;
    [|inversion H; auto|discriminate].
  destruct (file_names items) as [ns|[k|]] eqn:E4; simpl in H;
    [|inversion H; auto|discriminate].
  inversion H; subst ns. right. exists result, docs, items.
  repeat split; auto. now apply file_names_all.
Qed.



(** *** [get_database_stats] *)

Lemma get_database_stats_inv (b : backend) (s : stats) :
  get_database_stats b = Ok (Some s) ->
  exists result result' docs,
    aggregate_count b = Ok result /\
    meta_count result = Ok (total_documents s) /\
    group_by_file_name b 10000 = Ok result' /\
    stored_documents result' = Ok docs /\
    py_len docs = Ok (unique_files s).
Proof.
  unfold get_database_stats, get_database_stats_body. intros H.
  destruct (aggregate_count b) as [result|[k|]] eqn:E1; simpl in H;
    try discriminate.
  destruct (meta_count result) as [total|[k|]] eqn:E2; simpl in H;
    try discriminate.
  destruct (group_by_file_name b 10000) as [result'|[k|]] eqn:E3;
    simpl in H; try discriminate.
  destruct (stored_documents result') as [docs|[k|]] eqn:E4; simpl in H;
    try discriminate.
  destruct (py_len docs) as [n|[k|]] eqn:E5; simpl in H; try discriminate.
  inversion H; subst s. simpl. exists result, result', docs. auto.
Qed.

(** X13.  [get_database_stats] returns the two figures exactly when both
    queries and the reading of both answers succeed: [total_documents] is
    the count of the first aggregate entry and [unique_files] the number of
    groups.  If anything fails it returns [None], not a partial result. *)
Theorem get_database_stats_some_iff (b : backend) (s : stats) :
  (get_database_stats b = Ok (Some s) <->
   exists result result' docs,
     aggregate_count b = Ok result /\
     meta_count result = Ok (total_documents s) /\
     group_by_file_name b 10000 = Ok result' /\
     stored_documents result' = Ok docs /\
     py_len docs = Ok (unique_files s)) /\
  (forall kind, get_database_stats_body b = Raise (Exception kind) ->
                get_database_stats b = Ok None).
Proof.
  split.
  - split; [apply get_database_stats_inv|].
    intros (result & result' & docs & H1 & H2 & H3 & H4 & H5).
    unfold get_database_stats, get_database_stats_body.
    rewrite H1. simpl. rewrite H2. simpl. rewrite H3. simpl.
    rewrite H4. simpl. rewrite H5. simpl. now destruct s.
  - intros kind H. unfold get_database_stats. now rewrite H.
Qed.

Lemma get_database_stats_some_iff_witness :
  get_database_stats MoreSamples.admin_backend
    = Ok (Some (mk_stats (JInt 7) 2)).
Proof.
  apply (@get_database_stats_some_iff MoreSamples.admin_backend
           (mk_stats (JInt 7) 2)).
  exists (MoreSamples.count_response 7), MoreSamples.two_files.
  eexists. repeat split; reflexivity.
Defined.

(** X14.  The two views of the stored files agree: when
    [get_database_stats] succeeds and [list_processed_files] is asked with
    the same limit of 10000, the names it lists are as many as
    [unique_files], unless it lists none at all. *)
Theorem unique_files_counts_listed_files (b : backend) (s : stats)
    (names : list json) :
  get_database_stats b = Ok (Some s) ->
  list_processed_files b 10000 = Ok names ->
  names = [] \/ List.length names = unique_files s.
Proof.
  intros Hs Hl.
  apply get_database_stats_inv in Hs.
  destruct Hs as (result & result' & docs & _ & _ & H3 & H4 & H5).
  destruct (list_processed_files_inv _ _ Hl)
    as [->|(r & d & items & G1 & G2 & G3 & G4)]; [now left|].
  right. rewrite H3 in G1. inversion G1; subst r.
  rewrite H4 in G2. inversion G2; subst d.
  rewrite <- (Forall2_length G4). eapply len_iter; eauto.
Qed.

Lemma unique_files_counts_listed_files_witness :
  let names := [JStr (Samples.key "a.pdf"); JStr (Samples.key "b.pdf")] in
  names = [] \/ List.length names = unique_files (mk_stats (JInt 7) 2).
Proof.
  apply (@unique_files_counts_listed_files MoreSamples.admin_backend
           (mk_stats (JInt 7) 2)); reflexivity.
Defined.

End AdminProofs.

(** ** The command loop *)

Module MainProofs.
Import PyStr Py Json Float64 Search Spec Main MainSpec.
Local Open Scope list_scope.

Lemma searched_app (o1 o2 : list action) :
  searched (o1 ++ o2) = searched o1 ++ searched o2.
Proof.
  induction o1 as [|a o1 IH]; simpl; [reflexivity|].
  destruct a; simpl; now rewrite ?IH.
Qed.

Lemma slice200_short (v preview : json) :
  slice200 v = Ok preview -> short_preview (PrintContent preview).
Proof.
  destruct v as [| | | |s|l|]; intros H; try discriminate.
  - assert (E : preview = JStr (firstn 200 s)) by (unfold slice200 in H; congruence).
    rewrite E. unfold short_preview. rewrite length_firstn. lia.
  - assert (E : preview = JArr (firstn 200 l)) by (unfold slice200 in H; congruence).
    rewrite E. unfold short_preview. rewrite length_firstn. lia.
Qed.

Lemma show_results_cons (idx : nat) (x : result)
    (results : list (nat * result)) (out : list action) :
  show_results ((idx, x) :: results) out =
  match slice200 (content x) with
  | Ok preview =>
      show_results results
        ((out ++ [PrintResult idx (relevance_score x); PrintFile (file_name x);
                  PrintPageChunk (page_number x) (chunk_number x)])
         ++ [PrintContent preview])
  | Raise e =>
      (Raise e,
       out ++ [PrintResult idx (relevance_score x); PrintFile (file_name x);
               PrintPageChunk (page_number x) (chunk_number x)])
  end.
Proof. reflexivity. Qed.

Lemma show_results_out (results : list (nat * result)) (out : list action) :
  exists printed,
    snd (show_results results out) = out ++ printed /\
    searched printed = [] /\
    Forall short_preview printed.
Proof.
  revert out. induction results as [|[idx x] results IH]; intros out.
  - exists []. simpl. rewrite app_nil_r. repeat split; constructor.
  - rewrite show_results_cons.
    destruct (slice200 (content x)) as [preview|e] eqn:Es.
    + destruct (IH ((out ++ [PrintResult idx (relevance_score x);
                              PrintFile (file_name x);
                              PrintPageChunk (page_number x) (chunk_number x)])
                    ++ [PrintContent preview])) as (p & -> & Hs & Hp).
      exists ([PrintResult idx (relevance_score x); PrintFile (file_name x);
               PrintPageChunk (page_number x) (chunk_number x);
               PrintContent preview] ++ p).
      split; [rewrite <- !app_assoc; reflexivity|].
      split; [simpl; exact Hs|].
      repeat (apply Forall_cons; [exact I|]).
      apply Forall_cons; [exact (slice200_short _ Es) | exact Hp].
    + exists [PrintResult idx (relevance_score x); PrintFile (file_name x);
              PrintPageChunk (page_number x) (chunk_number x)].
      simpl. repeat split; auto. repeat (constructor; simpl; auto).
Qed.

(** The loop only adds to what was printed, and searches the lines it read
    one after the other. *)
Lemma repl_out (b : backend) (stdin : list str) (out : list action) :
  exists done,
    snd (repl b stdin out) = out ++ done /\
    Forall short_preview done /\
    exists n, searched done = firstn n stdin /\
              Forall (fun l => is_quit l = false) (firstn n stdin) /\
              (fst (repl b stdin out) = Ok tt ->
               exists q post, skipn n stdin = q :: post /\ is_quit q = true).
Proof.
  revert out. induction stdin as [|query rest IH]; intros out; simpl repl.
  - exists []. rewrite app_nil_r. split; [reflexivity|]. split; [constructor|].
    exists 0. simpl. repeat split; auto. discriminate.
  - destruct (is_quit query) eqn:Hq.
    + exists []. rewrite app_nil_r. split; [reflexivity|]. split; [constructor|].
      exists 0. simpl. repeat split; auto. intros _. eauto.
    + destruct (search b query default_limit default_min_score)
        as [[|x results]|e] eqn:Hs.
      * destruct (IH (out ++ [Searched query; PrintNoMatch]))
          as (d & Hd & Hp & n & Hn & Hall & Hok).
        exists ([Searched query; PrintNoMatch] ++ d).
        rewrite Hd, <- app_assoc. split; [reflexivity|].
        split; [repeat constructor; simpl; auto|].
        exists (S n). simpl. rewrite Hn. repeat split; auto.
      * destruct (show_results_out (enumerate_from 1 (x :: results))
                    (out ++ [Searched query; PrintHeader]))
          as (p & Hp & Hsp & Hpp).
        destruct (show_results (enumerate_from 1 (x :: results))
                    (out ++ [Searched query; PrintHeader])) as [r out'] eqn:Er.
        simpl snd in Hp. subst out'.
        destruct r as [[]|e].
        -- destruct (IH ((out ++ [Searched query; PrintHeader]) ++ p))
             as (d & Hd & Hpd & n & Hn & Hall & Hok).
           exists ([Searched query; PrintHeader] ++ p ++ d).
           split; [rewrite Hd, <- !app_assoc; reflexivity|].
           split.
           { simpl. constructor; [simpl; auto|]. constructor; [simpl; auto|].
             apply Forall_app. auto. }
           exists (S n). simpl. rewrite searched_app, Hsp, Hn.
           repeat split; auto.
        -- exists ([Searched query; PrintHeader] ++ p).
           rewrite <- !app_assoc. split; [reflexivity|].
           split.
           { simpl. constructor; [simpl; auto|]. constructor; [simpl; auto|].
             exact Hpp. }
           exists 1. simpl. rewrite Hsp. repeat split; auto. discriminate.
      * exists [Searched query]. split; [reflexivity|].
        split; [repeat constructor; simpl; auto|].
        exists 1. simpl. repeat split; auto. discriminate.
Qed.

(** X15.  The loop ends normally only on a line that reads [quit] once put in
    small letters: when [main] returns, the lines before the first such
    line were searched, each once and in order, and no line after it was
    read. *)
Theorem main_stops_at_quit (b : backend) (stdin : list str)
    (out : list action) :
  main b stdin = (Ok tt, out) ->
  exists before q after,
    stdin = before ++ q :: after /\
    is_quit q = true /\
    Forall (fun l => is_quit l = false) before /\
    searched out = before.
Proof.
  unfold main. intros H.
  destruct (get_document_count b) as [c|e]; [|discriminate].
  destruct (repl_out b stdin [PrintTotal c])
    as (d & Hd & _ & n & Hn & Hall & Hok).
  rewrite H in Hd, Hok. simpl in Hd, Hok.
  destruct (Hok eq_refl) as (q & post & Hskip & Hq).
  exists (firstn n stdin), q, post.
  rewrite <- Hskip, firstn_skipn. repeat split; auto.
  subst out. simpl. exact Hn.
Qed.

Lemma main_stops_at_quit_witness :
  exists before q after,
    map of_string ["tax"; "Quit"; "rent"]%string = before ++ q :: after /\
    is_quit q = true /\
    Forall (fun l => is_quit l = false) before /\
    searched [PrintTotal (JInt 0); Searched (of_string "tax"); PrintNoMatch]
      = before.
Proof.
  apply (@main_stops_at_quit Samples.backend_down).
  reflexivity.
Defined.

(** X16.  Every preview [main] prints is cut to 200 characters. *)
Theorem main_previews_are_short (b : backend) (stdin : list str) :
  Forall short_preview (snd (main b stdin)).
Proof.
  unfold main.
  destruct (get_document_count b) as [c|e]; [|constructor].
  destruct (repl_out b stdin [PrintTotal c]) as (d & -> & Hp & _).
  simpl. constructor; [simpl; auto | exact Hp].
Qed.

(** *** When the backend is down *)




(** *** A result without text *)

(** X18.  [search] hands on the [content] of an entry as it is, and [main]
    slices it without a check: when the first result of a query has a
    content that is not a string or a list (a null, a number), [main] stops
    with that error after the first lines of the result, and reads no
    further query. *)
Theorem main_fails_on_missing_content (b : backend) (query : str)
    (rest : list str) (doc_count response : json) (results : list json)
    (hits : list hit) (x : hit) (xs : list hit) (e : exn) :
  get_document_count b = Ok doc_count ->
  is_quit query = false ->
  near_text b query default_limit = Ok response ->
  documents_of response = Ok (JArr results) ->
  Forall2 carries results hits ->
  filter (passes default_min_score) hits = x :: xs ->
  slice200 (hit_content x) = Raise e ->
  main b (query :: rest)
    = (Raise e,
       [PrintTotal doc_count; Searched query; PrintHeader;
        PrintResult 1 (relevance_score (report x));
        PrintFile (hit_file_name x);
        PrintPageChunk (hit_page_number x) (hit_chunk_number x)]).
Proof.
  intros Hc Hq H1 H2 Hcar Hkept Hslice. unfold main. rewrite Hc.
  simpl repl. rewrite Hq.
  rewrite (SearchMore.search_on_hits b query default_limit default_min_score
             H1 H2 Hcar).
  rewrite Hkept. simpl map.
  unfold enumerate_from. simpl combine. simpl show_results.
  rewrite Hslice. reflexivity.
Qed.

Lemma main_fails_on_missing_content_witness :
  main MoreSamples.backend_without_text
       (map of_string ["tax"; "quit"]%string)
  = (Raise (Exception "TypeError"),
     [PrintTotal (JInt 4); Searched (of_string "tax"); PrintHeader;
      PrintResult 1 (relevance_score (report MoreSamples.hit_without_text));
      PrintFile (JStr (Samples.key "scan.pdf"));
      PrintPageChunk (JInt 4) (JInt 1)]).
Proof.
  apply (@main_fails_on_missing_content MoreSamples.backend_without_text
           (of_string "tax") [of_string "quit"] (JInt 4)
           (Samples.get_response
              (JArr (map Samples.entry
                       (MoreSamples.hit_without_text :: Samples.sample_hits))))
           (map Samples.entry
              (MoreSamples.hit_without_text :: Samples.sample_hits))
           (MoreSamples.hit_without_text :: Samples.sample_hits)
           MoreSamples.hit_without_text
           (filter (passes default_min_score) Samples.sample_hits)
           (Exception "TypeError")).
  - reflexivity.
  - reflexivity.
  - reflexivity.
  - reflexivity.
  - repeat constructor.
  - reflexivity.
  - reflexivity.
Defined.

(** *** The word that ends the loop *)

Lemma str_eqb_eq (a b : str) : str_eqb a b = true <-> a = b.
Proof.
  revert b. induction a as [|x a IH]; intros [|y b]; simpl;
    try (split; [discriminate|discriminate]); [tauto|].
  rewrite andb_true_iff, Ascii.eqb_eq, IH. split.
  - intros [-> ->]. reflexivity.
  - intros H. injection H as -> ->. auto.
Qed.

Lemma lower_char_letter (c l : ascii) :
  In l ["q"; "u"; "i"; "t"]%char ->
  lower_char c = l ->
  c = l \/ c = ascii_of_N (N_of_ascii l - 32).
Proof.
  intros Hl H.
  assert (Hb : (if Ascii.eqb (lower_char c) l
                then Ascii.eqb c l
                     || Ascii.eqb c (ascii_of_N (N_of_ascii l - 32))
                else true) = true).
  { clear H. simpl in Hl.
    destruct Hl as [<-|[<-|[<-|[<-|[]]]]];
      destruct c as [[] [] [] [] [] [] [] []]; vm_compute; reflexivity. }
  apply Ascii.eqb_eq in H. rewrite H in Hb.
  apply orb_true_iff in Hb. rewrite !Ascii.eqb_eq in Hb. exact Hb.
Qed.

(** X19.  The loop is left by the word [quit] in any mix of capital and
    small letters, and by nothing else: the line is not trimmed, so a
    [quit] with a blank before or after it is searched like any query. *)
Theorem quit_is_recognised (query : str) :
  is_quit query = true <-> In query quit_spellings.
Proof.
  split.
  - unfold is_quit. rewrite str_eqb_eq. unfold lower.
    destruct query as [|a [|b [|c [|d [|x query]]]]]; try discriminate.
    simpl. intros H. injection H as Ha Hb Hc Hd.
    apply lower_char_letter in Ha; [|simpl; tauto].
    apply lower_char_letter in Hb; [|simpl; tauto].
    apply lower_char_letter in Hc; [|simpl; tauto].
    apply lower_char_letter in Hd; [|simpl; tauto].
    destruct Ha as [-> | ->], Hb as [-> | ->], Hc as [-> | ->],
      Hd as [-> | ->]; vm_compute; tauto.
  - intros H. unfold quit_spellings in H. simpl in H.
    repeat (destruct H as [<-|H]; [reflexivity|]). destruct H.
Qed.

End MainProofs.

(** ** More on the processor *)

Module ProcessorMore.
Import PyStr Py Json Chunker Processor ProcSpec TraceSpec.
Local Open Scope list_scope.

(** *** Blank texts and blank chunks *)

Lemma lstrip_nil_blank (s : str) : lstrip s = [] -> Spec.blank s = true.
Proof.
  induction s as [|c s IH]; simpl; [reflexivity|].
  destruct (isspace c); simpl; [exact IH | discriminate].
Qed.

Lemma lstrip_head_nospace (s : str) (c : ascii) (s' : str) :
  lstrip s = c :: s' -> isspace c = false.
Proof.
  induction s as [|a s IH]; simpl; [discriminate|].
  destruct (isspace a) eqn:Ha; [exact IH|].
  intros H. injection H as <- _. exact Ha.
Qed.

Lemma blank_rev (s : str) : Spec.blank (rev s) = true -> Spec.blank s = true.
Proof.
  unfold Spec.blank. rewrite !forallb_forall. intros H c Hc.
  apply H. now apply in_rev in Hc.
Qed.

Lemma strip_nil_blank (s : str) : strip s = [] -> Spec.blank s = true.
Proof.
  unfold strip, rstrip. intros H.
  assert (H1 : lstrip (rev (lstrip s)) = []).
  { destruct (lstrip (rev (lstrip s))) as [|c x]; [reflexivity|].
    simpl in H. destruct (rev x); discriminate. }
  apply lstrip_nil_blank, blank_rev in H1.
  destruct (lstrip s) as [|c x] eqn:Hs.
  - now apply lstrip_nil_blank.
  - apply lstrip_head_nospace in Hs. simpl in H1. rewrite Hs in H1.
    discriminate.
Qed.

(** The guard of a page fires exactly on the texts that have no chunk. *)
Lemma page_guard_blank (text : str) :
  is_empty text || is_empty (strip text) = true -> Spec.blank text = true.
Proof.
  intros H. apply orb_true_iff in H. destruct H as [H|H].
  - destruct text; [reflexivity|discriminate].
  - apply strip_nil_blank. destruct (strip text); [reflexivity|discriminate].
Qed.

(** The guard of a chunk never fires. *)
Lemma chunk_not_blank (text : str) (n : Z) (chunk : str) :
  In chunk (_chunk_text text n) -> is_empty (strip chunk) = false.
Proof.
  intros Hin.
  destruct (ChunkerMore.chunk_is_group text n chunk Hin) as (g & -> & Hg & Hw).
  rewrite (ChunkerMore.strip_join Hg Hw).
  destruct (ChunkerMore.join_head Hg Hw) as (c & s & -> & _). reflexivity.
Qed.

Lemma enumerate_In {A} (l : list A) (jc : nat * A) :
  In jc (enumerate l) -> In (snd jc) l.
Proof.
  intros Hin. pose proof (BatchProofs.enumerate_nth l) as H.
  rewrite Forall_forall in H. apply H in Hin. now apply nth_error_In in Hin.
Qed.

Lemma filter_all {A} (f : A -> bool) (l : list A) :
  (forall x, In x l -> f x = true) -> filter f l = l.
Proof.
  induction l as [|a l IH]; simpl; intros H; [reflexivity|].
  rewrite (H a (or_introl eq_refl)). f_equal. apply IH. auto.
Qed.

(** The records of a page are those of all its chunks: neither guard drops
    a chunk. *)
Lemma page_records_all (pdf_path : Path) (page_num : nat) (t : res str) :
  page_records pdf_path page_num t = records_of_page pdf_path page_num t.
Proof.
  destruct t as [text|e]; [|reflexivity]. unfold page_records, records_of_page.
  destruct (is_empty text || is_empty (strip text)) eqn:Hg.
  - apply page_guard_blank in Hg.
    now rewrite (ChunkerProofs.chunk_text_blank text default_chunk_size Hg).
  - unfold chunk_records. rewrite filter_all; [reflexivity|].
    intros jc Hin. apply enumerate_In in Hin.
    now rewrite (chunk_not_blank _ _ _ Hin).
Qed.

Lemma file_records_all (pdf_path : Path) (texts : nat -> res str) (n : nat) :
  file_records pdf_path texts n = all_records pdf_path texts n.
Proof.
  unfold file_records, all_records. apply flat_map_ext.
  intros i. apply page_records_all.
Qed.

(** X20.  With a backend that accepts every batch, [process_pdf] stores one
    record for every chunk of every page that could be read, in the order
    of the file, numbered from 1 within its page: the checks for blank
    texts and blank chunks drop nothing that the chunker returns. *)
Theorem every_chunk_is_stored (E : env) (batch_size : Z) (pdf_path : Path)
    (texts : nat -> res str) (n : nat) (h : history) :
  (1 <= batch_size)%Z ->
  (forall h batch, add_batch E h batch = None) ->
  (forall h, sleep E h = None) ->
  (forall h i, extract_text E h pdf_path i = texts i) ->
  (forall i, calm (texts i)) ->
  open_pdf E h pdf_path = Ok n ->
  exists r d,
    process_pdf E batch_size pdf_path h = (r, h ++ d) /\
    List.concat (committed d) = all_records pdf_path texts n.
Proof.
  intros Hpos Hadd Hsleep Htexts Hcalm Hopen.
  destruct (@BatchProofs.batches_when_accepted E batch_size pdf_path texts
              Hpos Hadd Hsleep Htexts Hcalm n h Hopen)
    as (r & d & full & rest & Hrun & _ & Hcom & _ & _ & Hall).
  exists r, d. split; [exact Hrun|].
  now rewrite Hcom, Hall, file_records_all.
Qed.

Lemma every_chunk_is_stored_witness :
  let E := Samples.sample_env Samples.five_pages [] (Ok Samples.two_stored) in
  exists r d,
    process_pdf E 2 Samples.a_pdf [] = (r, [] ++ d) /\
    List.concat (committed d)
      = all_records Samples.a_pdf (Samples.texts_of Samples.five_pages) 5.
Proof.
  intros E.
  apply (@every_chunk_is_stored E 2 Samples.a_pdf
           (Samples.texts_of Samples.five_pages) 5 []).
  - lia.
  - reflexivity.
  - reflexivity.
  - reflexivity.
  - intros i. unfold calm, Samples.texts_of.
    do 6 (destruct i as [|i]; [discriminate|]). discriminate.
  - reflexivity.
Defined.

(** *** What a record looks like *)

Lemma chunk_facts (text : str) (n : Z) (chunk : str) :
  In chunk (_chunk_text text n) ->
  chunk <> [] /\ strip chunk = chunk /\ join (split chunk) = chunk /\
  ((len chunk <= n)%Z \/ Spec.wordb chunk = true).
Proof.
  intros Hin.
  destruct (ChunkerProofs.chunk_text_groups text n)
    as (gs & Hgs & Hne & Hbound & Hcat).
  rewrite Hgs in Hin. apply in_map_iff in Hin. destruct Hin as (g & <- & Hg).
  rewrite Forall_forall in Hne, Hbound.
  pose proof (Hne g Hg) as Hg0. pose proof (Hbound g Hg) as Hg1.
  assert (Hw : Forall (fun w => Spec.wordb w = true) g).
  { apply Forall_forall. intros w Hwg.
    pose proof (ChunkerProofs.split_words text) as Hall.
    rewrite Forall_forall in Hall. apply Hall. rewrite <- Hcat.
    eapply ChunkerProofs.In_concat_group; eauto. }
  split.
  { destruct (ChunkerMore.join_head Hg0 Hw) as (c & s & -> & _). discriminate. }
  split; [exact (ChunkerMore.strip_join Hg0 Hw)|].
  split; [now rewrite (ChunkerProofs.split_join Hw)|].
  destruct g as [|w [|w' g]].
  - contradiction Hg0. reflexivity.
  - right. simpl. now inversion Hw.
  - left. apply Hg1. simpl. lia.
Qed.

Lemma chunk_records_clean (pdf_path : Path) (page_num : nat) (text : str) :
  Forall (clean_record pdf_path)
    (chunk_records pdf_path page_num
       (enumerate (_chunk_text text default_chunk_size))).
Proof.
  apply Forall_forall. intros x Hx. unfold chunk_records in Hx.
  apply in_map_iff in Hx. destruct Hx as ([j c] & <- & Hin).
  apply filter_In in Hin. destruct Hin as [Hin _].
  apply enumerate_In in Hin. simpl in Hin.
  destruct (chunk_facts _ _ _ Hin) as (H1 & H2 & H3 & H4).
  unfold clean_record. simpl. repeat split; auto; lia.
Qed.

Section Sent.
Variable E : env.
Variable batch_size : Z.
Variable pdf_path : Path.
Variable Q : properties -> Prop.
Hypothesis chunks_are_Q :
  forall page_num text,
    Forall Q (chunk_records pdf_path page_num
                (enumerate (_chunk_text text default_chunk_size))).

Lemma page_body_sent_all (page_num : nat) (batch : list properties)
    (h : history) :
  Forall Q batch ->
  exists r batch' d,
    page_body E batch_size pdf_path page_num batch h = (r, batch', h ++ d) /\
    Forall Q batch' /\ Forall Q (sent d).
Proof.
  intros Hb. unfold page_body, ext.
  destruct (extract_text E h pdf_path page_num) as [text|e]; simpl exn_of.
  - destruct (is_empty text || is_empty (strip text)).
    + exists (Ok tt), batch, [mk_event (CExtract pdf_path page_num) None].
      repeat split; auto.
    + destruct (@BatchProofs.chunk_loop_sent E batch_size pdf_path Q page_num
                  (enumerate (_chunk_text text default_chunk_size)) batch
                  (h ++ [mk_event (CExtract pdf_path page_num) None]) Hb
                  (chunks_are_Q page_num text))
        as (r2 & b2 & d2 & -> & Hb2 & Hs2).
      exists r2, b2, (mk_event (CExtract pdf_path page_num) None :: d2).
      rewrite <- app_assoc. repeat split; auto.
  - exists (Raise e), batch, [mk_event (CExtract pdf_path page_num) (Some e)].
    repeat split; auto.
Qed.

Lemma page_loop_sent_all (page_nums : list nat) (batch : list properties)
    (h : history) :
  Forall Q batch ->
  exists r batch' d,
    page_loop E batch_size pdf_path page_nums batch h = (r, batch', h ++ d) /\
    Forall Q batch' /\ Forall Q (sent d).
Proof.
  revert batch h. induction page_nums as [|page_num rest IH];
    intros batch h Hb; simpl page_loop.
  - exists (Ok tt), batch, []. rewrite app_nil_r. repeat split; auto.
  - destruct (page_body_sent_all page_num h Hb) as (r1 & b1 & d1 & -> & Hb1 & Hs1).
    destruct (IH b1 (h ++ d1) Hb1) as (r2 & b2 & d2 & Hrun & Hb2 & Hs2).
    destruct r1 as [[]|[kind|]].
    + exists r2, b2, (d1 ++ d2). rewrite app_assoc, BatchProofs.sent_app.
      repeat split; auto. apply Forall_app. auto.
    + exists r2, b2, (d1 ++ d2). rewrite app_assoc, BatchProofs.sent_app.
      repeat split; auto. apply Forall_app. auto.
    + exists (Raise KeyboardInterrupt), b1, d1. auto.
Qed.

Lemma process_pdf_sent_all (h : history) :
  exists r d,
    process_pdf E batch_size pdf_path h = (r, h ++ d) /\
    Forall Q (sent d).
Proof.
  unfold process_pdf, process_pdf_body, catch, bind, ext, pages.
  destruct (open_pdf E h pdf_path) as [n|e]; simpl exn_of.
  2:{ exists (match e with Exception _ => Ok tt
                         | KeyboardInterrupt => Raise KeyboardInterrupt end),
             [mk_event (COpen pdf_path) (Some e)].
      split; [destruct e; reflexivity|constructor]. }
  set (o := mk_event (COpen pdf_path) None).
  destruct (page_loop_sent_all (seq 0 n) (h ++ [o]) (Forall_nil _))
    as (r1 & b & d & -> & Hb & Hs).
  destruct r1 as [[]|e].
  2:{ exists (match e with Exception _ => Ok tt
                         | KeyboardInterrupt => Raise KeyboardInterrupt end),
             (o :: d).
      rewrite <- app_assoc. split; [destruct e; reflexivity|exact Hs]. }
  assert (Hflush : exists r2 d2,
    (match b with [] => ret tt | _ => _process_batch E b end) ((h ++ [o]) ++ d)
      = (r2, ((h ++ [o]) ++ d) ++ d2) /\
    Forall Q (sent d2)).
  { destruct b as [|x b].
    - exists (Ok tt), []. rewrite app_nil_r. split; [reflexivity|constructor].
    - destruct (BatchProofs.process_batch_inserts E (x :: b) ((h ++ [o]) ++ d))
        as (r2 & d2 & -> & Hi2).
      exists r2, d2. split; [reflexivity|].
      unfold sent. rewrite Hi2. simpl. now rewrite app_nil_r. }
  destruct Hflush as (r2 & d2 & -> & Hs2).
  destruct r2 as [[]|e].
  2:{ exists (match e with Exception _ => Ok tt
                         | KeyboardInterrupt => Raise KeyboardInterrupt end),
             (o :: d ++ d2).
      rewrite <- !app_assoc. split; [destruct e; reflexivity|].
      change (o :: d ++ d2) with ([o] ++ d ++ d2).
      rewrite !BatchProofs.sent_app.
      simpl. apply Forall_app. auto. }
  destruct (BatchProofs.create_backup_inserts E (name pdf_path)
              (((h ++ [o]) ++ d) ++ d2))
    as (r3 & d3 & -> & Hi3).
  exists (match r3 with Ok _ | Raise (Exception _) => Ok tt
                      | Raise KeyboardInterrupt => Raise KeyboardInterrupt end),
         (o :: d ++ d2 ++ d3).
  rewrite <- !app_assoc. split; [destruct r3 as [v|[k|]]; reflexivity|].
  change (o :: d ++ d2 ++ d3) with ([o] ++ d ++ d2 ++ d3).
  rewrite !BatchProofs.sent_app.
  simpl. repeat (apply Forall_app; split); auto.
  unfold sent. rewrite Hi3. constructor.
Qed.

End Sent.

(** X21.  Whatever the environment does, every record [process_pdf] hands
    to the backend names the file, has page and chunk numbers that count
    from 1, and has as content a chunk: not empty, without whitespace at
    either end, its words separated by single spaces, and at most
    [chunk_size] (5000) characters long unless it is one single word. *)
Theorem sent_records_are_clean (E : env) (batch_size : Z) (pdf_path : Path)
    (h : history) :
  exists r d,
    process_pdf E batch_size pdf_path h = (r, h ++ d) /\
    Forall (clean_record pdf_path) (sent d).
Proof.
  apply process_pdf_sent_all. intros page_num text.
  apply chunk_records_clean.
Qed.

(** *** Errors of a file and of a directory *)

Lemma ends_in_interrupt_interrupted (d : history) :
  ends_in_interrupt d -> interrupted d = true.
Proof.
  intros (d0 & ev & -> & Hev & _).
  rewrite ProcessorProofs.interrupted_app. simpl. rewrite Hev. simpl.
  now rewrite orb_true_r.
Qed.

(** X22.  [process_pdf] never raises an error: it opens its file, once and
    before anything else, and returns normally whatever failed, unless one
    of its calls was interrupted; the interrupt then comes out.  A handler
    for errors put around it, as [process_directory] does, is never
    entered. *)
Theorem process_pdf_never_fails (E : env) (batch_size : Z) (pdf_path : Path)
    (h : history) :
  exists r d,
    process_pdf E batch_size pdf_path h = (r, h ++ d) /\
    opened d = [pdf_path] /\
    (interrupted d = false -> r = Ok tt) /\
    (interrupted d = true -> r = Raise KeyboardInterrupt) /\
    (forall handler,
       catch (process_pdf E batch_size pdf_path) handler h
         = process_pdf E batch_size pdf_path h).
Proof.
  destruct (ProcessorProofs.process_pdf_shape E batch_size pdf_path h)
    as (r & o & d & Hrun & F & Hno & Hr).
  exists r, (mk_event (COpen pdf_path) o :: d).
  split; [exact Hrun|]. split.
  { simpl. now rewrite (ProcessorProofs.opened_not_open Hno). }
  split; [|split].
  - intros Hi. destruct F as [[_ He]|[Hc _]].
    + apply ends_in_interrupt_interrupted in He. congruence.
    + destruct Hr as [->| ->]; [reflexivity|]. contradiction Hc. reflexivity.
  - intros Hi. destruct F as [[-> _]|[_ Hd]]; [reflexivity|congruence].
  - intros handler. unfold catch at 1. rewrite Hrun.
    destruct Hr as [->| ->]; reflexivity.
Qed.

Lemma process_pdf_never_fails_witness :
  let run := process_pdf Samples.interrupted_env 50 Samples.a_pdf [] in
  fst run = Raise KeyboardInterrupt /\ opened (snd run) = [Samples.a_pdf].
Proof.
  intros run.
  destruct (@process_pdf_never_fails Samples.interrupted_env 50
              Samples.a_pdf []) as (r & d & Hrun & Hop & _ & Hint & _).
  fold run in Hrun. simpl app in Hrun.
  assert (Hd : snd run =
               [mk_event (COpen Samples.a_pdf) None;
                mk_event (CExtract Samples.a_pdf 0) None;
                mk_event (CExtract Samples.a_pdf 1) (Some KeyboardInterrupt)])
    by (vm_compute; reflexivity).
  rewrite Hrun in Hd. simpl snd in Hd.
  rewrite Hrun. simpl fst. simpl snd.
  split; [|exact Hop]. apply Hint. rewrite Hd. reflexivity.
Defined.

(** X23.  [process_directory] raises an error exactly when listing the
    directory raised it; an error met while a file is processed never
    comes out.  When the listing fails or is empty, nothing else is
    called. *)
Theorem process_directory_errors (E : env) (batch_size : Z)
    (directory : str) (h : history) :
  exists r d,
    process_directory E batch_size directory h
      = (r, h ++ mk_event (CGlob directory)
                          (exn_of (glob_pdf E h directory)) :: d) /\
    (forall kind,
       r = Raise (Exception kind) <->
       glob_pdf E h directory = Raise (Exception kind)) /\
    (glob_pdf E h directory = Ok [] -> r = Ok tt /\ d = []) /\
    (forall e, glob_pdf E h directory = Raise e -> r = Raise e /\ d = []).
Proof.
  unfold process_directory, catch, bind, ext.
  destruct (glob_pdf E h directory) as [pdf_files|[kind|]] eqn:Hglob;
    simpl exn_of.
  - destruct pdf_files as [|f files].
    + exists (Ok tt), []. split; [reflexivity|].
      split; [intros kind; split; discriminate|].
      split; [auto|discriminate].
    + destruct (ProcessorProofs.file_loop_shape E batch_size (f :: files)
                  (h ++ [mk_event (CGlob directory) None]))
        as (r & d & -> & F & H).
      rewrite <- app_assoc. simpl app.
      assert (Hr : r = Ok tt \/ r = Raise KeyboardInterrupt).
      { destruct F as [[-> _]|[_ Hd]]; [now right|].
        left. now destruct (H Hd). }
      exists r, d. split; [destruct Hr as [->| ->]; reflexivity|].
      split.
      { intros kind. split; [|discriminate].
        destruct Hr as [->| ->]; discriminate. }
      split; discriminate.
  - exists (Raise (Exception kind)), []. split; [reflexivity|].
    split; [intros k; split; intros H; injection H as ->; reflexivity|].
    split; [discriminate|].
    intros e He. injection He as <-. auto.
  - exists (Raise KeyboardInterrupt), []. split; [reflexivity|].
    split; [intros k; split; discriminate|]. split; [discriminate|].
    intros e He. injection He as <-. auto.
Qed.

Lemma process_directory_errors_witness :
  let run := process_directory MoreSamples.unlisted_env 50
               (Samples.key "pdfs") [] in
  fst run = Raise (Exception "OSError") /\
  snd run = [mk_event (CGlob (Samples.key "pdfs"))
                      (Some (Exception "OSError"))].
Proof.
  intros run.
  destruct (@process_directory_errors MoreSamples.unlisted_env 50
              (Samples.key "pdfs") []) as (r & d & Hrun & _ & _ & Hraise).
  fold run in Hrun. rewrite Hrun.
  destruct (Hraise (Exception "OSError") eq_refl) as [-> ->].
  split; reflexivity.
Defined.

(** *** What a snapshot holds *)



(** *** The pace of the inserts *)

Lemma paced_app_le (n : nat) (d1 d2 : history) :
  List.length d1 <= n -> paced d1 = true -> paced d2 = true ->
  paced (d1 ++ d2) = true.
Proof.
  revert d1. induction n as [|n IH]; intros d1 Hn H1 H2.
  - destruct d1; [exact H2 | simpl in Hn; lia].
  - destruct d1 as [|[c o] d1]; [exact H2|]. simpl in Hn.
    destruct c; try (simpl in *; apply IH; [lia | exact H1 | exact H2]).
    + destruct o as [e|].
      * simpl in *. apply IH; [lia | exact H1 | exact H2].
      * destruct d1 as [|[c' o'] d1]; [discriminate H1|].
        destruct c'; try discriminate H1.
        simpl in *. apply IH; [lia | exact H1 | exact H2].
    + discriminate H1.
Qed.

Lemma paced_app (d1 d2 : history) :
  paced d1 = true -> paced d2 = true -> paced (d1 ++ d2) = true.
Proof. apply (@paced_app_le (List.length d1)). lia. Qed.

Lemma paced_other (c : call) (o : option exn) :
  other_call c -> paced [mk_event c o] = true.
Proof. destruct c; simpl; intros H; try reflexivity; contradiction. Qed.

Section Keeps.
Variable E : env.
Variable batch_size : Z.
Variable T : history -> Prop.
Hypothesis T_nil : T [].
Hypothesis T_app : forall d1 d2, T d1 -> T d2 -> T (d1 ++ d2).
Hypothesis T_other : forall c o, other_call c -> T [mk_event c o].
Hypothesis T_batch :
  forall batch h, exists r d, _process_batch E batch h = (r, h ++ d) /\ T d.

Local Abbreviation keeps m := (runs (fun _ d => T d) m).

Lemma keeps_ret {A} (a : A) : keeps (ret a).
Proof. intros h. exists (Ok a), []. now rewrite app_nil_r. Qed.

Lemma keeps_raise {A} (e : exn) : keeps (@raise A e).
Proof. intros h. exists (Raise e), []. now rewrite app_nil_r. Qed.

Lemma keeps_lift {A} (r : res A) : keeps (lift r).
Proof. intros h. exists r, []. now rewrite app_nil_r. Qed.

Lemma keeps_ask {A} (f : history -> A) : keeps (ask f).
Proof. intros h. exists (Ok (f h)), []. now rewrite app_nil_r. Qed.

Lemma keeps_ext {A} (c : call) (answer : history -> res A) :
  other_call c -> keeps (ext c answer).
Proof. intros Hc h. exists (answer h), [mk_event c (exn_of (answer h))]. auto. Qed.

Lemma keeps_bind {A B} (m : M A) (k : A -> M B) :
  keeps m -> (forall a, keeps (k a)) -> keeps (bind m k).
Proof.
  intros Hm Hk h. unfold bind.
  destruct (Hm h) as (r1 & d1 & -> & T1).
  destruct r1 as [a|e].
  - destruct (Hk a (h ++ d1)) as (r2 & d2 & -> & T2).
    exists r2, (d1 ++ d2). rewrite app_assoc. auto.
  - exists (Raise e), d1. auto.
Qed.

Lemma keeps_catch {A} (m : M A) (handler : string -> M A) :
  keeps m -> (forall kind, keeps (handler kind)) -> keeps (catch m handler).
Proof.
  intros Hm Hk h. unfold catch.
  destruct (Hm h) as (r1 & d1 & -> & T1).
  destruct r1 as [a|[kind|]].
  - exists (Ok a), d1. auto.
  - destruct (Hk kind (h ++ d1)) as (r2 & d2 & -> & T2).
    exists r2, (d1 ++ d2). rewrite app_assoc. auto.
  - exists (Raise KeyboardInterrupt), d1. auto.
Qed.

Lemma keeps_create_backup (filename : str) : keeps (_create_backup E filename).
Proof.
  unfold _create_backup.
  apply keeps_catch; [|intros; apply keeps_ret].
  apply keeps_bind; [apply keeps_ext; exact I|]. intros result.
  apply keeps_bind; [apply keeps_lift|]. intros [|]; [|apply keeps_ret].
  apply keeps_bind; [apply keeps_ask|]. intros timestamp.
  apply keeps_bind; [apply keeps_lift|]. intros docs.
  apply keeps_bind; [apply keeps_lift|]. intros n.
  apply keeps_bind; [apply keeps_lift|]. intros docs'.
  apply keeps_bind; [apply keeps_ext; exact I|]. intros _.
  apply keeps_ret.
Qed.

Lemma keeps_chunk_loop (pdf_path : Path) (page_num : nat)
    (todo : list (nat * str)) (batch : list properties) (h : history) :
  exists r batch' d,
    chunk_loop E batch_size pdf_path page_num todo batch h
      = (r, batch', h ++ d) /\ T d.
Proof.
  revert batch h. induction todo as [|[chunk_num chunk] todo IH];
    intros batch h; simpl chunk_loop.
  - exists (Ok tt), batch, []. now rewrite app_nil_r.
  - destruct (is_empty (strip chunk)); [apply IH|].
    set (x := mk_properties chunk (page_num + 1) (name pdf_path) (chunk_num + 1)).
    destruct (batch_size <=? Z.of_nat (List.length (batch ++ [x])))%Z;
      [|apply IH].
    destruct (T_batch (batch ++ [x]) h) as (r1 & d1 & -> & T1).
    destruct r1 as [[]|e].
    + destruct (IH [] (h ++ d1)) as (r2 & b2 & d2 & -> & T2).
      exists r2, b2, (d1 ++ d2). rewrite app_assoc. auto.
    + exists (Raise e), (batch ++ [x]), d1. auto.
Qed.

Lemma keeps_page_loop (pdf_path : Path) (page_nums : list nat)
    (batch : list properties) (h : history) :
  exists r batch' d,
    page_loop E batch_size pdf_path page_nums batch h
      = (r, batch', h ++ d) /\ T d.
Proof.
  revert batch h. induction page_nums as [|page_num rest IH];
    intros batch h; simpl page_loop.
  - exists (Ok tt), batch, []. now rewrite app_nil_r.
  - assert (Hbody : exists r1 b1 d1,
              page_body E batch_size pdf_path page_num batch h
                = (r1, b1, h ++ d1) /\ T d1).
    { unfold page_body, ext.
      set (ev := mk_event (CExtract pdf_path page_num)).
      destruct (extract_text E h pdf_path page_num) as [text|e]; simpl exn_of.
      - destruct (is_empty text || is_empty (strip text)).
        + exists (Ok tt), batch, [ev None]. split; [reflexivity|].
          apply T_other. exact I.
        + destruct (keeps_chunk_loop pdf_path page_num
                      (enumerate (_chunk_text text default_chunk_size)) batch
                      (h ++ [ev None])) as (r2 & b2 & d2 & -> & T2).
          exists r2, b2, ([ev None] ++ d2). rewrite app_assoc.
          split; [reflexivity|]. apply T_app; [apply T_other; exact I|exact T2].
      - exists (Raise e), batch, [ev (Some e)]. split; [reflexivity|].
        apply T_other. exact I. }
    destruct Hbody as (r1 & b1 & d1 & -> & T1).
    destruct (IH b1 (h ++ d1)) as (r2 & b2 & d2 & Hrun & T2).
    destruct r1 as [[]|[kind|]].
    + exists r2, b2, (d1 ++ d2). rewrite app_assoc. auto.
    + exists r2, b2, (d1 ++ d2). rewrite app_assoc. auto.
    + exists (Raise KeyboardInterrupt), b1, d1. auto.
Qed.

Lemma keeps_pages (pdf_path : Path) (n : nat) :
  keeps (pages E batch_size pdf_path n).
Proof.
  intros h. unfold pages.
  destruct (keeps_page_loop pdf_path (seq 0 n) [] h) as (r & b & d & -> & Td).
  destruct r as [[]|e]; eauto.
Qed.

Lemma keeps_process_batch (batch : list properties) :
  keeps (_process_batch E batch).
Proof. intros h. apply T_batch. Qed.

Lemma keeps_process_pdf (pdf_path : Path) :
  keeps (process_pdf E batch_size pdf_path).
Proof.
  unfold process_pdf, process_pdf_body.
  apply keeps_catch; [|intros; apply keeps_ret].
  apply keeps_bind; [apply keeps_ext; exact I|]. intros n.
  apply keeps_bind; [apply keeps_pages|]. intros batch.
  apply keeps_bind.
  { destruct batch; [apply keeps_ret | apply keeps_process_batch]. }
  intros _. apply keeps_bind; [apply keeps_create_backup|]. intros _.
  apply keeps_ret.
Qed.

Lemma keeps_file_loop (pdf_files : list Path) :
  keeps (file_loop E batch_size pdf_files).
Proof.
  induction pdf_files as [|f rest IH]; simpl file_loop; [apply keeps_ret|].
  apply keeps_bind; [|intros _; exact IH].
  apply keeps_catch; [apply keeps_process_pdf | intros; apply keeps_ret].
Qed.

Lemma keeps_process_directory (directory : str) :
  keeps (process_directory E batch_size directory).
Proof.
  unfold process_directory.
  apply keeps_catch; [|intros; apply keeps_raise].
  apply keeps_bind; [apply keeps_ext; exact I|]. intros pdf_files.
  destruct pdf_files; [apply keeps_ret | apply keeps_file_loop].
Qed.

End Keeps.

Lemma process_batch_paced (E : env) (batch : list properties) (h : history) :
  exists r d, _process_batch E batch h = (r, h ++ d) /\ paced d = true.
Proof.
  destruct (add_batch E h batch) as [e|] eqn:H.
  - rewrite (BatchProofs.process_batch_fail E batch h H). eauto.
  - rewrite (BatchProofs.process_batch_ok E batch h H). eauto.
Qed.

(** X25.  Over a whole directory walk the inserts keep their pace: every
    batch the backend accepted is followed at once by the pause of
    [_process_batch], whatever happens before and after, and the processor
    pauses at no other time. *)
Theorem directory_walk_is_paced (E : env) (batch_size : Z) (directory : str)
    (h : history) :
  exists r d,
    process_directory E batch_size directory h = (r, h ++ d) /\
    paced d = true.
Proof.
  apply (@keeps_process_directory E batch_size (fun d => paced d = true)).
  - reflexivity.
  - exact paced_app.
  - exact paced_other.
  - apply process_batch_paced.
Qed.

(** *** Nothing is stored twice *)

Lemma subseq_nil_l {A} (l : list A) : Spec.subseq [] l.
Proof. induction l; constructor; auto. Qed.

Lemma subseq_app {A} (a b c d : list A) :
  Spec.subseq a b -> Spec.subseq c d -> Spec.subseq (a ++ c) (b ++ d).
Proof.
  intros Hab Hcd. induction Hab; simpl.
  - exact Hcd.
  - now apply Spec.subseq_skip.
  - now apply Spec.subseq_keep.
Qed.

Lemma subseq_cut {A} (a b l : list A) :
  Spec.subseq (a ++ b) l -> Spec.subseq a l.
Proof.
  intros H. remember (a ++ b) as ab eqn:E. revert a b E.
  induction H as [|x l1 l2 H IH|x l1 l2 H IH]; intros a b E.
  - destruct a; [apply Spec.subseq_nil | discriminate].
  - apply Spec.subseq_skip. eapply IH; eauto.
  - destruct a as [|y a].
    + apply subseq_nil_l.
    + simpl in E. injection E as <- ->. apply Spec.subseq_keep.
      eapply IH; eauto.
Qed.

Lemma committed_not_insert (d : history) :
  Forall (fun ev => match ev_call ev with CInsert _ => False | _ => True end) d ->
  committed d = [].
Proof.
  induction 1 as [|[c o] d Hc _ IH]; simpl; [reflexivity|].
  destruct c; simpl in *; auto. contradiction.
Qed.

Section Once.
Variable E : env.
Variable batch_size : Z.
Variable pdf_path : Path.
Variable texts : nat -> res str.
Hypothesis texts_fixed : forall h i, extract_text E h pdf_path i = texts i.
Hypothesis pause_no_error : forall h kind, sleep E h <> Some (Exception kind).

(** A batch is committed by [_process_batch] at most once, and when it is
    and the call still raises, what it raises is an interrupt. *)
Lemma process_batch_once (batch : list properties) (h : history) :
  exists r d,
    _process_batch E batch h = (r, h ++ d) /\
    ((committed d = [batch] /\ (r = Ok tt \/ r = Raise KeyboardInterrupt)) \/
     (committed d = [] /\ exists e, r = Raise e)).
Proof.
  destruct (add_batch E h batch) as [e|] eqn:H.
  - rewrite (BatchProofs.process_batch_fail E batch h H).
    eexists _, _. split; [reflexivity|]. right. simpl. eauto.
  - rewrite (BatchProofs.process_batch_ok E batch h H). cbv zeta.
    eexists _, _. split; [reflexivity|]. left. split; [reflexivity|].
    pose proof (pause_no_error (h ++ [mk_event (CInsert batch) None])) as Hp.
    destruct (sleep E _) as [[kind|]|]; simpl; auto.
    contradiction (Hp kind). reflexivity.
Qed.

(** What is committed, followed by what is pending, is the pending batch the
    loop started with followed by some of the records of the chunks, in
    order, each once. *)
Lemma chunk_loop_once (page_num : nat) (todo : list (nat * str))
    (batch : list properties) (h : history) :
  exists r batch' d kept rest,
    chunk_loop E batch_size pdf_path page_num todo batch h
      = (r, batch', h ++ d) /\
    Spec.subseq kept (chunk_records pdf_path page_num todo) /\
    List.concat (committed d) ++ rest = batch ++ kept /\
    (calm r -> rest = batch').
Proof.
  revert batch h. induction todo as [|[chunk_num chunk] todo IH];
    intros batch h; simpl chunk_loop.
  - exists (Ok tt), batch, [], [], batch. rewrite !app_nil_r.
    repeat split; auto. apply Spec.subseq_nil.
  - unfold chunk_records. simpl filter.
    destruct (is_empty (strip chunk)); simpl negb; cbv iota; [apply IH|].
    simpl map. fold (chunk_records pdf_path page_num todo).
    set (x := mk_properties chunk (page_num + 1) (name pdf_path) (chunk_num + 1)).
    destruct (batch_size <=? Z.of_nat (List.length (batch ++ [x])))%Z.
    + destruct (process_batch_once (batch ++ [x]) h)
        as (r1 & d1 & -> & [[Hc1 Hr1]|[Hc1 (e & ->)]]).
      * destruct Hr1 as [->| ->].
        -- destruct (IH [] (h ++ d1))
             as (r2 & b2 & d2 & kept & rest & -> & Hsub & Heq & Hrest).
           exists r2, b2, (d1 ++ d2), (x :: kept), rest.
           rewrite app_assoc. split; [reflexivity|].
           split; [now apply Spec.subseq_keep|]. split; [|exact Hrest].
           rewrite BatchProofs.committed_app, Hc1. simpl List.concat.
           rewrite <- !app_assoc. simpl in Heq. rewrite Heq.
           reflexivity.
        -- exists (Raise KeyboardInterrupt), (batch ++ [x]), d1, [x], [].
           split; [reflexivity|].
           split; [apply Spec.subseq_keep, subseq_nil_l|].
           split; [|intros Hc; contradiction Hc; reflexivity].
           rewrite Hc1. simpl. now rewrite !app_nil_r.
      * exists (Raise e), (batch ++ [x]), d1, [x], (batch ++ [x]).
        split; [reflexivity|].
        split; [apply Spec.subseq_keep, subseq_nil_l|].
        split; [|reflexivity]. now rewrite Hc1.
    + destruct (IH (batch ++ [x]) h)
        as (r2 & b2 & d2 & kept & rest & -> & Hsub & Heq & Hrest).
      exists r2, b2, d2, (x :: kept), rest.
      split; [reflexivity|]. split; [now apply Spec.subseq_keep|].
      split; [|exact Hrest]. rewrite Heq. now rewrite <- app_assoc.
Qed.

Lemma page_body_once (page_num : nat) (batch : list properties) (h : history) :
  exists r batch' d kept rest,
    page_body E batch_size pdf_path page_num batch h = (r, batch', h ++ d) /\
    Spec.subseq kept (page_records pdf_path page_num (texts page_num)) /\
    List.concat (committed d) ++ rest = batch ++ kept /\
    (calm r -> rest = batch').
Proof.
  unfold page_body, ext. rewrite texts_fixed. unfold page_records.
  set (ev := mk_event (CExtract pdf_path page_num)).
  destruct (texts page_num) as [text|e]; simpl exn_of.
  - destruct (is_empty text || is_empty (strip text)).
    + exists (Ok tt), batch, [ev None], [], batch. rewrite app_nil_r.
      repeat split; auto. apply subseq_nil_l.
    + destruct (chunk_loop_once page_num
                  (enumerate (_chunk_text text default_chunk_size)) batch
                  (h ++ [ev None]))
        as (r2 & b2 & d2 & kept & rest & -> & Hsub & Heq & Hrest).
      exists r2, b2, (ev None :: d2), kept, rest.
      rewrite <- app_assoc. repeat split; auto.
  - exists (Raise e), batch, [ev (Some e)], [], batch. rewrite app_nil_r.
    repeat split; auto. apply subseq_nil_l.
Qed.

Lemma page_loop_once (page_nums : list nat) (batch : list properties)
    (h : history) :
  exists r batch' d kept rest,
    page_loop E batch_size pdf_path page_nums batch h = (r, batch', h ++ d) /\
    Spec.subseq kept
      (flat_map (fun i => page_records pdf_path i (texts i)) page_nums) /\
    List.concat (committed d) ++ rest = batch ++ kept /\
    (calm r -> rest = batch').
Proof.
  revert batch h. induction page_nums as [|page_num pages IH];
    intros batch h; simpl page_loop.
  - exists (Ok tt), batch, [], [], batch. rewrite !app_nil_r.
    repeat split; auto. apply Spec.subseq_nil.
  - simpl flat_map.
    destruct (page_body_once page_num batch h)
      as (r1 & b1 & d1 & kept1 & rest1 & -> & Hsub1 & Heq1 & Hrest1).
    assert (Hgo : calm r1 ->
      exists r batch' d kept rest,
        page_loop E batch_size pdf_path pages b1 (h ++ d1)
          = (r, batch', h ++ d) /\
        Spec.subseq kept
          (page_records pdf_path page_num (texts page_num) ++
           flat_map (fun i => page_records pdf_path i (texts i)) pages) /\
        List.concat (committed d) ++ rest = batch ++ kept /\
        (calm r -> rest = batch')).
    { intros Hc. rewrite (Hrest1 Hc) in Heq1.
      destruct (IH b1 (h ++ d1))
        as (r2 & b2 & d2 & kept2 & rest2 & -> & Hsub2 & Heq2 & Hrest2).
      exists r2, b2, (d1 ++ d2), (kept1 ++ kept2), rest2.
      rewrite app_assoc. split; [reflexivity|].
      split; [now apply subseq_app|]. split; [|exact Hrest2].
      rewrite BatchProofs.committed_app, concat_app, <- app_assoc, Heq2.
      now rewrite !app_assoc, Heq1. }
    destruct r1 as [[]|[kind|]].
    + apply Hgo. discriminate.
    + apply Hgo. discriminate.
    + exists (Raise KeyboardInterrupt), b1, d1, kept1, rest1.
      split; [reflexivity|]. split.
      { rewrite <- (app_nil_r kept1).
        apply subseq_app; [exact Hsub1 | apply subseq_nil_l]. }
      split; [exact Heq1|]. intros Hc. contradiction Hc. reflexivity.
Qed.

Lemma process_pdf_once (n : nat) (h : history) :
  open_pdf E h pdf_path = Ok n ->
  exists r d,
    process_pdf E batch_size pdf_path h = (r, h ++ d) /\
    Spec.subseq (List.concat (committed d)) (file_records pdf_path texts n).
Proof.
  intros Hopen.
  unfold process_pdf, process_pdf_body, catch, bind, ext, pages.
  rewrite Hopen. simpl exn_of.
  set (o := mk_event (COpen pdf_path) None).
  destruct (page_loop_once (seq 0 n) [] (h ++ [o]))
    as (r1 & b & d & kept & rest & -> & Hsub & Heq & Hrest).
  fold (file_records pdf_path texts n) in Hsub. simpl app in Heq.
  assert (Hd : Spec.subseq (List.concat (committed d))
                 (file_records pdf_path texts n)).
  { apply subseq_cut with (b := rest). now rewrite Heq. }
  destruct r1 as [[]|e].
  2:{ exists (match e with Exception _ => Ok tt
                         | KeyboardInterrupt => Raise KeyboardInterrupt end),
             (o :: d).
      rewrite <- app_assoc. split; [destruct e; reflexivity|exact Hd]. }
  rewrite (Hrest ltac:(discriminate)) in Heq.
  assert (Hflush : exists r2 d2,
    (match b with [] => ret tt | _ => _process_batch E b end) ((h ++ [o]) ++ d)
      = (r2, ((h ++ [o]) ++ d) ++ d2) /\
    Spec.subseq (List.concat (committed d) ++ List.concat (committed d2))
                (file_records pdf_path texts n)).
  { destruct b as [|x b].
    - exists (Ok tt), []. rewrite !app_nil_r. split; [reflexivity|exact Hd].
    - destruct (process_batch_once (x :: b) ((h ++ [o]) ++ d))
        as (r2 & d2 & -> & [[Hc2 _]|[Hc2 _]]); exists r2, d2;
        (split; [reflexivity|]); rewrite Hc2; simpl List.concat.
      + rewrite app_nil_r, Heq. exact Hsub.
      + rewrite app_nil_r. exact Hd. }
  destruct Hflush as (r2 & d2 & -> & Hs2).
  destruct r2 as [[]|e].
  2:{ exists (match e with Exception _ => Ok tt
                         | KeyboardInterrupt => Raise KeyboardInterrupt end),
             (o :: d ++ d2).
      rewrite <- !app_assoc. split; [destruct e; reflexivity|].
      change (o :: d ++ d2) with ([o] ++ d ++ d2).
      rewrite !BatchProofs.committed_app, !concat_app. exact Hs2. }
  destruct (BackupProofs.create_backup_cases E (name pdf_path)
              (((h ++ [o]) ++ d) ++ d2))
    as [(r3 & q & Hrun & _)|(r3 & q & f & s & Hrun & _)]; rewrite Hrun.
  - exists (match r3 with Ok _ | Raise (Exception _) => Ok tt
                        | Raise KeyboardInterrupt => Raise KeyboardInterrupt end),
           (o :: d ++ d2 ++ [mk_event (CQuery (name pdf_path)) q]).
    rewrite <- !app_assoc. split; [destruct r3 as [v|[k|]]; reflexivity|].
    change (o :: d ++ d2 ++ [mk_event (CQuery (name pdf_path)) q])
      with ([o] ++ d ++ d2 ++ [mk_event (CQuery (name pdf_path)) q]).
    rewrite !BatchProofs.committed_app, !concat_app. simpl.
    rewrite !app_nil_r. exact Hs2.
  - exists (match r3 with Ok _ | Raise (Exception _) => Ok tt
                        | Raise KeyboardInterrupt => Raise KeyboardInterrupt end),
           (o :: d ++ d2 ++ [mk_event (CQuery (name pdf_path)) None;
                             mk_event (CWrite f s) q]).
    rewrite <- !app_assoc. split; [destruct r3 as [v|[k|]]; reflexivity|].
    change (o :: d ++ d2 ++ [mk_event (CQuery (name pdf_path)) None;
                             mk_event (CWrite f s) q])
      with ([o] ++ d ++ d2 ++ [mk_event (CQuery (name pdf_path)) None;
                               mk_event (CWrite f s) q]).
    rewrite !BatchProofs.committed_app, !concat_app. simpl.
    rewrite !app_nil_r. exact Hs2.
Qed.

End Once.

(** X26.  Whatever fails, [process_pdf] stores no record twice: as long as
    the pause itself raises no error, the records of the batches the
    backend accepted are, in order, records of the chunks of the file, each
    at most once.  A batch the backend refused stays pending and is sent
    again with the records that follow, so its records are not stored
    twice either. *)
Theorem nothing_is_stored_twice (E : env) (batch_size : Z) (pdf_path : Path)
    (texts : nat -> res str) (n : nat) (h : history) :
  (forall h i, extract_text E h pdf_path i = texts i) ->
  (forall h kind, sleep E h <> Some (Exception kind)) ->
  open_pdf E h pdf_path = Ok n ->
  exists r d,
    process_pdf E batch_size pdf_path h = (r, h ++ d) /\
    Spec.subseq (List.concat (committed d)) (all_records pdf_path texts n).
Proof.
  intros Htexts Hpause Hopen. rewrite <- file_records_all.
  now apply process_pdf_once.
Qed.

Lemma nothing_is_stored_twice_witness :
  let E := Samples.sample_env [Ok (of_string "alpha"); Ok (of_string "beta")]
                              [0] (Ok Samples.two_stored) in
  let texts := Samples.texts_of [Ok (of_string "alpha"); Ok (of_string "beta")] in
  exists r d,
    process_pdf E 1 Samples.a_pdf [] = (r, [] ++ d) /\
    Spec.subseq (List.concat (committed d)) (all_records Samples.a_pdf texts 2).
Proof.
  intros E texts.
  apply (@nothing_is_stored_twice E 1 Samples.a_pdf texts 2 []).
  - reflexivity.
  - discriminate.
  - reflexivity.
Defined.

End ProcessorMore.
